(** * bulk-domain-checker: a shallow embedding of [src/index.js]

    The development follows the source file top to bottom:
    - [JS]        the fragment of the JavaScript runtime the program relies on
                  (strings as sequences of 16-bit code units, numbers, the
                  regular-expression matcher, thrown errors);
    - [Config]    [readConfig] and [validateAffix];
    - [Generator] [domainGenerator] with its inner generator [build];
    - [Whois]     [getWhoisProvider] and [whoisLookup];
    - [Runner]    [run] and its loop;
    - [Affix]     the pattern of [validateAffix], run by a matcher;
    - [Report]    [formatDuration] and the list of available names;
    - [RegExpObjects]  regular expressions as objects with state, and the
                  classifiers on them;
    - [StackDepth]  the generator on a call stack of bounded depth;
    - [Text], [Runs], [Traces]  the notions the statements are written with.
    The proofs follow: [GeneratorProofs], [ClassifierProofs], [RunnerProofs]
    and [ConfigProofs] relate the embedded code to those notions, and
    [GeneratorSpec], [ClassifierSpec], [LookupSpec], [RunSpec] and
    [ConfigSpec] state what the program does. *)

From Stdlib Require Import Ascii String.
From Stdlib Require Import List ZArith NArith QArith Bool Lia Sorted.
From Stdlib Require DecimalString DecimalPos DecimalN.
Import ListNotations.

Set Implicit Arguments.

(* ================================================================== *)
(** * The JavaScript fragment *)
(* ================================================================== *)

Module JS.

(** A JavaScript string is a sequence of UTF-16 code units. *)
Definition jsstring := list N.

(** String literals of the source are written [js "..."]; they are all
    ASCII, so a byte is its own code unit. *)
Definition js (s : String.string) : jsstring :=
  List.map N_of_ascii (list_ascii_of_string s).

Definition between (lo hi c : N) : bool := (lo <=? c)%N && (c <=? hi)%N.

(** [\s]: the WhiteSpace and LineTerminator code points. *)
Definition is_space (c : N) : bool :=
  between 9 13 c           (* TAB LF VT FF CR *)
  || (c =? 32)%N || (c =? 160)%N || (c =? 5760)%N
  || between 8192 8202 c   (* U+2000 .. U+200A *)
  || (c =? 8232)%N || (c =? 8233)%N || (c =? 8239)%N
  || (c =? 8287)%N || (c =? 12288)%N || (c =? 65279)%N.

(** [\w] without the [u] flag: [A-Za-z0-9_], also under [i]. *)
Definition is_word (c : N) : bool :=
  between 48 57 c || between 65 90 c || (c =? 95)%N || between 97 122 c.

Definition is_lower_az (c : N) : bool := between 97 122 c.
Definition is_upper_az (c : N) : bool := between 65 90 c.

(** Canonicalize of the [i] flag (no [u] flag): the upper-case form of a
    code unit, except that a unit at or above 128 never folds to one below
    128.  The patterns of this program hold ASCII characters only, against
    which every unit at or above 128 compares unequal whatever it folds to,
    so those units are left as they are. *)
Definition canonicalize (c : N) : N :=
  if is_lower_az c then (c - 32)%N else c.

(** [String.prototype.toLowerCase], one code unit at a time.  It is exact on
    ASCII.  Above ASCII the only code point whose lower-case form is ASCII
    is U+212A (KELVIN SIGN, to [k]); it is mapped.  The other units are
    kept: their lower-case forms hold a unit at or above 128 as well, and
    the program only compares lower-cased strings with ASCII literals. *)
Definition lower_unit (c : N) : N :=
  if is_upper_az c then (c + 32)%N
  else if (c =? 8490)%N then 107%N
  else c.

Definition toLowerCase (s : jsstring) : jsstring := List.map lower_unit s.

(** [===] on strings. *)
Fixpoint str_eqb (a b : jsstring) : bool :=
  match a, b with
  | [], [] => true
  | x :: a', y :: b' => (x =? y)%N && str_eqb a' b'
  | _, _ => false
  end.

(** [String.prototype.trim]: strips [\s] units at both ends. *)
Fixpoint trimStart (s : jsstring) : jsstring :=
  match s with
  | c :: s' => if is_space c then trimStart s' else s
  | [] => []
  end.

Definition trimEnd (s : jsstring) : jsstring := rev (trimStart (rev s)).
Definition trim (s : jsstring) : jsstring := trimEnd (trimStart s).

(** Truthiness of a string: non-empty. *)
Definition truthy (s : jsstring) : bool :=
  match s with [] => false | _ => true end.

(** ** Thrown values and fallible computations *)

Inductive exn : Type :=
| Error (message : jsstring)
| TypeError (message : jsstring).

Definition message (e : exn) : jsstring :=
  match e with Error m | TypeError m => m end.

Inductive result (A : Type) : Type :=
| Ok (a : A)
| Throw (e : exn).
Arguments Ok {A} a.
Arguments Throw {A} e.

Definition bind {A B} (r : result A) (k : A -> result B) : result B :=
  match r with Ok a => k a | Throw e => Throw e end.

(** ** Numbers

    A finite double is a rational; the program only compares numbers and
    tests them for integrality, so the rationals stand for the finite
    values. *)
Inductive number : Type :=
| NaN
| PosInf
| NegInf
| Fin (q : Q).

Definition num_ltb (a b : number) : bool :=
  match a, b with
  | NaN, _ | _, NaN => false
  | PosInf, _ => false
  | _, PosInf => true
  | _, NegInf => false
  | NegInf, _ => true
  | Fin x, Fin y => negb (Qle_bool y x)
  end.

(** [a >= b] *)
Definition num_geb (a b : number) : bool :=
  match a, b with
  | NaN, _ | _, NaN => false
  | PosInf, _ => true
  | _, NegInf => true
  | _, PosInf => false
  | NegInf, _ => false
  | Fin x, Fin y => Qle_bool y x
  end.

Definition isFinite (a : number) : bool :=
  match a with Fin _ => true | _ => false end.

Definition isInteger (a : number) : bool :=
  match a with
  | Fin q => (Qden (Qred q) =? 1)%positive
  | _ => false
  end.

Definition of_nat (n : nat) : number := Fin (inject_Z (Z.of_nat n)).
Definition of_Z (z : Z) : number := Fin (inject_Z z).

(** The integer a number stands for, when [isInteger] holds. *)
Definition to_Z (a : number) : Z :=
  match a with Fin q => Qnum (Qred q) | _ => 0%Z end.

(** ** Values read from parsed JSON *)

Inductive value : Type :=
| VUndefined
| VNull
| VBoolean (b : bool)
| VNumber (n : number)
| VString (s : jsstring)
| VObject (id : nat).          (* arrays and objects, by identity *)

(** [a ?? b] *)
Definition nullish (a b : value) : value :=
  match a with VUndefined | VNull => b | _ => a end.

(** ** Regular expressions

    The patterns of the program are sequences of single characters,
    starred character classes and one capturing group around a [+]; the
    matcher below is the backtracking matcher of the language for that
    fragment, greedy quantifiers included. *)

Inductive atom : Type :=
| Chr (c : N)        (* a pattern character *)
| Space              (* \s *)
| Word.              (* \w *)

Inductive node : Type :=
| One (a : atom)         (* a *)
| Star (a : atom)        (* a* *)
| GroupPlus (a : atom).  (* (a+), capturing group 1 *)

Record RegExp : Type := mkRegExp {
  source : list node;
  ignoreCase : bool
}.

Definition lit (s : String.string) : list node :=
  List.map (fun c => One (Chr c)) (js s).

Definition atom_matches (ic : bool) (a : atom) (c : N) : bool :=
  match a with
  | Chr p => if ic then (canonicalize p =? canonicalize c)%N else (p =? c)%N
  | Space => is_space c
  | Word => is_word c
  end.

Section Matcher.
Variable R : Type.
Variable ic : bool.

(** Greedy [a*]: take one more character when that leads to a match,
    otherwise go on with the continuation from here. *)
Fixpoint star (a : atom) (k : jsstring -> option R) (s : jsstring)
  : option R :=
  match s with
  | c :: s' =>
      if atom_matches ic a c then
        match star a k s' with
        | Some r => Some r
        | None => k s
        end
      else k s
  | [] => k []
  end.

(** The same, remembering the characters taken so far for the group. *)
Fixpoint star_cap (a : atom) (acc : jsstring)
         (k : jsstring -> jsstring -> option R) (s : jsstring) : option R :=
  match s with
  | c :: s' =>
      if atom_matches ic a c then
        match star_cap a (acc ++ [c]) k s' with
        | Some r => Some r
        | None => k acc s
        end
      else k acc s
  | [] => k acc []
  end.

Definition group_plus (a : atom) (k : jsstring -> jsstring -> option R)
           (s : jsstring) : option R :=
  match s with
  | c :: s' => if atom_matches ic a c then star_cap a [c] k s' else None
  | [] => None
  end.
End Matcher.

(** The result of a match: the source reads index 1 of the match array
    only, so the embedding keeps group 1 ([None] is [undefined]). *)
Record MatchResult : Type := mkMatch {
  group1 : option jsstring
}.

Fixpoint match_nodes (ic : bool) (p : list node) (cap : option jsstring)
         (s : jsstring) : option MatchResult :=
  match p with
  | [] => Some (mkMatch cap)
  | One a :: p' =>
      match s with
      | c :: s' => if atom_matches ic a c then match_nodes ic p' cap s' else None
      | [] => None
      end
  | Star a :: p' => star ic a (match_nodes ic p' cap) s
  | GroupPlus a :: p' =>
      group_plus ic a (fun w rest => match_nodes ic p' (Some w) rest) s
  end.

(** RegExpBuiltinExec without [g] and [y]: the search starts at index 0
    and moves one code unit to the right after each failed attempt, the
    end of the string included. *)
Fixpoint exec (r : RegExp) (s : jsstring) : option MatchResult :=
  match match_nodes (ignoreCase r) (source r) None s with
  | Some m => Some m
  | None =>
      match s with
      | [] => None
      | _ :: s' => exec r s'
      end
  end.

(** [RegExp.prototype.test] *)
Definition test (r : RegExp) (s : jsstring) : bool :=
  match exec r s with Some _ => true | None => false end.

(** [String.prototype.match] with a regular expression without [g]. *)
Definition str_match (s : jsstring) (r : RegExp) : option MatchResult :=
  exec r s.

End JS.

(* ================================================================== *)
(** * Configuration: [readConfig], [validateAffix] *)
(* ================================================================== *)

Module Config.
Import JS.

Definition MIN_LENGTH : number := of_Z 2.
Definition MAX_LENGTH : number := of_Z 63.
Definition DEFAULT_INTERVAL_MS : number := of_Z 500.
(** A [Set] keeps its elements in the order they were added: a list
    without repetition. *)
Definition SUPPORTED_TLDS : list jsstring :=
  [js "de"; js "net"; js "eu"; js "com"].

(** [Set.prototype.has] on a set of strings. *)
Definition has (set : list jsstring) (x : jsstring) : bool :=
  existsb (str_eqb x) set.

(** What [readConfig] finds on disk.  [Parsed] holds the values the
    property reads [parsed.length], [parsed.prefix], ... evaluate to
    ([VUndefined] for a property that is not there); [ParsedNull] is the
    JSON text [null], on which a property read throws. *)
Record parsed : Type := mkParsed {
  p_length : value;
  p_prefix : value;
  p_suffix : value;
  p_intervalMs : value;
  p_topLevelDomain : value
}.

Inductive config_file : Type :=
| Missing
| InvalidJSON (err_message : jsstring)
| ParsedNull
| Parsed (p : parsed).

(** The object [readConfig] returns.  [domainLength] has passed
    [Number.isInteger], so the field is kept as the integer it is. *)
Record config : Type := mkConfig {
  domainLength : Z;
  prefix : jsstring;
  suffix : jsstring;
  intervalMs : number;
  topLevelDomain : jsstring
}.

Definition quote : jsstring := [34%N].

Definition validateAffix (v : value) (name : jsstring) : result jsstring :=
  match v with
  | VString s =>
      (* /^$|^[a-z]+$/ : empty, or lower-case a-z from start to end *)
      if negb (forallb is_lower_az s) then
        Throw (Error (name ++ js " must only contain lowercase a-z characters."))
      else Ok s
  | _ => Throw (Error (name ++ js " must be a string (letters a-z only)."))
  end.

Section ReadConfig.
(** The conversions of the language where they take real work: a string
    or an object to a number, a number or an object to a string. *)
Variable ToNumber : value -> number.
Variable ToString : value -> jsstring.

(** [Number(v)] *)
Definition Number_ (v : value) : number :=
  match v with
  | VNumber n => n
  | VUndefined => NaN
  | VNull => of_Z 0
  | VBoolean b => if b then of_Z 1 else of_Z 0
  | VString _ | VObject _ => ToNumber v
  end.

(** [String(v)] *)
Definition String_ (v : value) : jsstring :=
  match v with
  | VString s => s
  | VUndefined => js "undefined"
  | VNull => js "null"
  | VBoolean b => if b then js "true" else js "false"
  | VNumber _ | VObject _ => ToString v
  end.

(** [!Number.isFinite(interval) || interval < 0] *)
Definition bad_interval (interval : value) : bool :=
  match interval with
  | VNumber n => negb (isFinite n) || num_ltb n (of_Z 0)
  | _ => true
  end.

Definition number_of (interval : value) : number :=
  match interval with VNumber n => n | _ => NaN end.

Definition readConfig (f : config_file) : result config :=
  match f with
  | Missing =>
      Throw (Error (js "Missing config.json. Copy config.example.json and adjust values."))
  | InvalidJSON m =>
      Throw (Error (js "config.json contains invalid JSON: " ++ m))
  | ParsedNull =>
      Throw (TypeError (js "Cannot read properties of null (reading 'length')"))
  | Parsed p =>
      let domainLength := Number_ (p_length p) in
      if negb (isInteger domainLength)
         || num_ltb domainLength MIN_LENGTH
         || num_ltb MAX_LENGTH domainLength
      then Throw (Error (quote ++ js "length" ++ quote
                         ++ js " must be an integer between 2 and 63."))
      else
      bind (validateAffix (nullish (p_prefix p) (VString [])) (js "prefix"))
        (fun prefix =>
      bind (validateAffix (nullish (p_suffix p) (VString [])) (js "suffix"))
        (fun suffix =>
      if num_geb (of_nat (length prefix + length suffix)) domainLength
      then Throw (Error (js "prefix + suffix length must be shorter than the domain length."))
      else
      let interval := nullish (p_intervalMs p) (VNumber DEFAULT_INTERVAL_MS) in
      if bad_interval interval
      then Throw (Error (js "intervalMs must be a non-negative number of milliseconds when provided."))
      else
      let tld := toLowerCase (String_ (nullish (p_topLevelDomain p) (VString (js "de")))) in
      if negb (has SUPPORTED_TLDS tld)
      then Throw (Error (js "topLevelDomain must be one of: de, net, eu, com"))
      else
      Ok (mkConfig (to_Z domainLength) prefix suffix (number_of interval) tld)))
  end.
End ReadConfig.

End Config.

(* ================================================================== *)
(** * The candidate generator: [domainGenerator] *)
(* ================================================================== *)

Module Generator.
Import JS.

Definition ALPHABET : jsstring := js "abcdefghijklmnopqrstuvwxyz".

(** A generator is modelled by the list of the values it yields, in
    order; [None] is a generator that never comes to its end.  [yield_all]
    runs generators one after the other, as a loop of [yield*] does. *)
Fixpoint yield_all {A} (gens : list (option (list A))) : option (list A) :=
  match gens with
  | [] => Some []
  | g :: gs =>
      match g, yield_all gs with
      | Some l, Some r => Some (l ++ r)
      | _, _ => None
      end
  end.

(** The inner generator [build(current)].  The recursion of the source
    stops only when [current.length === fillCount]; [fuel] bounds its
    depth, and [None] means the bound was hit. *)
Fixpoint build (fillCount : Z) (fuel : nat) (current : jsstring)
  : option (list jsstring) :=
  if (Z.of_nat (length current) =? fillCount)%Z then Some [current]
  else
    match fuel with
    | O => None
    | S fuel' =>
        yield_all
          (List.map (fun letter => build fillCount fuel' (current ++ [letter]))
                    ALPHABET)
    end.

Definition domainGenerator (fuel : nat) (length_ : Z) (prefix suffix : jsstring)
  : option (list jsstring) :=
  let fillCount :=
    (length_ - Z.of_nat (length prefix) - Z.of_nat (length suffix))%Z in
  if (fillCount =? 0)%Z then Some [prefix ++ suffix]
  else
    match build fillCount fuel [] with
    | Some middles =>
        Some (List.map (fun middle => prefix ++ middle ++ suffix) middles)
    | None => None
    end.

(** Reference definitions for the statements: all words of length [n]
    over an alphabet, first letter varying slowest, and the
    lexicographic order of strings by code unit. *)
Fixpoint words (alphabet : jsstring) (n : nat) : list jsstring :=
  match n with
  | O => [[]]
  | S n' => flat_map (fun c => List.map (cons c) (words alphabet n')) alphabet
  end.

Inductive lex_lt : jsstring -> jsstring -> Prop :=
| lex_nil : forall c s, lex_lt [] (c :: s)
| lex_head : forall c d s t, (c < d)%N -> lex_lt (c :: s) (d :: t)
| lex_tail : forall c s t, lex_lt s t -> lex_lt (c :: s) (c :: t).

End Generator.

(* ================================================================== *)
(** * Providers and the lookup: [getWhoisProvider], [whoisLookup] *)
(* ================================================================== *)

Module Whois.
Import JS.

Record provider : Type := mkProvider {
  host : jsstring;
  isAvailable : jsstring -> result bool
}.

(** [/Status:\s*(\w+)/i] *)
Definition status_regexp : RegExp :=
  mkRegExp (lit "Status:" ++ [Star Space; GroupPlus Word]) true.

(** [/no match/i] *)
Definition no_match_regexp : RegExp :=
  mkRegExp (lit "no match") true.

Definition undefined_toLowerCase : exn :=
  TypeError (js "Cannot read properties of undefined (reading 'toLowerCase')").

Definition de_isAvailable (output : jsstring) : result bool :=
  match str_match output status_regexp with
  | Some statusMatch =>
      match group1 statusMatch with
      | Some g => Ok (str_eqb (toLowerCase g) (js "free"))
      | None => Throw undefined_toLowerCase
      end
  | None => Ok false
  end.

Definition verisign_isAvailable (output : jsstring) : result bool :=
  Ok (test no_match_regexp output).

Definition eu_isAvailable (output : jsstring) : result bool :=
  match str_match output status_regexp with
  | Some statusMatch =>
      match group1 statusMatch with
      | Some g => Ok (str_eqb (toLowerCase g) (js "available"))
      | None => Throw undefined_toLowerCase
      end
  | None => Ok false
  end.

Definition getWhoisProvider (tld : jsstring) : result provider :=
  if str_eqb tld (js "de") then
    Ok (mkProvider (js "whois.denic.de") de_isAvailable)
  else if str_eqb tld (js "net") || str_eqb tld (js "com") then
    Ok (mkProvider (js "whois.verisign-grs.com") verisign_isAvailable)
  else if str_eqb tld (js "eu") then
    Ok (mkProvider (js "whois.eu") eu_isAvailable)
  else Throw (Error (js "Unsupported TLD: " ++ tld)).

(** What the child process does, as the program sees it: either the
    ['error'] event of a failed spawn, or the ['close'] event after both
    streams have been read to their end.  [code] is [None] when the
    process was ended by a signal ([null] in the source). *)
Inductive process : Type :=
| SpawnFailed (err : exn)
| Closed (code : option Z) (stdout stderr : jsstring).

(** [spawn(command, args)] *)
Definition spawner : Type := jsstring -> list jsstring -> process.

Record lookup : Type := mkLookup {
  available : bool;
  raw : jsstring
}.

(** How the promise of [whoisLookup] ends.  [Uncaught] is an exception
    thrown inside the ['close'] handler, which no promise receives. *)
Inductive settled : Type :=
| Resolved (r : lookup)
| Rejected (err : exn)
| Uncaught (err : exn).

(** [code !== 0] *)
Definition code_not_zero (code : option Z) : bool :=
  match code with
  | Some z => negb (z =? 0)%Z
  | None => true
  end.

Definition whoisLookup (spawn : spawner) (fqdn : jsstring) (p : provider)
  : settled :=
  match spawn (js "whois") [js "-h"; host p; fqdn] with
  | SpawnFailed err => Rejected err
  | Closed code stdout stderr =>
      if code_not_zero code && truthy stderr then
        Rejected (Error (trim stderr))
      else
        match isAvailable p stdout with
        | Ok a => Resolved (mkLookup a stdout)
        | Throw e => Uncaught e
        end
  end.

End Whois.

(* ================================================================== *)
(** * The run loop: [run] *)
(* ================================================================== *)

Module Runner.
Import JS Config Generator Whois.

(** What a run does that can be seen from outside, in order.  The banner
    and summary lines are left out: the summary is the final state. *)
Inductive event : Type :=
| EDelay (ms : number)                   (* await delay(intervalMs) *)
| ELookup (host fqdn : jsstring)         (* whoisLookup(fqdn, whoisProvider) *)
| EError (fqdn msg : jsstring)           (* Error checking <fqdn>: <msg> *)
| EAvailable (fqdn : jsstring)           (* <fqdn> - AVAILABLE *)
| ETaken (fqdn : jsstring).              (* <fqdn> - TAKEN *)

(** The variables of [run] the loop updates. *)
Record state : Type := mkState {
  checked : nat;
  taken : nat;
  availableDomains : list jsstring
}.

Definition initial : state := mkState 0 0 [].

Inductive exit : Type :=
| ConfigurationError (msg : jsstring)    (* readConfig threw: exit code 1 *)
| UnexpectedError (msg : jsstring)       (* run() rejected: exit code 1 *)
| UncaughtException (err : exn)          (* thrown inside an event handler *)
| Summary (st : state)                   (* the generator is exhausted *)
| OutOfFuel.                             (* the generator did not come to an end *)

Definition emit (evs : list event) (r : list event * exit)
  : list event * exit :=
  (evs ++ fst r, snd r).

Section Run.
Variable ToNumber : value -> number.
Variable ToString : value -> jsstring.
(** The [i]-th child process of the run, [i] counted from 0. *)
Variable spawn : nat -> spawner.

Section Loop.
Variable cfg : config.
Variable whoisProvider : provider.

(** One pass through the body of [for (const domain of generator)]. *)
Fixpoint loop (i : nat) (st : state) (domains : list jsstring)
  : list event * exit :=
  match domains with
  | [] => ([], Summary st)
  | domain :: rest =>
      let wait :=
        if (0 <? checked st)%nat then [EDelay (intervalMs cfg)] else [] in
      let fqdn := domain ++ js "." ++ topLevelDomain cfg in
      let asked := wait ++ [ELookup (host whoisProvider) fqdn] in
      match whoisLookup (spawn i) fqdn whoisProvider with
      | Rejected err =>
          emit (asked ++ [EError fqdn (message err)])
               (loop (S i) st rest)
      | Uncaught err => (asked, UncaughtException err)
      | Resolved result =>
          let checked' := S (checked st) in
          if available result then
            emit (asked ++ [EAvailable fqdn])
                 (loop (S i)
                       (mkState checked' (taken st)
                                (availableDomains st ++ [fqdn]))
                       rest)
          else
            emit (asked ++ [ETaken fqdn])
                 (loop (S i)
                       (mkState checked' (S (taken st))
                                (availableDomains st))
                       rest)
      end
  end.
End Loop.

Definition run (file : config_file) (fuel : nat) : list event * exit :=
  match readConfig ToNumber ToString file with
  | Throw err => ([], ConfigurationError (message err))
  | Ok cfg =>
      match getWhoisProvider (topLevelDomain cfg) with
      | Throw err => ([], UnexpectedError (message err))
      | Ok whoisProvider =>
          match domainGenerator fuel (domainLength cfg)
                                (prefix cfg) (suffix cfg) with
          | None => ([], OutOfFuel)
          | Some domains => loop cfg whoisProvider 0 initial domains
          end
      end
  end.
End Run.

End Runner.

Unset Implicit Arguments.

(* ================================================================== *)
(** * Reference notions on response texts *)
(* ================================================================== *)

(** The statements about the classifiers are written with the notions of
    this module; [ClassifierProofs] relates the matcher to them. *)
Module Text.
Import JS.

(** Equal up to the case of the letters a-z. *)
Definition same_letters (a b : jsstring) : Prop :=
  List.map canonicalize a = List.map canonicalize b.

(** [text] holds [p], in any letter case, from index [i] on. *)
Definition occurs_at (p text : jsstring) (i : nat) : Prop :=
  exists before found after,
    text = before ++ found ++ after /\ length before = i /\ same_letters p found.

Definition contains (p text : jsstring) : Prop :=
  exists i, occurs_at p text i.

(** [rest] does not go on with a word character. *)
Definition word_ends (rest : jsstring) : Prop :=
  match rest with
  | [] => True
  | c :: _ => is_word c = false
  end.

(** A [Status:] field with the value [w] starts at index [i] of [text]:
    [Status:] in any letter case, optional white space, and the word [w]
    up to its end. *)
Definition field_at (text : jsstring) (i : nat) (w : jsstring) : Prop :=
  exists before head ws rest,
    text = before ++ head ++ ws ++ w ++ rest
    /\ length before = i
    /\ same_letters (js "Status:") head
    /\ Forall (fun c => is_space c = true) ws
    /\ w <> []
    /\ Forall (fun c => is_word c = true) w
    /\ word_ends rest.

(** [w] is the value of the first [Status:] field of [text]. *)
Definition first_field (text w : jsstring) : Prop :=
  exists i, field_at text i w /\ forall j w', field_at text j w' -> (i <= j)%nat.

(** [strip_ci p s]: what follows [p] when [s] starts with [p] in any
    letter case. *)
Fixpoint strip_ci (p s : jsstring) : option jsstring :=
  match p, s with
  | [], _ => Some s
  | x :: p', c :: s' =>
      if (canonicalize x =? canonicalize c)%N then strip_ci p' s' else None
  | _ :: _, [] => None
  end.

Fixpoint contains_ci (p s : jsstring) : bool :=
  match strip_ci p s with
  | Some _ => true
  | None =>
      match s with
      | [] => false
      | _ :: s' => contains_ci p s'
      end
  end.

Fixpoint take_while (f : N -> bool) (s : jsstring) : jsstring :=
  match s with
  | c :: s' => if f c then c :: take_while f s' else []
  | [] => []
  end.

(** The value of a [Status:] field that starts at the head of [s]: the
    word after [Status:] and any white space, if there is one. *)
Definition status_at (s : jsstring) : option jsstring :=
  match strip_ci (js "Status:") s with
  | Some rest =>
      match take_while is_word (trimStart rest) with
      | [] => None
      | w => Some w
      end
  | None => None
  end.

(** The value of the first [Status:] field of [s]. *)
Fixpoint first_status (s : jsstring) : option jsstring :=
  match status_at s with
  | Some w => Some w
  | None =>
      match s with
      | [] => None
      | _ :: s' => first_status s'
      end
  end.

Definition LF : jsstring := [10%N].

(** The answer of the registry of [com] and [net] for a free name. *)
Definition no_match_for_example : jsstring :=
  js "No match for " ++ [34%N] ++ js "EXAMPLE.COM" ++ [34%N] ++ js ".".

(** A response with two [Status:] lines, the free one second. *)
Definition connect_then_free : jsstring :=
  js "Status: connect" ++ LF ++ js "Status: free".

End Text.

(* ================================================================== *)
(** * Reference notions on runs *)
(* ================================================================== *)

Module Runs.
Import JS Config Whois Runner.

(** The name the loop looks up for a candidate. *)
Definition fqdn_of (cfg : config) (domain : jsstring) : jsstring :=
  domain ++ js "." ++ topLevelDomain cfg.

(** The candidates in the order they are dispatched, each with the
    index of its child process. *)
Definition dispatches (i : nat) (domains : list jsstring)
  : list (nat * jsstring) :=
  combine (seq i (length domains)) domains.

Section Outcomes.
Variable spawn : nat -> spawner.
Variable cfg : config.
Variable p : provider.

Definition outcome (d : nat * jsstring) : settled :=
  whoisLookup (spawn (fst d)) (fqdn_of cfg (snd d)) p.

Definition classified (d : nat * jsstring) : bool :=
  match outcome d with Resolved _ => true | _ => false end.

Definition found_available (d : nat * jsstring) : bool :=
  match outcome d with Resolved r => available r | _ => false end.

Definition found_taken (d : nat * jsstring) : bool :=
  match outcome d with Resolved r => negb (available r) | _ => false end.
End Outcomes.

(** The events of a candidate before its verdict: the delay, when there
    is one, and the lookup. *)
Definition asked (cfg : config) (p : provider) (st : state) (domain : jsstring)
  : list event :=
  (if (0 <? checked st)%nat then [EDelay (intervalMs cfg)] else [])
    ++ [ELookup (host p) (fqdn_of cfg domain)].

(** The child processes of a run in which call [n] never happened. *)
Definition without_call (n : nat) (spawn : nat -> spawner) : nat -> spawner :=
  fun k => if (k <? n)%nat then spawn k else spawn (S k).

(** The top-level domain [readConfig] takes from [parsed]. *)
Definition chosen_tld (ToString : value -> jsstring) (p : parsed) : jsstring :=
  toLowerCase (String_ ToString (nullish (p_topLevelDomain p) (VString (js "de")))).



(** ** A small run to evaluate: three letters, [ab] fixed, [.de] *)

Definition three_letters : config_file :=
  Parsed (mkParsed (VNumber (of_Z 3)) (VString (js "ab"))
                   VUndefined VUndefined VUndefined).


(** Conversions for runs whose configuration needs none. *)
Definition no_number : value -> number := fun _ => NaN.
Definition no_string : value -> jsstring := fun _ => js "[object Object]".

(** [whois] cannot be started for the first candidate; every later
    candidate is registered. *)
Definition first_spawn_fails : nat -> spawner :=
  fun i _ _ =>
    match i with
    | O => SpawnFailed (Error (js "spawn whois ENOENT"))
    | S _ => Closed (Some 0%Z) (js "Status: connect") []
    end.

(** The second candidate is free, the third lookup exits with an error,
    the others are registered. *)
Definition mixed_answers : nat -> spawner :=
  fun i _ _ =>
    match i with
    | 1%nat => Closed (Some 0%Z) (js "Status: free") []
    | 2%nat => Closed (Some 1%Z) [] (js "connect: Network is unreachable")
    | _ => Closed (Some 0%Z) (js "Status: connect") []
    end.

End Runs.

(* ================================================================== *)
(** * The pattern of [validateAffix] *)
(* ================================================================== *)

(** [validateAffix] tests its argument with [/^$|^[a-z]+$/].  The
    embedding of [validateAffix] reads the pattern as "lower-case a-z from
    start to end"; here the pattern itself is run by the backtracking
    matcher of the language, for [AffixProofs] to compare the two. *)
Module Affix.
Import JS.

Inductive term : Type :=
| AssertBegin                (* ^  (no m flag: the start of the input) *)
| AssertEnd                  (* $  (no m flag: the end of the input) *)
| ClassPlus (lo hi : N).     (* [lo-hi]+ , greedy *)

(** An alternative is a sequence of terms, a pattern a list of
    alternatives separated by [|]. *)
Definition alternative : Type := list term.
Definition pattern : Type := list alternative.

(** Greedy [[lo-hi]*]: one more character first, the continuation from
    here when that fails. *)
Fixpoint class_star (lo hi : N) (k : jsstring -> bool) (s : jsstring) : bool :=
  match s with
  | c :: s' =>
      if between lo hi c then
        if class_star lo hi k s' then true else k s
      else k s
  | [] => k []
  end.

(** [at_begin] tells whether the matcher stands at index 0. *)
Fixpoint match_terms (ts : alternative) (at_begin : bool) (s : jsstring) : bool :=
  match ts with
  | [] => true
  | AssertBegin :: ts' => if at_begin then match_terms ts' at_begin s else false
  | AssertEnd :: ts' =>
      match s with
      | [] => match_terms ts' at_begin s
      | _ :: _ => false
      end
  | ClassPlus lo hi :: ts' =>
      match s with
      | c :: s' =>
          if between lo hi c then class_star lo hi (match_terms ts' false) s'
          else false
      | [] => false
      end
  end.

(** The alternatives are tried from left to right. *)
Definition match_pattern (p : pattern) (at_begin : bool) (s : jsstring) : bool :=
  existsb (fun alt => match_terms alt at_begin s) p.

(** The search for a match: index 0 first, then one code unit further
    after each failure, the end of the input included. *)
Fixpoint search (p : pattern) (at_begin : bool) (s : jsstring) : bool :=
  if match_pattern p at_begin s then true
  else
    match s with
    | [] => false
    | _ :: s' => search p false s'
    end.

(** [RegExp.prototype.test] *)
Definition test (p : pattern) (s : jsstring) : bool := search p true s.

(** [/^$|^[a-z]+$/] *)
Definition affix_pattern : pattern :=
  [[AssertBegin; AssertEnd]; [AssertBegin; ClassPlus 97 122; AssertEnd]].

End Affix.

(* ================================================================== *)
(** * The report: [formatDuration], the list of available names *)
(* ================================================================== *)

Module Report.
Import JS Runner.

(** [Number.MAX_SAFE_INTEGER], 2^53 - 1: up to it every whole number is a
    double of its own, and the arithmetic of the source on whole numbers
    is exact. *)
Definition MAX_SAFE_INTEGER : Z := 9007199254740991.

(** [String(n)] for an integer [n] below 10^21 in absolute value: its
    decimal digits.  From 10^21 on the language prints an exponent, which
    is not modelled; the statements about [formatDuration] keep [ms]
    within the safe integers, where the hours are below 10^10. *)
Definition toString (z : Z) : jsstring :=
  js (DecimalString.NilZero.string_of_int (Z.to_int z)).

(** [String.prototype.padStart]: [fill] is repeated, and cut, to bring
    [s] to [targetLength]. *)
Definition padStart (targetLength : nat) (fill : jsstring) (s : jsstring)
  : jsstring :=
  if (targetLength <=? length s)%nat then s
  else
    match fill with
    | [] => s
    | _ :: _ =>
        firstn (targetLength - length s)
               (concat (repeat fill (targetLength - length s))) ++ s
    end.

(** [formatDuration(ms)], for a whole number of milliseconds up to
    [MAX_SAFE_INTEGER] in absolute value, as a difference of two
    [Date.now()] is.  There the doubles of the source compute what is
    written here: [Math.floor(a / b)] is the floor division of [Z] (a
    quotient [ms / 1000] that is no whole number lies at least 1/1000 below
    the next one, which is more than half the step, at most 2^-9, of the
    doubles below 2^44, so rounding the quotient to a double does not
    reach the next whole number; the other two divisions have smaller
    operands), and [%] on whole numbers is exact and is the truncated
    remainder of [Z].  Beyond the safe integers the source rounds and
    the embedding does not follow it: the statements about
    [formatDuration] are made within them. *)
Definition formatDuration (ms : Z) : jsstring :=
  let totalSeconds := (ms / 1000)%Z in
  let hours := (totalSeconds / 3600)%Z in
  let minutes := (Z.rem totalSeconds 3600 / 60)%Z in
  let seconds := Z.rem totalSeconds 60 in
  let parts :=
    (padStart 2 (js "0") (toString hours),
     padStart 2 (js "0") (toString minutes),
     padStart 2 (js "0") (toString seconds)) in
  fst (fst parts) ++ js "h " ++ snd (fst parts) ++ js "m " ++ snd parts ++ js "s".

(** [Array.prototype.join] on an array of strings. *)
Fixpoint join (sep : jsstring) (l : list jsstring) : jsstring :=
  match l with
  | [] => []
  | [x] => x
  | x :: rest => x ++ sep ++ join sep rest
  end.

(** [availableList] at the end of [run]. *)
Definition availableList (st : state) : jsstring :=
  let availableCount := length (availableDomains st) in
  match availableCount with
  | O => js "None"
  | S _ => join (js ", ") (availableDomains st)
  end.

End Report.

(* ================================================================== *)
(** * Regular expression objects and their state *)
(* ================================================================== *)

(** A regular expression of the language is an object: besides its pattern
    and its flags it has the property [lastIndex], which a match reads and
    writes when the flag [g] or [y] is set.  [JS.exec] is the matcher for
    an expression without these flags.  Here the objects are modelled with
    their state, and the classifiers of [getWhoisProvider] as the
    computations on that state the source makes them: each evaluates its
    regular expression literal, which creates an object, and matches the
    text with it. *)
Module RegExpObjects.
Import JS.

Record RegExpObject : Type := mkRegExpObject {
  regexp : RegExp;       (* the pattern and the flag i *)
  global : bool;         (* the flag g *)
  sticky : bool;         (* the flag y *)
  lastIndex : nat
}.

(** The regular expression objects there are, by address. *)
Definition heap : Type := list RegExpObject.

(** A computation that reads and writes the objects. *)
Definition M (A : Type) : Type := heap -> A * heap.

Definition ret {A : Type} (a : A) : M A := fun h => (a, h).

Definition and_then {A B : Type} (m : M A) (k : A -> M B) : M B :=
  fun h => let (a, h') := m h in k a h'.

(** Evaluating a regular expression literal creates a new object each
    time, with [lastIndex] 0. *)
Definition RegExpLiteral (r : RegExp) (g y : bool) : M nat :=
  fun h => (length h, h ++ [mkRegExpObject r g y 0]).

(** [R.lastIndex = i] *)
Fixpoint set_lastIndex (R : nat) (i : nat) (h : heap) : heap :=
  match h, R with
  | [], _ => []
  | o :: h', O => mkRegExpObject (regexp o) (global o) (sticky o) i :: h'
  | o :: h', S R' => o :: set_lastIndex R' i h'
  end.

Definition get_lastIndex (R : nat) (h : heap) : nat :=
  match nth_error h R with
  | Some o => lastIndex o
  | None => 0
  end.

(** [match_nodes] of [JS], giving also what follows the match. *)
Fixpoint match_rest (ic : bool) (p : list node) (cap : option jsstring)
         (s : jsstring) : option (MatchResult * jsstring) :=
  match p with
  | [] => Some (mkMatch cap, s)
  | One a :: p' =>
      match s with
      | c :: s' => if atom_matches ic a c then match_rest ic p' cap s' else None
      | [] => None
      end
  | Star a :: p' => star ic a (match_rest ic p' cap) s
  | GroupPlus a :: p' =>
      group_plus ic a (fun w rest => match_rest ic p' (Some w) rest) s
  end.

(** An array of strings; [None] is an element that is [undefined]. *)
Definition array : Type := list (option jsstring).

(** [a[1]] *)
Definition at1 (a : array) : option jsstring :=
  match a with
  | _ :: x :: _ => x
  | _ => None
  end.

Definition has_group (p : list node) : bool :=
  existsb (fun n => match n with GroupPlus _ => true | _ => false end) p.

(** The array of a successful match: the matched text, then the capture
    of the group when the pattern has one. *)
Definition match_array (r : RegExp) (matched : jsstring) (m : MatchResult)
  : array :=
  Some matched :: (if has_group (source r) then [group1 m] else []).

(** The attempts of RegExpBuiltinExec from index [i] on, [s] being the
    input from there: the index of the match, its result, and the index
    of its end.  With [y] there is the one attempt at [i]; without it the
    search moves one code unit to the right after each failed attempt, the
    end of the input included.  (The patterns have no assertion that looks
    at what stands before the match, so an attempt at an index is an
    attempt on the input from that index.) *)
Fixpoint scan (r : RegExp) (y : bool) (s : jsstring) (i : nat)
  : option (nat * MatchResult * nat) :=
  match match_rest (ignoreCase r) (source r) None s with
  | Some (m, rest) => Some (i, m, (i + (length s - length rest))%nat)
  | None =>
      if y then None
      else
        match s with
        | [] => None
        | _ :: s' => scan r y s' (S i)
        end
  end.

(** RegExpBuiltinExec(R, input).  With [g] or [y] the search starts at
    [R.lastIndex], and [R.lastIndex] becomes the end of the match, or 0
    after a failure; without them it starts at 0 and [lastIndex] is
    neither read nor written.  (The program gives [R] the address of an
    object; for another number the answer is [null].) *)
Definition RegExpBuiltinExec (R : nat) (input : jsstring) : M (option array) :=
  fun h =>
    match nth_error h R with
    | None => (None, h)
    | Some o =>
        let stateful := global o || sticky o in
        let start := if stateful then lastIndex o else 0%nat in
        let found :=
          if (length input <? start)%nat then None
          else scan (regexp o) (sticky o) (skipn start input) start in
        match found with
        | None => (None, if stateful then set_lastIndex R 0 h else h)
        | Some (i, m, e) =>
            (Some (match_array (regexp o) (firstn (e - i) (skipn i input)) m),
             if stateful then set_lastIndex R e h else h)
        end
    end.

(** [RegExp.prototype.test] *)
Definition RegExp_test (R : nat) (input : jsstring) : M bool :=
  and_then (RegExpBuiltinExec R input)
           (fun result =>
              ret (match result with Some _ => true | None => false end)).

(** The loop of [RegExp.prototype[Symbol.match]] for an expression with
    [g]: every match from [lastIndex] on is collected in [A]; after an
    empty match [lastIndex] is moved one code unit to the right.  [rounds]
    bounds the number of turns; each turn moves [lastIndex] to the right,
    so the length of the input and two more are enough. *)
Fixpoint match_all (rounds : nat) (R : nat) (input : jsstring)
         (A : list jsstring) : M (option array) :=
  fun h =>
    match rounds with
    | O => (None, h)
    | S rounds' =>
        match RegExpBuiltinExec R input h with
        | (None, h') =>
            (match A with [] => None | _ :: _ => Some (List.map Some A) end,
             h')
        | (Some result, h') =>
            let matchStr :=
              match result with Some m :: _ => m | _ => [] end in
            let h'' :=
              match matchStr with
              | [] => set_lastIndex R (S (get_lastIndex R h')) h'
              | _ :: _ => h'
              end in
            match_all rounds' R input (A ++ [matchStr]) h''
        end
    end.

(** [String.prototype.match] with a regular expression: without [g] the
    result of RegExpBuiltinExec, with [g] the array of all matches. *)
Definition String_match (input : jsstring) (R : nat) : M (option array) :=
  fun h =>
    match nth_error h R with
    | None => (None, h)
    | Some o =>
        if global o then
          match_all (2 + length input) R input [] (set_lastIndex R 0 h)
        else RegExpBuiltinExec R input h
    end.

(** ** The classifiers, as the source has them *)

Record provider : Type := mkProvider {
  host : jsstring;
  isAvailable : jsstring -> M (result bool)
}.

Definition de_isAvailable (output : jsstring) : M (result bool) :=
  and_then (RegExpLiteral Whois.status_regexp false false) (fun rx =>
  and_then (String_match output rx) (fun statusMatch =>
  ret (match statusMatch with
       | Some a =>
           match at1 a with
           | Some g => Ok (str_eqb (toLowerCase g) (js "free"))
           | None => Throw Whois.undefined_toLowerCase
           end
       | None => Ok false
       end))).

Definition verisign_isAvailable (output : jsstring) : M (result bool) :=
  and_then (RegExpLiteral Whois.no_match_regexp false false) (fun rx =>
  and_then (RegExp_test rx output) (fun found =>
  ret (Ok found))).

Definition eu_isAvailable (output : jsstring) : M (result bool) :=
  and_then (RegExpLiteral Whois.status_regexp false false) (fun rx =>
  and_then (String_match output rx) (fun statusMatch =>
  ret (match statusMatch with
       | Some a =>
           match at1 a with
           | Some g => Ok (str_eqb (toLowerCase g) (js "available"))
           | None => Throw Whois.undefined_toLowerCase
           end
       | None => Ok false
       end))).

Definition getWhoisProvider (tld : jsstring) : result provider :=
  if str_eqb tld (js "de") then
    Ok (mkProvider (js "whois.denic.de") de_isAvailable)
  else if str_eqb tld (js "net") || str_eqb tld (js "com") then
    Ok (mkProvider (js "whois.verisign-grs.com") verisign_isAvailable)
  else if str_eqb tld (js "eu") then
    Ok (mkProvider (js "whois.eu") eu_isAvailable)
  else Throw (Error (js "Unsupported TLD: " ++ tld)).

(** An expression with [g] that is shared between calls, as it would be
    were it created once outside the classifier. *)
Definition shared_global : heap :=
  [mkRegExpObject Whois.no_match_regexp true false 0].

End RegExpObjects.

(* ================================================================== *)
(** * The generator on a call stack of bounded depth *)
(* ================================================================== *)

(** [Generator] gives what a generator yields when it comes to its end.
    Here is, besides, what it has yielded when it does not: the recursion
    of [build] nests one call in the other, and a call that would exceed
    the depth of the call stack throws a RangeError, which ends the
    generator. *)
Module StackDepth.
Import JS Generator.

(** How a generator ends. *)
Inductive ending : Type :=
| Returned
| RangeError.      (* Maximum call stack size exceeded *)

(** The values a generator has yielded, in order, and how it ended. *)
Definition ran (A : Type) : Type := (list A * ending)%type.

(** Generators run one after the other, as by a loop of [yield*]: the
    first that throws ends the loop. *)
Fixpoint yield_each {A : Type} (gens : list (ran A)) : ran A :=
  match gens with
  | [] => ([], Returned)
  | (l, Returned) :: gs => let (r, e) := yield_each gs in (l ++ r, e)
  | (l, RangeError) :: _ => (l, RangeError)
  end.

(** [build(current)] with room for [depth] more nested calls. *)
Fixpoint build (fillCount : Z) (depth : nat) (current : jsstring)
  : ran jsstring :=
  if (Z.of_nat (length current) =? fillCount)%Z then ([current], Returned)
  else
    match depth with
    | O => ([], RangeError)
    | S depth' =>
        yield_each
          (List.map (fun letter => build fillCount depth' (current ++ [letter]))
                    ALPHABET)
    end.

Definition domainGenerator (depth : nat) (length_ : Z) (prefix suffix : jsstring)
  : ran jsstring :=
  let fillCount :=
    (length_ - Z.of_nat (length prefix) - Z.of_nat (length suffix))%Z in
  if (fillCount =? 0)%Z then ([prefix ++ suffix], Returned)
  else
    let (middles, e) := build fillCount depth [] in
    (List.map (fun middle => prefix ++ middle ++ suffix) middles, e).

End StackDepth.

(* ================================================================== *)
(** * Reference notions on traces and printed values *)
(* ================================================================== *)

Module Traces.
Import JS Config Whois Runner Runs.

(** The lookups of a trace, as host and name, in order. *)
Definition lookups (tr : list event) : list (jsstring * jsstring) :=
  flat_map (fun e => match e with ELookup h f => [(h, f)] | _ => [] end) tr.

(** The delays of a trace. *)
Definition delays (tr : list event) : list number :=
  flat_map (fun e => match e with EDelay ms => [ms] | _ => [] end) tr.

(** The names reported AVAILABLE, TAKEN, and with an error. *)
Definition reported_available (tr : list event) : list jsstring :=
  flat_map (fun e => match e with EAvailable f => [f] | _ => [] end) tr.

Definition reported_taken (tr : list event) : list jsstring :=
  flat_map (fun e => match e with ETaken f => [f] | _ => [] end) tr.

Definition reported_errors (tr : list event) : list jsstring :=
  flat_map (fun e => match e with EError f _ => [f] | _ => [] end) tr.

(** What the loop prints for a candidate whose lookup has settled. *)
Definition report (fqdn : jsstring) (s : settled) : list event :=
  match s with
  | Resolved r => [if available r then EAvailable fqdn else ETaken fqdn]
  | Rejected err => [EError fqdn (message err)]
  | Uncaught _ => []
  end.

Section Paced.
Variable spawn : nat -> spawner.
Variable cfg : config.
Variable p : provider.

(** The events of the candidates [ds], one candidate after the other:
    its lookup and its report, and before the lookup a call of
    [delay(intervalMs)] when one of the candidates [earlier], which were
    dispatched before it, has been classified. *)
Fixpoint paced (earlier ds : list (nat * jsstring)) : list event :=
  match ds with
  | [] => []
  | d :: rest =>
      (if existsb (classified spawn cfg p) earlier
       then [EDelay (intervalMs cfg)] else [])
        ++ [ELookup (host p) (fqdn_of cfg (snd d))]
        ++ report (fqdn_of cfg (snd d)) (outcome spawn cfg p d)
        ++ paced (earlier ++ [d]) rest
  end.
End Paced.

(** The letters a-z of a text in capitals. *)
Definition fold_case (s : jsstring) : jsstring := List.map canonicalize s.

(** A property that is not there, or is [null]. *)
Definition absent (v : value) : Prop := v = VUndefined \/ v = VNull.

(** The message of [readConfig] for a bad [length]. *)
Definition length_message : jsstring :=
  quote ++ js "length" ++ quote ++ js " must be an integer between 2 and 63.".

(** The number [n] is the integer [z]. *)
Definition is_integer (n : number) (z : Z) : Prop :=
  exists q, n = Fin q /\ (q == inject_Z z)%Q.

(** What comes after the first element that satisfies [ok]. *)
Fixpoint after_first {A} (ok : A -> bool) (l : list A) : list A :=
  match l with
  | [] => []
  | x :: rest => if ok x then rest else after_first ok rest
  end.

(** A label as the configuration describes it. *)
Definition label_of (cfg : config) (label : jsstring) : Prop :=
  Z.of_nat (length label) = domainLength cfg
  /\ Forall (fun c => is_lower_az c = true) label
  /\ (exists middle, label = prefix cfg ++ middle ++ suffix cfg).

(** No white space at either end. *)
Definition trimmed (s : jsstring) : Prop :=
  match s with
  | [] => True
  | c :: _ => is_space c = false /\ is_space (last s c) = false
  end.

(** ** Reading a printed duration back *)

Definition is_digit (c : N) : bool := between 48 57 c.

Definition unjs (s : jsstring) : String.string :=
  string_of_list_ascii (List.map ascii_of_N s).

(** The number [i] written with [k] digits in base 26, the digits being
    the letters a to z. *)
Fixpoint numeral (k : nat) (i : nat) : jsstring :=
  match k with
  | O => []
  | S k' => N.of_nat (97 + i / 26 ^ k') :: numeral k' (i mod 26 ^ k')
  end.

(** A number below 100 in two decimal digits. *)
Definition two_digits (n : Z) : jsstring :=
  [Z.to_N (48 + n / 10); Z.to_N (48 + n mod 10)].

(** No comma in the string. *)
Definition comma_free (s : jsstring) : Prop := ~ In 44%N s.

(** The number a string of decimal digits stands for, leading zeros
    allowed. *)
Definition read_number (s : jsstring) : option N :=
  option_map N.of_uint (DecimalString.NilZero.uint_of_string (unjs s)).

(** [s] cut at the first [c]. *)
Fixpoint split_at (c : N) (s : jsstring) : option (jsstring * jsstring) :=
  match s with
  | [] => None
  | x :: s' =>
      if (x =? c)%N then Some ([], s')
      else
        match split_at c s' with
        | Some (a, b) => Some (x :: a, b)
        | None => None
        end
  end.

(** The seconds of a text [<h>h <m>m <s>s]. *)
Definition read_duration (s : jsstring) : option N :=
  match split_at 104 s with
  | Some (hh, 32%N :: r1) =>
      match split_at 109 r1 with
      | Some (mm, 32%N :: r2) =>
          match split_at 115 r2 with
          | Some (ss, []) =>
              match read_number hh, read_number mm, read_number ss with
              | Some h, Some m, Some sec => Some (h * 3600 + m * 60 + sec)%N
              | _, _, _ => None
              end
          | _ => None
          end
      | _ => None
      end
  | _ => None
  end.

End Traces.

(* ================================================================== *)
(** * Properties of the generator *)
(* ================================================================== *)

Module GeneratorProofs.
Import JS Generator.

Lemma yield_all_map {A B} (f : A -> option (list B)) (g : A -> list B) (l : list A) :
  (forall x, In x l -> f x = Some (g x)) ->
  yield_all (List.map f l) = Some (flat_map g l).
Proof.
  induction l as [|x l IH]; intros H; simpl.
  - reflexivity.
  - rewrite (H x (or_introl eq_refl)), IH; [reflexivity|].
    intros y Hy. apply H. now right.
Qed.

Lemma yield_all_none {A B} (f : A -> option (list B)) (x : A) (l : list A) :
  f x = None -> yield_all (List.map f (x :: l)) = None.
Proof. intros H. simpl. now rewrite H. Qed.

Lemma build_unfold (fillCount : Z) (fuel : nat) (current : jsstring) :
  build fillCount fuel current =
  if (Z.of_nat (length current) =? fillCount)%Z then Some [current]
  else match fuel with
       | O => None
       | S fuel' =>
           yield_all
             (List.map (fun letter => build fillCount fuel' (current ++ [letter]))
                       ALPHABET)
       end.
Proof. destruct fuel; reflexivity. Qed.

Lemma flat_map_prepend (current : jsstring) (ws : list jsstring) (sub : jsstring) :
  flat_map (fun letter => List.map (app (current ++ [letter])) ws) sub =
  List.map (app current) (flat_map (fun c => List.map (cons c) ws) sub).
Proof.
  induction sub as [|c sub IH]; simpl; [reflexivity|].
  rewrite IH, map_app, map_map. f_equal.
  apply map_ext. intros w. now rewrite <- app_assoc.
Qed.

(** [build] yields [current] followed by every word of the missing
    length, as soon as the fuel covers that length. *)
Lemma build_words (fillCount : Z) (k : nat) :
  forall (fuel : nat) (current : jsstring),
    fillCount = Z.of_nat (length current + k) ->
    (k <= fuel)%nat ->
    build fillCount fuel current =
    Some (List.map (app current) (words ALPHABET k)).
Proof.
  induction k as [|k IH]; intros fuel current Hfill Hfuel;
    rewrite build_unfold.
  - replace (Z.of_nat (length current) =? fillCount)%Z with true
      by (symmetry; apply Z.eqb_eq; lia).
    simpl. now rewrite app_nil_r.
  - replace (Z.of_nat (length current) =? fillCount)%Z with false
      by (symmetry; apply Z.eqb_neq; lia).
    destruct fuel as [|fuel]; [lia|].
    rewrite yield_all_map
      with (g := fun letter => List.map (app (current ++ [letter])) (words ALPHABET k)).
    + now rewrite flat_map_prepend.
    + intros letter _. apply IH; [|lia].
      rewrite length_app. simpl. lia.
Qed.

(** Below the wanted length nothing stops the recursion of [build]. *)
Lemma build_diverges (fillCount : Z) :
  forall (fuel : nat) (current : jsstring),
    (fillCount < Z.of_nat (length current))%Z ->
    build fillCount fuel current = None.
Proof.
  induction fuel as [|fuel IH]; intros current H; rewrite build_unfold;
    replace (Z.of_nat (length current) =? fillCount)%Z with false
      by (symmetry; apply Z.eqb_neq; lia).
  - reflexivity.
  - unfold ALPHABET. simpl js. apply yield_all_none.
    apply IH. rewrite length_app. simpl. lia.
Qed.

Lemma blocks_length (ws : list jsstring) (sub : jsstring) :
  length (flat_map (fun c => List.map (cons c) ws) sub) =
  (length sub * length ws)%nat.
Proof.
  induction sub as [|c sub IH]; simpl; [reflexivity|].
  now rewrite length_app, length_map, IH.
Qed.

(** Under the invariant the generator yields the candidates of all
    words of the missing length. *)
Lemma domainGenerator_words (len : Z) (prefix suffix : jsstring) (fuel : nat) :
  (Z.of_nat (length prefix) + Z.of_nat (length suffix) < len)%Z ->
  (Z.to_nat (len - Z.of_nat (length prefix) - Z.of_nat (length suffix)) <= fuel)%nat ->
  domainGenerator fuel len prefix suffix =
  Some (List.map (fun middle => prefix ++ middle ++ suffix)
                 (words ALPHABET
                    (Z.to_nat (len - Z.of_nat (length prefix)
                               - Z.of_nat (length suffix))))).
Proof.
  intros Hinv Hfuel. unfold domainGenerator.
  replace (_ =? 0)%Z with false by (symmetry; apply Z.eqb_neq; lia).
  rewrite (build_words _ (Z.to_nat (len - Z.of_nat (length prefix)
                                    - Z.of_nat (length suffix))))
    by (simpl; lia).
  now rewrite map_map.
Qed.

Section Words.
Variable alphabet : jsstring.

Lemma words_length (n : nat) :
  length (words alphabet n) = (length alphabet ^ n)%nat.
Proof.
  induction n as [|n IH]; simpl; [reflexivity|].
  now rewrite blocks_length, IH.
Qed.

Lemma words_in (n : nat) (w : jsstring) :
  In w (words alphabet n) <->
  length w = n /\ Forall (fun c => In c alphabet) w.
Proof.
  revert w. induction n as [|n IH]; intros w; simpl.
  - split.
    + intros [<-|[]]. split; [reflexivity|constructor].
    + intros [Hl _]. destruct w; [now left|discriminate].
  - rewrite in_flat_map. split.
    + intros (c & Hc & Hw). apply in_map_iff in Hw.
      destruct Hw as (w' & <- & Hw'). apply IH in Hw'.
      destruct Hw' as [Hl Hf]. split; [simpl; now rewrite Hl|].
      now constructor.
    + intros [Hl Hf]. destruct w as [|c w']; [discriminate|].
      inversion Hf; subst. exists c. split; [assumption|].
      apply in_map. apply IH. split; [now injection Hl|assumption].
Qed.
End Words.

Lemma sorted_app (l1 l2 : list jsstring) :
  StronglySorted lex_lt l1 ->
  StronglySorted lex_lt l2 ->
  (forall x y, In x l1 -> In y l2 -> lex_lt x y) ->
  StronglySorted lex_lt (l1 ++ l2).
Proof.
  induction l1 as [|x l1 IH]; intros H1 H2 H12; simpl; [assumption|].
  inversion H1; subst. constructor.
  - apply IH; [assumption|assumption|].
    intros a b Ha Hb. apply H12; [now right|assumption].
  - apply Forall_app. split; [assumption|].
    apply Forall_forall. intros y Hy. apply H12; [now left|assumption].
Qed.

Lemma sorted_cons_letter (c : N) (ws : list jsstring) :
  StronglySorted lex_lt ws ->
  StronglySorted lex_lt (List.map (cons c) ws).
Proof.
  induction 1 as [|w ws Hs IH Hall]; simpl; constructor.
  - assumption.
  - apply Forall_forall. intros y Hy. apply in_map_iff in Hy.
    destruct Hy as (w' & <- & Hw'). apply lex_tail.
    rewrite Forall_forall in Hall. now apply Hall.
Qed.

Lemma sorted_blocks (ws : list jsstring) (sub : jsstring) :
  StronglySorted lex_lt ws ->
  StronglySorted N.lt sub ->
  StronglySorted lex_lt (flat_map (fun c => List.map (cons c) ws) sub).
Proof.
  intros Hws. induction 1 as [|c sub Hs IH Hall]; simpl; [constructor|].
  apply sorted_app.
  - now apply sorted_cons_letter.
  - assumption.
  - intros x y Hx Hy. apply in_map_iff in Hx. destruct Hx as (w & <- & _).
    apply in_flat_map in Hy. destruct Hy as (d & Hd & Hy).
    apply in_map_iff in Hy. destruct Hy as (w' & <- & _).
    apply lex_head. rewrite Forall_forall in Hall. now apply Hall.
Qed.

Lemma words_sorted (alphabet : jsstring) (n : nat) :
  StronglySorted N.lt alphabet ->
  StronglySorted lex_lt (words alphabet n).
Proof.
  intros Ha. induction n as [|n IH]; simpl.
  - repeat constructor.
  - now apply sorted_blocks.
Qed.

Lemma ALPHABET_sorted : StronglySorted N.lt ALPHABET.
Proof. unfold ALPHABET. simpl js. repeat constructor. Qed.

Lemma ALPHABET_length : length ALPHABET = 26%nat.
Proof. reflexivity. Qed.

(** The alphabet is a-z, the code units 97 to 122. *)
Lemma ALPHABET_az (c : N) : In c ALPHABET <-> is_lower_az c = true.
Proof.
  unfold is_lower_az, between. rewrite andb_true_iff, !N.leb_le.
  unfold ALPHABET. simpl. lia.
Qed.

End GeneratorProofs.

(* ================================================================== *)
(** * Properties of the matcher and of the classifiers *)
(* ================================================================== *)

Module ClassifierProofs.
Import JS Text Whois.

Lemma str_eqb_eq (a b : jsstring) : str_eqb a b = true <-> a = b.
Proof.
  revert b. induction a as [|x a IH]; intros [|y b]; simpl;
    try (split; [discriminate|discriminate]); [tauto|].
  rewrite andb_true_iff, N.eqb_eq, IH. split.
  - intros [-> ->]. reflexivity.
  - intros H. injection H as -> ->. tauto.
Qed.

Lemma str_eqb_neq (a b : jsstring) : a <> b -> str_eqb a b = false.
Proof.
  intros H. destruct (str_eqb a b) eqn:E; [|reflexivity].
  apply str_eqb_eq in E. contradiction.
Qed.

Lemma space_not_word (c : N) : is_space c = true -> is_word c = false.
Proof.
  unfold is_space, is_word, between. intros H.
  repeat rewrite orb_true_iff in H. repeat rewrite andb_true_iff in H.
  repeat rewrite N.leb_le in H. repeat rewrite N.eqb_eq in H.
  repeat rewrite orb_false_iff. repeat rewrite andb_false_iff.
  repeat rewrite N.leb_gt. rewrite N.eqb_neq. lia.
Qed.

Lemma word_not_space (c : N) : is_word c = true -> is_space c = false.
Proof.
  intros H. destruct (is_space c) eqn:E; [|reflexivity].
  apply space_not_word in E. congruence.
Qed.

(** ** The matcher on the patterns of the program *)

Lemma match_lit (p : jsstring) (q : list node) (cap : option jsstring) :
  forall s,
    match_nodes true (List.map (fun c => One (Chr c)) p ++ q) cap s =
    match strip_ci p s with
    | Some rest => match_nodes true q cap rest
    | None => None
    end.
Proof.
  induction p as [|x p IH]; intros s; simpl; [reflexivity|].
  destruct s as [|c s]; [reflexivity|].
  destruct (canonicalize x =? canonicalize c)%N; [apply IH|reflexivity].
Qed.

Lemma star_space_skip (R : Type) (k : jsstring -> option R) :
  (forall c s, is_space c = true -> k (c :: s) = None) ->
  forall s, star true Space k s = k (trimStart s).
Proof.
  intros Hk. induction s as [|c s IH]; simpl; [reflexivity|].
  destruct (is_space c) eqn:E; [|reflexivity].
  rewrite IH. destruct (k (trimStart s)); [reflexivity|].
  now apply Hk.
Qed.

Lemma star_cap_word (ic : bool) :
  forall s acc,
    star_cap ic Word acc (fun w _ => Some (mkMatch (Some w))) s =
    Some (mkMatch (Some (acc ++ take_while is_word s))).
Proof.
  induction s as [|c s IH]; intros acc; simpl.
  - now rewrite app_nil_r.
  - destruct (is_word c).
    + rewrite IH. now rewrite <- app_assoc.
    + now rewrite app_nil_r.
Qed.

Lemma match_status (s : jsstring) :
  match_nodes true (source status_regexp) None s =
  option_map (fun w => mkMatch (Some w)) (status_at s).
Proof.
  unfold status_regexp, source, lit, status_at.
  rewrite match_lit. destruct (strip_ci (js "Status:") s) as [rest|]; [|reflexivity].
  cbn [match_nodes]. rewrite star_space_skip.
  - destruct (trimStart rest) as [|c t]; [reflexivity|].
    cbn [group_plus atom_matches take_while].
    destruct (is_word c); [|reflexivity].
    now rewrite star_cap_word.
  - intros c t Hc. cbn [group_plus atom_matches].
    now rewrite (space_not_word c Hc).
Qed.

Lemma exec_unfold (r : RegExp) (s : jsstring) :
  exec r s =
  match match_nodes (ignoreCase r) (source r) None s with
  | Some m => Some m
  | None => match s with [] => None | _ :: s' => exec r s' end
  end.
Proof. destruct s; reflexivity. Qed.

Lemma exec_status (s : jsstring) :
  exec status_regexp s = option_map (fun w => mkMatch (Some w)) (first_status s).
Proof.
  induction s as [|c s IH]; rewrite exec_unfold;
    change (ignoreCase status_regexp) with true; rewrite match_status;
    cbn [first_status]; destruct (status_at _); try reflexivity.
  exact IH.
Qed.

Lemma test_no_match (s : jsstring) :
  test no_match_regexp s = contains_ci (js "no match") s.
Proof.
  unfold test.
  induction s as [|c s IH]; rewrite exec_unfold;
    change (ignoreCase no_match_regexp) with true;
    unfold no_match_regexp, source, lit;
    rewrite <- (app_nil_r (List.map _ _)), match_lit;
    cbn [contains_ci]; destruct (strip_ci _ _); try reflexivity.
  exact IH.
Qed.

(** The classifiers, by the reference notions. *)
Lemma de_isAvailable_eq (output : jsstring) :
  de_isAvailable output =
  Ok (match first_status output with
      | Some w => str_eqb (toLowerCase w) (js "free")
      | None => false
      end).
Proof.
  unfold de_isAvailable, str_match. rewrite exec_status.
  now destruct (first_status output).
Qed.

Lemma eu_isAvailable_eq (output : jsstring) :
  eu_isAvailable output =
  Ok (match first_status output with
      | Some w => str_eqb (toLowerCase w) (js "available")
      | None => false
      end).
Proof.
  unfold eu_isAvailable, str_match. rewrite exec_status.
  now destruct (first_status output).
Qed.

Lemma verisign_isAvailable_eq (output : jsstring) :
  verisign_isAvailable output = Ok (contains_ci (js "no match") output).
Proof. unfold verisign_isAvailable. now rewrite test_no_match. Qed.

(** ** The reference notions, by how the text is cut *)

Lemma strip_ci_some (p : jsstring) :
  forall s rest,
    strip_ci p s = Some rest <->
    exists found, s = found ++ rest /\ same_letters p found.
Proof.
  unfold same_letters.
  induction p as [|x p IH]; intros s rest; simpl.
  - split.
    + intros [= ->]. now exists [].
    + intros (found & -> & H). destruct found; [reflexivity|discriminate].
  - destruct s as [|c s].
    + split; [discriminate|].
      intros (found & H & Hl). destruct found; discriminate.
    + destruct (canonicalize x =? canonicalize c)%N eqn:E.
      * apply N.eqb_eq in E. rewrite IH. split.
        -- intros (found & -> & Hl). exists (c :: found). simpl.
           split; [reflexivity|congruence].
        -- intros (found & H & Hl). destruct found as [|c' found]; [discriminate|].
           simpl in H, Hl. injection H as -> ->. injection Hl as _ Hl.
           now exists found.
      * apply N.eqb_neq in E. split; [discriminate|].
        intros (found & H & Hl). destruct found as [|c' found]; [discriminate|].
        simpl in H, Hl. injection H as -> ->. injection Hl as Hc _.
        contradiction.
Qed.

Lemma strip_ci_none (p s : jsstring) :
  ~ occurs_at p s 0 -> strip_ci p s = None.
Proof.
  intros H. destruct (strip_ci p s) as [rest|] eqn:E; [|reflexivity].
  exfalso. apply H. apply strip_ci_some in E. destruct E as (found & -> & Hl).
  now exists [], found, rest.
Qed.

Lemma occurs_at_tail (p : jsstring) (c : N) (s : jsstring) (j : nat) :
  occurs_at p s j -> occurs_at p (c :: s) (S j).
Proof.
  intros (before & found & after & -> & <- & Hl).
  now exists (c :: before), found, after.
Qed.

Lemma occurs_at_inv (p : jsstring) (c : N) (s : jsstring) (j : nat) :
  occurs_at p (c :: s) (S j) -> occurs_at p s j.
Proof.
  intros (before & found & after & H & Hj & Hl).
  destruct before as [|b before]; [discriminate|].
  simpl in H, Hj. injection H as -> ->. injection Hj as <-.
  now exists before, found, after.
Qed.

Lemma contains_ci_unfold (p s : jsstring) :
  contains_ci p s =
  match strip_ci p s with
  | Some _ => true
  | None => match s with [] => false | _ :: s' => contains_ci p s' end
  end.
Proof. destruct s; reflexivity. Qed.

Lemma contains_ci_iff (p s : jsstring) :
  contains_ci p s = true <-> contains p s.
Proof.
  unfold contains. induction s as [|c s IH]; rewrite contains_ci_unfold;
    destruct (strip_ci p _) as [rest|] eqn:E.
  - split; [intros _|reflexivity].
    apply strip_ci_some in E. destruct E as (found & -> & Hl).
    now exists 0%nat, [], found, rest.
  - split; [discriminate|]. intros (i & before & found & after & H & Hi & Hl).
    destruct before; [|discriminate]. simpl in H.
    assert (strip_ci p [] = Some after) as E'
      by (apply strip_ci_some; now exists found).
    congruence.
  - split; [intros _|reflexivity].
    apply strip_ci_some in E. destruct E as (found & -> & Hl).
    now exists 0%nat, [], found, rest.
  - rewrite IH. split.
    + intros (i & H). exists (S i). now apply occurs_at_tail.
    + intros ([|i] & H).
      * destruct H as (before & found & after & H & Hi & Hl).
        destruct before; [|discriminate]. simpl in H.
        assert (strip_ci p (c :: s) = Some after) as E'
          by (apply strip_ci_some; now exists found).
        congruence.
      * exists i. now apply occurs_at_inv in H.
Qed.

Lemma first_status_unfold (s : jsstring) :
  first_status s =
  match status_at s with
  | Some w => Some w
  | None => match s with [] => None | _ :: s' => first_status s' end
  end.
Proof. destruct s; reflexivity. Qed.

Lemma status_at_none (s : jsstring) :
  strip_ci (js "Status:") s = None -> status_at s = None.
Proof. unfold status_at. now intros ->. Qed.

(** Without any [Status:] in the text there is no field. *)
Lemma first_status_absent (s : jsstring) :
  ~ contains (js "Status:") s -> first_status s = None.
Proof.
  induction s as [|c s IH]; intros H; rewrite first_status_unfold;
    rewrite status_at_none.
  - reflexivity.
  - apply strip_ci_none. intros Ho. apply H. now exists 0%nat.
  - apply IH. intros (i & Hi). apply H. exists (S i). now apply occurs_at_tail.
  - apply strip_ci_none. intros Ho. apply H. now exists 0%nat.
Qed.

(** What stands before the first [Status:] is passed over. *)
Lemma first_status_skip (tail : jsstring) :
  forall before,
    (forall j, occurs_at (js "Status:") (before ++ tail) j ->
               (length before <= j)%nat) ->
    first_status (before ++ tail) = first_status tail.
Proof.
  induction before as [|c before IH]; intros H; [reflexivity|].
  simpl app. rewrite first_status_unfold, status_at_none.
  - apply IH. intros j Hj. apply (occurs_at_tail _ c) in Hj.
    apply H in Hj. simpl in Hj. lia.
  - apply strip_ci_none. intros Ho. apply H in Ho. simpl in Ho. lia.
Qed.

Lemma trimStart_spaces (ws s : jsstring) :
  Forall (fun c => is_space c = true) ws ->
  trimStart (ws ++ s) = trimStart s.
Proof.
  induction 1 as [|c ws Hc _ IH]; [reflexivity|].
  simpl. now rewrite Hc.
Qed.

Lemma take_while_word (w rest : jsstring) :
  Forall (fun c => is_word c = true) w ->
  word_ends rest ->
  take_while is_word (w ++ rest) = w.
Proof.
  intros Hw Hr. induction Hw as [|c w Hc _ IH]; simpl.
  - destruct rest as [|c r]; [reflexivity|].
    simpl in Hr. simpl. now rewrite Hr.
  - now rewrite Hc, IH.
Qed.

(** A [Status:] at the head, white space, then a whole word: the word is
    the value of the field. *)
Lemma status_at_field (head ws w rest : jsstring) :
  same_letters (js "Status:") head ->
  Forall (fun c => is_space c = true) ws ->
  w <> [] ->
  Forall (fun c => is_word c = true) w ->
  word_ends rest ->
  status_at (head ++ ws ++ w ++ rest) = Some w.
Proof.
  intros Hh Hws Hne Hw Hr. unfold status_at.
  assert (strip_ci (js "Status:") (head ++ ws ++ w ++ rest)
          = Some (ws ++ w ++ rest)) as ->
    by (apply strip_ci_some; now exists head).
  rewrite trimStart_spaces by assumption.
  destruct w as [|c w]; [contradiction|].
  inversion Hw as [|? ? Hc Hw']; subst.
  simpl app at 1. simpl trimStart. rewrite (word_not_space c Hc).
  change (c :: w ++ rest) with ((c :: w) ++ rest).
  now rewrite take_while_word.
Qed.

(** The first field of a text cut at its first [Status:]. *)
Lemma first_status_field (before head ws w rest : jsstring) :
  (forall j, occurs_at (js "Status:") (before ++ head ++ ws ++ w ++ rest) j ->
             (length before <= j)%nat) ->
  same_letters (js "Status:") head ->
  Forall (fun c => is_space c = true) ws ->
  w <> [] ->
  Forall (fun c => is_word c = true) w ->
  word_ends rest ->
  first_status (before ++ head ++ ws ++ w ++ rest) = Some w.
Proof.
  intros Hfirst Hh Hws Hne Hw Hr.
  rewrite first_status_skip by assumption.
  rewrite first_status_unfold. now rewrite status_at_field.
Qed.

(** ** Fields, as positions in the text *)

Lemma trimStart_split (s : jsstring) :
  exists ws, s = ws ++ trimStart s /\ Forall (fun c => is_space c = true) ws.
Proof.
  induction s as [|c s (ws & Hs & Hws)]; simpl.
  - now exists [].
  - destruct (is_space c) eqn:E.
    + exists (c :: ws). split; [simpl; now f_equal|now constructor].
    + now exists [].
Qed.

Lemma take_while_split (s : jsstring) :
  exists rest,
    s = take_while is_word s ++ rest
    /\ Forall (fun c => is_word c = true) (take_while is_word s)
    /\ word_ends rest.
Proof.
  induction s as [|c s (rest & Hs & Hw & Hr)]; simpl.
  - now exists [].
  - destruct (is_word c) eqn:E.
    + exists rest. split; [simpl; now f_equal|]. split; [now constructor|assumption].
    + exists (c :: s). split; [reflexivity|]. split; [constructor|exact E].
Qed.

Lemma status_at_iff (s w : jsstring) :
  status_at s = Some w <-> field_at s 0 w.
Proof.
  split.
  - unfold status_at. destruct (strip_ci (js "Status:") s) as [rest|] eqn:E;
      [|discriminate].
    apply strip_ci_some in E. destruct E as (head & -> & Hh).
    destruct (trimStart_split rest) as (ws & Hrest & Hws).
    destruct (take_while_split (trimStart rest)) as (rest' & Ht & Hw & Hr).
    destruct (take_while is_word (trimStart rest)) as [|c t] eqn:Et;
      [discriminate|].
    intros [= <-]. exists [], head, ws, rest'.
    repeat split; try assumption; [|discriminate].
    now rewrite <- Ht, <- Hrest.
  - intros (before & head & ws & rest & -> & Hb & Hh & Hws & Hne & Hw & Hr).
    destruct before; [|discriminate].
    now apply (status_at_field head ws w rest).
Qed.

Lemma field_at_tail (c : N) (s : jsstring) (j : nat) (w : jsstring) :
  field_at (c :: s) (S j) w <-> field_at s j w.
Proof.
  split.
  - intros (before & head & ws & rest & H & Hb & Hrest).
    destruct before as [|b before]; [discriminate|].
    simpl in H, Hb. injection H as -> ->. injection Hb as <-.
    now exists before, head, ws, rest.
  - intros (before & head & ws & rest & -> & <- & Hrest).
    now exists (c :: before), head, ws, rest.
Qed.

Lemma field_at_nil (i : nat) (w : jsstring) :
  field_at [] i w -> i = 0%nat.
Proof.
  intros (before & head & ws & rest & H & <- & _).
  destruct before; [reflexivity|discriminate].
Qed.

(** [first_status] finds the value of the first field. *)
Lemma first_status_iff (s w : jsstring) :
  first_status s = Some w <-> first_field s w.
Proof.
  unfold first_field. revert w. induction s as [|c s IH]; intros w;
    rewrite first_status_unfold.
  - destruct (status_at []) as [w0|] eqn:E.
    + split.
      * intros [= <-]. exists 0%nat. split; [now apply status_at_iff|lia].
      * intros (i & Hi & _). pose proof (field_at_nil _ _ Hi). subst i.
        apply status_at_iff in Hi. congruence.
    + split; [discriminate|].
      intros (i & Hi & _). pose proof (field_at_nil _ _ Hi). subst i.
      apply status_at_iff in Hi. congruence.
  - destruct (status_at (c :: s)) as [w0|] eqn:E.
    + split.
      * intros [= <-]. exists 0%nat. split; [now apply status_at_iff|lia].
      * intros ([|i] & Hi & Hmin).
        -- apply status_at_iff in Hi. congruence.
        -- apply status_at_iff in E. apply Hmin in E. lia.
    + rewrite IH. split.
      * intros (i & Hi & Hmin). exists (S i). split; [now apply field_at_tail|].
        intros [|j] w' Hj.
        -- apply status_at_iff in Hj. congruence.
        -- apply field_at_tail in Hj. apply Hmin in Hj. lia.
      * intros ([|i] & Hi & Hmin).
        -- apply status_at_iff in Hi. congruence.
        -- exists i. split; [now apply field_at_tail in Hi|].
           intros j w' Hj. apply (field_at_tail c) in Hj. apply Hmin in Hj. lia.
Qed.

Lemma first_status_none_iff (s : jsstring) :
  first_status s = None <-> forall i w, ~ field_at s i w.
Proof.
  induction s as [|c s IH]; rewrite first_status_unfold.
  - destruct (status_at []) as [w0|] eqn:E.
    + split; [discriminate|]. intros H. apply status_at_iff in E.
      now apply H in E.
    + split; [|reflexivity]. intros _ i w Hi.
      pose proof (field_at_nil _ _ Hi). subst i.
      apply status_at_iff in Hi. congruence.
  - destruct (status_at (c :: s)) as [w0|] eqn:E.
    + split; [discriminate|]. intros H. apply status_at_iff in E.
      now apply H in E.
    + rewrite IH. split.
      * intros H [|i] w Hi.
        -- apply status_at_iff in Hi. congruence.
        -- apply field_at_tail in Hi. now apply H in Hi.
      * intros H i w Hi. apply (field_at_tail c) in Hi. now apply H in Hi.
Qed.

(** The verdict of a classifier that compares the first field with
    [word]. *)
Lemma first_field_verdict (word text : jsstring) :
  match first_status text with
  | Some w => str_eqb (toLowerCase w) word
  | None => false
  end = true <->
  exists w, first_field text w /\ toLowerCase w = word.
Proof.
  destruct (first_status text) as [w|] eqn:E.
  - rewrite str_eqb_eq. split.
    + intros H. exists w. split; [now apply first_status_iff|assumption].
    + intros (w' & Hw' & H). apply first_status_iff in Hw'. congruence.
  - split; [discriminate|].
    intros (w' & Hw' & _). apply first_status_iff in Hw'. congruence.
Qed.

Lemma provider_cases (tld : jsstring) (p : provider) :
  getWhoisProvider tld = Ok p ->
  isAvailable p = de_isAvailable
  \/ isAvailable p = verisign_isAvailable
  \/ isAvailable p = eu_isAvailable.
Proof.
  unfold getWhoisProvider.
  destruct (str_eqb tld (js "de")); [intros [= <-]; now left|].
  destruct (str_eqb tld (js "net") || str_eqb tld (js "com"));
    [intros [= <-]; right; now left|].
  destruct (str_eqb tld (js "eu")); [intros [= <-]; now right; right|].
  discriminate.
Qed.

(** No classifier of the program throws. *)
Lemma provider_total (tld : jsstring) (p : provider) :
  getWhoisProvider tld = Ok p ->
  forall text, exists verdict, isAvailable p text = Ok verdict.
Proof.
  intros H text. destruct (provider_cases _ _ H) as [-> | [-> | ->]].
  - rewrite de_isAvailable_eq. eauto.
  - rewrite verisign_isAvailable_eq. eauto.
  - rewrite eu_isAvailable_eq. eauto.
Qed.

End ClassifierProofs.

(* ================================================================== *)
(** * Properties of the regular expression objects *)
(* ================================================================== *)

Module RegExpObjectProofs.
Import JS ClassifierProofs RegExpObjects.

(** ** The matcher that also gives what follows the match *)

Section Continuations.
Context {A B : Type} (f : A -> B) (ic : bool) (a : atom).

Lemma star_map (k : jsstring -> option A) (k' : jsstring -> option B) :
  (forall s, option_map f (k s) = k' s) ->
  forall s, option_map f (star ic a k s) = star ic a k' s.
Proof.
  intros Hk. induction s as [|c s IH]; simpl; [apply Hk|].
  destruct (atom_matches ic a c); [|apply Hk].
  rewrite <- IH. destruct (star ic a k s); simpl; [reflexivity|apply Hk].
Qed.

Lemma star_cap_map (k : jsstring -> jsstring -> option A)
      (k' : jsstring -> jsstring -> option B) :
  (forall w s, option_map f (k w s) = k' w s) ->
  forall s acc, option_map f (star_cap ic a acc k s) = star_cap ic a acc k' s.
Proof.
  intros Hk. induction s as [|c s IH]; intros acc; simpl; [apply Hk|].
  destruct (atom_matches ic a c); [|apply Hk].
  rewrite <- IH. destruct (star_cap ic a (acc ++ [c]) k s); simpl;
    [reflexivity|apply Hk].
Qed.

Lemma group_plus_map (k : jsstring -> jsstring -> option A)
      (k' : jsstring -> jsstring -> option B) :
  (forall w s, option_map f (k w s) = k' w s) ->
  forall s, option_map f (group_plus ic a k s) = group_plus ic a k' s.
Proof.
  intros Hk [|c s]; simpl; [reflexivity|].
  destruct (atom_matches ic a c); [|reflexivity].
  now apply star_cap_map.
Qed.
End Continuations.

Lemma match_rest_nodes (ic : bool) (p : list node) :
  forall cap s,
    option_map fst (match_rest ic p cap s) = match_nodes ic p cap s.
Proof.
  induction p as [|n p IH]; intros cap s; [reflexivity|].
  destruct n as [a|a|a]; cbn [match_rest match_nodes].
  - destruct s as [|c s]; [reflexivity|].
    destruct (atom_matches ic a c); [apply IH|reflexivity].
  - apply star_map. intros s'. apply IH.
  - apply group_plus_map. intros w s'. apply IH.
Qed.

(** Without [y] the attempts of RegExpBuiltinExec from index 0 are the
    search of [JS.exec]. *)
Lemma scan_exec (r : RegExp) :
  forall s i, option_map (fun x => snd (fst x)) (scan r false s i) = exec r s.
Proof.
  induction s as [|c s IH]; intros i; rewrite exec_unfold;
    rewrite <- match_rest_nodes; cbn [scan];
    destruct (match_rest _ _ _ _) as [[m rest]|]; try reflexivity.
  apply IH.
Qed.

(** ** A match with an expression without [g] and [y] *)

(** Such a match reads no [lastIndex] and leaves every object as it
    was. *)
Lemma RegExpBuiltinExec_stateless (R : nat) (input : jsstring) (h : heap)
      (o : RegExpObject) :
  nth_error h R = Some o ->
  global o = false ->
  sticky o = false ->
  RegExpBuiltinExec R input h =
  (option_map
     (fun x => match_array (regexp o)
                           (firstn (snd x - fst (fst x))
                                   (skipn (fst (fst x)) input))
                           (snd (fst x)))
     (scan (regexp o) false input 0),
   h).
Proof.
  intros Ho Hg Hy. unfold RegExpBuiltinExec. rewrite Ho, Hg, Hy. simpl.
  now destruct (scan (regexp o) false input 0) as [[[i m] e]|].
Qed.

Lemma literal_lookup (h : heap) (o : RegExpObject) :
  nth_error (h ++ [o]) (length h) = Some o.
Proof. rewrite nth_error_app2 by lia. now rewrite Nat.sub_diag. Qed.

(** ** The classifiers on the objects *)

(** The verdict of a classifier is that of the classifier of [Whois],
    which knows of no objects; all it leaves behind is the object of its
    literal. *)
Lemma status_classifier_stateless (word output : jsstring) (h : heap) :
  and_then (RegExpLiteral Whois.status_regexp false false) (fun rx =>
  and_then (String_match output rx) (fun statusMatch =>
  ret (match statusMatch with
       | Some a =>
           match at1 a with
           | Some g => Ok (str_eqb (toLowerCase g) word)
           | None => Throw Whois.undefined_toLowerCase
           end
       | None => Ok false
       end))) h
  = (match str_match output Whois.status_regexp with
     | Some statusMatch =>
         match group1 statusMatch with
         | Some g => Ok (str_eqb (toLowerCase g) word)
         | None => Throw Whois.undefined_toLowerCase
         end
     | None => Ok false
     end,
     h ++ [mkRegExpObject Whois.status_regexp false false 0]).
Proof.
  unfold and_then, RegExpLiteral, String_match, ret.
  rewrite literal_lookup. cbn [global].
  rewrite (RegExpBuiltinExec_stateless
             _ _ _ (mkRegExpObject Whois.status_regexp false false 0)
             (literal_lookup h _) eq_refl eq_refl).
  cbn [regexp]. unfold str_match. rewrite <- (scan_exec _ _ 0).
  now destruct (scan Whois.status_regexp false output 0) as [[[i m] e]|].
Qed.

Lemma de_isAvailable_stateless (output : jsstring) (h : heap) :
  de_isAvailable output h
  = (Whois.de_isAvailable output,
     h ++ [mkRegExpObject Whois.status_regexp false false 0]).
Proof. apply status_classifier_stateless. Qed.

Lemma eu_isAvailable_stateless (output : jsstring) (h : heap) :
  eu_isAvailable output h
  = (Whois.eu_isAvailable output,
     h ++ [mkRegExpObject Whois.status_regexp false false 0]).
Proof. apply status_classifier_stateless. Qed.

Lemma verisign_isAvailable_stateless (output : jsstring) (h : heap) :
  verisign_isAvailable output h
  = (Whois.verisign_isAvailable output,
     h ++ [mkRegExpObject Whois.no_match_regexp false false 0]).
Proof.
  unfold verisign_isAvailable, RegExp_test, and_then, RegExpLiteral, ret.
  rewrite (RegExpBuiltinExec_stateless
             _ _ _ (mkRegExpObject Whois.no_match_regexp false false 0)
             (literal_lookup h _) eq_refl eq_refl).
  cbn [regexp]. unfold Whois.verisign_isAvailable, test.
  rewrite <- (scan_exec _ _ 0).
  now destruct (scan Whois.no_match_regexp false output 0) as [[[i m] e]|].
Qed.

(** Every provider of the program, with and without the objects. *)
Lemma provider_stateless (tld : jsstring) (p : provider) :
  getWhoisProvider tld = Ok p ->
  exists p0 o,
    Whois.getWhoisProvider tld = Ok p0
    /\ Whois.host p0 = host p
    /\ forall text h,
        isAvailable p text h = (Whois.isAvailable p0 text, h ++ [o]).
Proof.
  unfold getWhoisProvider, Whois.getWhoisProvider.
  destruct (str_eqb tld (js "de")).
  { intros [= <-]. eexists _, _. split; [reflexivity|]. split; [reflexivity|].
    intros text h. apply de_isAvailable_stateless. }
  destruct (str_eqb tld (js "net") || str_eqb tld (js "com")).
  { intros [= <-]. eexists _, _. split; [reflexivity|]. split; [reflexivity|].
    intros text h. apply verisign_isAvailable_stateless. }
  destruct (str_eqb tld (js "eu")); [|discriminate].
  intros [= <-]. eexists _, _. split; [reflexivity|]. split; [reflexivity|].
  intros text h. apply eu_isAvailable_stateless.
Qed.

(** The state is there to be seen: an expression with [g] that two calls
    share finds [no match] in a text and, asked again, does not. *)
Lemma shared_global_object_remembers :
  fst (RegExp_test 0 (js "no match") shared_global) = true
  /\ fst (RegExp_test 0 (js "no match")
                      (snd (RegExp_test 0 (js "no match") shared_global)))
     = false.
Proof. split; vm_compute; reflexivity. Qed.

End RegExpObjectProofs.

(* ================================================================== *)
(** * The generator: what it yields *)
(* ================================================================== *)

Module GeneratorSpec.
Import JS Generator GeneratorProofs.

(** Outside the configuration invariant, with more fixed letters than
    the label has room for, the generator never yields. *)
Lemma domainGenerator_diverges (len : Z) (prefix suffix : jsstring) (fuel : nat) :
  (len < Z.of_nat (length prefix) + Z.of_nat (length suffix))%Z ->
  domainGenerator fuel len prefix suffix = None.
Proof.
  intros H. unfold domainGenerator.
  replace (_ =? 0)%Z with false by (symmetry; apply Z.eqb_neq; lia).
  rewrite build_diverges; [reflexivity|simpl; lia].
Qed.

(** C1.  Under the invariant [len(prefix) + len(suffix) < domainLength] the
    generator yields, for [fillCount = domainLength - len(prefix) -
    len(suffix)], exactly [26^fillCount] candidates [prefix + middle +
    suffix]; the middles are the words of length [fillCount] over a-z, each
    of them once, in lexicographic order.  With [fillCount = 0] it yields
    the single candidate [prefix + suffix].  For length 4, prefix [gl] and
    empty suffix it yields 676 candidates, from [glaa] to [glzz]. *)
Theorem domainGenerator_yields :
  (forall (len : Z) (prefix suffix : jsstring),
      (Z.of_nat (length prefix) + Z.of_nat (length suffix) < len)%Z ->
      let fillCount :=
        Z.to_nat (len - Z.of_nat (length prefix) - Z.of_nat (length suffix)) in
      exists middles candidates : list jsstring,
        (forall fuel, (fillCount <= fuel)%nat ->
                      domainGenerator fuel len prefix suffix = Some candidates)
        /\ candidates = List.map (fun middle => prefix ++ middle ++ suffix) middles
        /\ length candidates = (26 ^ fillCount)%nat
        /\ (forall middle,
               In middle middles <->
               length middle = fillCount /\ Forall (fun c => In c ALPHABET) middle)
        /\ StronglySorted lex_lt middles)
  /\ (forall (len : Z) (prefix suffix : jsstring) (fuel : nat),
         (len - Z.of_nat (length prefix) - Z.of_nat (length suffix) = 0)%Z ->
         domainGenerator fuel len prefix suffix = Some [prefix ++ suffix])
  /\ (exists candidates,
         domainGenerator 2 4 (js "gl") (js "") = Some candidates
         /\ length candidates = 676%nat
         /\ hd_error candidates = Some (js "glaa")
         /\ last candidates [] = js "glzz").
Proof.
  split; [|split].
  - intros len prefix suffix Hinv fillCount.
    exists (words ALPHABET fillCount).
    exists (List.map (fun middle => prefix ++ middle ++ suffix)
                     (words ALPHABET fillCount)).
    split; [|split; [|split; [|split]]].
    + intros fuel Hfuel. now apply domainGenerator_words.
    + reflexivity.
    + now rewrite length_map, words_length, ALPHABET_length.
    + apply words_in.
    + apply words_sorted, ALPHABET_sorted.
  - intros len prefix suffix fuel H. unfold domainGenerator.
    now rewrite H.
  - eexists. split; [vm_compute; reflexivity|].
    split; [|split]; vm_compute; reflexivity.
Qed.

Lemma domainGenerator_yields_witness :
  exists candidates,
    domainGenerator 1 3 (js "a") (js "b") = Some candidates
    /\ length candidates = 26%nat.
Proof.
  destruct (proj1 domainGenerator_yields 3%Z (js "a") (js "b"))
    as (middles & candidates & Hgen & _ & Hlen & _).
  - vm_compute. reflexivity.
  - exists candidates. split.
    + apply Hgen. vm_compute. lia.
    + exact Hlen.
Defined.

End GeneratorSpec.

(* ================================================================== *)
(** * The classifiers: what they answer *)
(* ================================================================== *)

Module ClassifierSpec.
Import JS Text Whois ClassifierProofs RegExpObjectProofs.

(** The [de] classifier does not answer true on every text that holds
    [Status: free]: here the first field reads [connect]. *)
Lemma de_second_field_ignored :
  contains (js "Status: free") connect_then_free
  /\ de_isAvailable connect_then_free = Ok false.
Proof.
  split.
  - apply contains_ci_iff. vm_compute. reflexivity.
  - vm_compute. reflexivity.
Qed.

(** C3, as the code has it.  Each classifier returns a verdict and never
    throws.  The [de] classifier answers true exactly when the first
    [Status:] field of the text has the value [free] in any letter case,
    the [eu] classifier when it has the value [available]; a field is
    [Status:] (any letter case) followed by optional white space and a
    word, the first field is the leftmost one, and its value is that whole
    word.  The [com]/[net] classifier answers true exactly when the text
    holds [no match] in any letter case.  A text without [Status:],
    respectively without [no match], is answered false. *)
Theorem classifiers_by_first_field :
  (forall text,
      exists verdict,
        de_isAvailable text = Ok verdict
        /\ (verdict = true <->
            exists w, first_field text w /\ toLowerCase w = js "free"))
  /\ (forall text,
         exists verdict,
           eu_isAvailable text = Ok verdict
           /\ (verdict = true <->
               exists w, first_field text w /\ toLowerCase w = js "available"))
  /\ (forall text,
         exists verdict,
           verisign_isAvailable text = Ok verdict
           /\ (verdict = true <-> contains (js "no match") text))
  /\ (forall text,
         ~ contains (js "Status:") text ->
         de_isAvailable text = Ok false /\ eu_isAvailable text = Ok false)
  /\ (forall text,
         ~ contains (js "no match") text ->
         verisign_isAvailable text = Ok false)
  /\ de_isAvailable (js "STATUS: Free") = Ok true
  /\ de_isAvailable (js "Status: connect") = Ok false
  /\ verisign_isAvailable no_match_for_example = Ok true.
Proof.
  split; [|split; [|split; [|split; [|split; [|split; [|split]]]]]].
  - intros text. eexists. split; [apply de_isAvailable_eq|].
    apply first_field_verdict.
  - intros text. eexists. split; [apply eu_isAvailable_eq|].
    apply first_field_verdict.
  - intros text. exists (contains_ci (js "no match") text).
    split; [apply verisign_isAvailable_eq|apply contains_ci_iff].
  - intros text H.
    now rewrite de_isAvailable_eq, eu_isAvailable_eq, first_status_absent.
  - intros text H. rewrite verisign_isAvailable_eq. f_equal.
    destruct (contains_ci (js "no match") text) eqn:E; [|reflexivity].
    apply contains_ci_iff in E. contradiction.
  - vm_compute. reflexivity.
  - vm_compute. reflexivity.
  - vm_compute. reflexivity.
Qed.

Lemma classifiers_by_first_field_witness :
  de_isAvailable (js "Domain: x" ++ LF ++ js "status:  FREE" ++ LF) = Ok true.
Proof.
  destruct (proj1 classifiers_by_first_field
              (js "Domain: x" ++ LF ++ js "status:  FREE" ++ LF))
    as (verdict & Hverdict & Hiff).
  rewrite Hverdict. f_equal. apply Hiff.
  exists (js "FREE"). split.
  - apply first_status_iff. vm_compute. reflexivity.
  - vm_compute. reflexivity.
Defined.

(** C8.  The classifier of every provider the program can select is a
    function of the raw text alone.  A classifier evaluates its regular
    expression literal anew at every call, without the flags [g] and [y],
    so no call reads or writes the [lastIndex] of an object: whatever
    objects there are and whatever state they are in, the verdict on a
    text is the same; a second call on the same text gives the verdict of
    the first; no object that was there is changed; and the verdict is
    that of the classifier of [Whois], which has no state to look at. *)
Theorem classify_deterministic (tld : jsstring) (p : RegExpObjects.provider) :
  RegExpObjects.getWhoisProvider tld = Ok p ->
  (forall text h h',
      fst (RegExpObjects.isAvailable p text h)
      = fst (RegExpObjects.isAvailable p text h'))
  /\ (forall text1 text2 h,
         text1 = text2 ->
         fst (RegExpObjects.isAvailable
                p text2 (snd (RegExpObjects.isAvailable p text1 h)))
         = fst (RegExpObjects.isAvailable p text1 h))
  /\ (forall text h,
         firstn (length h) (snd (RegExpObjects.isAvailable p text h)) = h)
  /\ (exists p0,
         getWhoisProvider tld = Ok p0
         /\ host p0 = RegExpObjects.host p
         /\ forall text h,
             fst (RegExpObjects.isAvailable p text h) = isAvailable p0 text).
Proof.
  intros Hp. apply provider_stateless in Hp.
  destruct Hp as (p0 & o & Hp0 & Hhost & Hp).
  split; [|split; [|split]].
  - intros text h h'. now rewrite !Hp.
  - intros text1 text2 h <-. now rewrite !Hp.
  - intros text h. rewrite Hp. simpl.
    rewrite firstn_app, Nat.sub_diag, firstn_all. apply app_nil_r.
  - exists p0. split; [exact Hp0|]. split; [exact Hhost|].
    intros text h. now rewrite Hp.
Qed.

Lemma classify_deterministic_witness :
  fst (RegExpObjects.eu_isAvailable (js "Status: AVAILABLE") [])
  = fst (RegExpObjects.eu_isAvailable (js "Status: AVAILABLE")
                                      RegExpObjects.shared_global).
Proof.
  exact (proj1 (classify_deterministic
                  (js "eu")
                  (RegExpObjects.mkProvider (js "whois.eu")
                                            RegExpObjects.eu_isAvailable)
                  eq_refl)
               (js "Status: AVAILABLE") [] RegExpObjects.shared_global).
Defined.

(** The first [Status:] of this text stands at its head and has the value
    [-], not [free]; a [Status: free] follows, and the [de] classifier
    answers true.  A [Status:] that no word follows is not a field: the
    matcher goes on to the next one.  The same holds of the [eu]
    classifier. *)
Lemma first_occurrence_without_word :
  occurs_at (js "Status:") (js "Status: -" ++ LF ++ js "Status: free") 0
  /\ (forall w, ~ field_at (js "Status: -" ++ LF ++ js "Status: free") 0 w)
  /\ de_isAvailable (js "Status: -" ++ LF ++ js "Status: free") = Ok true
  /\ eu_isAvailable (js "Status: -" ++ LF ++ js "Status: available") = Ok true.
Proof.
  split; [|split; [|split]].
  - exists [], (js "Status:"), (js " -" ++ LF ++ js "Status: free").
    repeat split.
  - intros w H. apply status_at_iff in H. vm_compute in H. discriminate.
  - vm_compute. reflexivity.
  - vm_compute. reflexivity.
Qed.

(** C9, as the code has it.  Only the first [Status:] field counts, a
    field being [Status:] (in any letter case) followed by optional white
    space and a word, and its value that whole word.  If the value of the
    first field is not [free], respectively [available], the [de],
    respectively [eu], classifier answers false, whatever follows, a later
    [Status: free] or [Status: available] included.  When the first
    [Status:] of the text is followed by optional white space and a word,
    it is the first field; a [Status:] that no word follows is no field,
    and a text without any field is answered false. *)
Theorem first_status_field_only :
  (forall text w,
      first_field text w ->
      de_isAvailable text = Ok (str_eqb (toLowerCase w) (js "free"))
      /\ eu_isAvailable text = Ok (str_eqb (toLowerCase w) (js "available"))
      /\ (toLowerCase w <> js "free" -> de_isAvailable text = Ok false)
      /\ (toLowerCase w <> js "available" -> eu_isAvailable text = Ok false))
  /\ (forall before head ws w rest,
         (forall j, occurs_at (js "Status:") (before ++ head ++ ws ++ w ++ rest) j ->
                    (length before <= j)%nat) ->
         same_letters (js "Status:") head ->
         Forall (fun c => is_space c = true) ws ->
         w <> [] ->
         Forall (fun c => is_word c = true) w ->
         word_ends rest ->
         first_field (before ++ head ++ ws ++ w ++ rest) w)
  /\ (forall text,
         (forall i w, ~ field_at text i w) ->
         de_isAvailable text = Ok false /\ eu_isAvailable text = Ok false).
Proof.
  split; [|split].
  - intros text w H. apply first_status_iff in H.
    rewrite de_isAvailable_eq, eu_isAvailable_eq, H.
    repeat split; intros Hne; now rewrite str_eqb_neq.
  - intros before head ws w rest Hfirst Hh Hws Hne Hw Hr.
    apply first_status_iff. now apply first_status_field.
  - intros text H. apply first_status_none_iff in H.
    now rewrite de_isAvailable_eq, eu_isAvailable_eq, H.
Qed.

Lemma first_status_field_only_witness :
  de_isAvailable (js "Status: -" ++ LF ++ js "Status: connect"
                     ++ LF ++ js "Status: free")
  = Ok false.
Proof.
  refine (proj1 (proj2 (proj2 (proj1 first_status_field_only
                                 (js "Status: -" ++ LF ++ js "Status: connect"
                                     ++ LF ++ js "Status: free")
                                 (js "connect") _))) _).
  - apply first_status_iff. vm_compute. reflexivity.
  - vm_compute. discriminate.
Defined.

End ClassifierSpec.

(* ================================================================== *)
(** * The lookup: how it ends *)
(* ================================================================== *)

Module LookupSpec.
Import JS Whois ClassifierProofs.

(** C4.  For a provider of the program, the promise of [whoisLookup] is
    rejected exactly when the process could not be spawned, or closed with
    a code other than 0 and a non-empty error stream; the error then is the
    spawn error, respectively carries the trimmed error stream.  In every
    other case, a non-zero code with an empty error stream and code 0 with
    a non-empty error stream included, it resolves with the verdict of the
    provider's classifier on the standard output and that output. *)
Theorem whoisLookup_outcome (tld : jsstring) (p : provider)
        (spawn : spawner) (fqdn : jsstring) :
  getWhoisProvider tld = Ok p ->
  let child := spawn (js "whois") [js "-h"; host p; fqdn] in
  ((exists err, whoisLookup spawn fqdn p = Rejected err) <->
   ((exists err, child = SpawnFailed err)
    \/ (exists code out errs,
           child = Closed code out errs /\ code <> Some 0%Z /\ errs <> [])))
  /\ (forall err, child = SpawnFailed err ->
                  whoisLookup spawn fqdn p = Rejected err)
  /\ (forall code out errs,
         child = Closed code out errs -> code <> Some 0%Z -> errs <> [] ->
         whoisLookup spawn fqdn p = Rejected (Error (trim errs)))
  /\ (forall code out errs,
         child = Closed code out errs -> code = Some 0%Z \/ errs = [] ->
         exists verdict,
           isAvailable p out = Ok verdict
           /\ whoisLookup spawn fqdn p = Resolved (mkLookup verdict out)).
Proof.
  intros Hp child.
  assert (forall code errs,
             code_not_zero code && truthy errs = false <->
             code = Some 0%Z \/ errs = []) as Hcond.
  { intros code errs. rewrite andb_false_iff. split.
    - intros [Hc | He].
      + left. destruct code as [z|]; [|discriminate]. simpl in Hc.
        apply negb_false_iff, Z.eqb_eq in Hc. now subst.
      + right. destruct errs; [reflexivity|discriminate].
    - intros [-> | ->]; [now left|now right]. }
  assert (whoisLookup spawn fqdn p =
          match child with
          | SpawnFailed err => Rejected err
          | Closed code out errs =>
              if code_not_zero code && truthy errs
              then Rejected (Error (trim errs))
              else match isAvailable p out with
                   | Ok a => Resolved (mkLookup a out)
                   | Throw e => Uncaught e
                   end
          end) as Hlookup by reflexivity.
  clearbody child. rewrite Hlookup. clear Hlookup.
  split; [|split; [|split]].
  - split.
    + intros [err Herr]. destruct child as [e|code out errs].
      * left. now exists e.
      * right. exists code, out, errs. split; [reflexivity|].
        destruct (code_not_zero code && truthy errs) eqn:E.
        -- split; intros Hn; assert (code = Some 0%Z \/ errs = []) as Hor
             by (subst; tauto); apply Hcond in Hor; congruence.
        -- destruct (provider_total _ _ Hp out) as [v Hv].
           rewrite Hv in Herr. discriminate.
    + intros [[err ->] | (code & out & errs & -> & H1 & H2)].
      * now exists err.
      * exists (Error (trim errs)).
        destruct (code_not_zero code && truthy errs) eqn:E; [reflexivity|].
        apply Hcond in E. tauto.
  - now intros err ->.
  - intros code out errs -> H1 H2.
    destruct (code_not_zero code && truthy errs) eqn:E; [reflexivity|].
    apply Hcond in E. tauto.
  - intros code out errs -> Hor. apply Hcond in Hor. rewrite Hor.
    destruct (provider_total _ _ Hp out) as [v Hv]. exists v.
    now rewrite Hv.
Qed.

Lemma whoisLookup_outcome_witness :
  exists verdict,
    whoisLookup (fun _ _ => Closed (Some 1%Z) (js "Status: free") [])
                (js "glhf.de") (mkProvider (js "whois.denic.de") de_isAvailable)
    = Resolved (mkLookup verdict (js "Status: free")).
Proof.
  destruct (proj2 (proj2 (proj2
             (whoisLookup_outcome (js "de")
                (mkProvider (js "whois.denic.de") de_isAvailable)
                (fun _ _ => Closed (Some 1%Z) (js "Status: free") [])
                (js "glhf.de") eq_refl)))
             (Some 1%Z) (js "Status: free") [] eq_refl (or_intror eq_refl))
    as (verdict & _ & H).
  exists verdict. exact H.
Defined.

End LookupSpec.

(* ================================================================== *)
(** * Properties of the run loop *)
(* ================================================================== *)

Module RunnerProofs.
Import JS Config Generator Whois Runner Runs.

Lemma emit_exit (evs tr : list event) (r : list event * exit) (ex : exit) :
  emit evs r = (tr, ex) -> exists tr', r = (tr', ex).
Proof.
  destruct r as [tr' ex']. unfold emit. simpl. intros [= _ ->]. now exists tr'.
Qed.

Lemma snd_emit (evs : list event) (r : list event * exit) :
  snd (emit evs r) = snd r.
Proof. reflexivity. Qed.

Section Loop.
Variable spawn : nat -> spawner.
Variable cfg : config.
Variable p : provider.

Lemma loop_cons (i : nat) (st : state) (domain : jsstring) (rest : list jsstring) :
  loop spawn cfg p i st (domain :: rest) =
  match whoisLookup (spawn i) (fqdn_of cfg domain) p with
  | Rejected err =>
      emit (asked cfg p st domain ++ [EError (fqdn_of cfg domain) (message err)])
           (loop spawn cfg p (S i) st rest)
  | Uncaught err => (asked cfg p st domain, UncaughtException err)
  | Resolved result =>
      if available result then
        emit (asked cfg p st domain ++ [EAvailable (fqdn_of cfg domain)])
             (loop spawn cfg p (S i)
                   (mkState (S (checked st)) (taken st)
                            (availableDomains st ++ [fqdn_of cfg domain]))
                   rest)
      else
        emit (asked cfg p st domain ++ [ETaken (fqdn_of cfg domain)])
             (loop spawn cfg p (S i)
                   (mkState (S (checked st)) (S (taken st))
                            (availableDomains st))
                   rest)
  end.
Proof. reflexivity. Qed.

Lemma dispatches_cons (i : nat) (domain : jsstring) (rest : list jsstring) :
  dispatches i (domain :: rest) = (i, domain) :: dispatches (S i) rest.
Proof. reflexivity. Qed.

(** The final state, by the outcomes of the candidates. *)
Lemma loop_summary :
  forall domains i st tr st',
    loop spawn cfg p i st domains = (tr, Summary st') ->
    checked st' =
      (checked st + length (filter (classified spawn cfg p) (dispatches i domains)))%nat
    /\ taken st' =
      (taken st + length (filter (found_taken spawn cfg p) (dispatches i domains)))%nat
    /\ availableDomains st' =
      availableDomains st
        ++ List.map (fun d => fqdn_of cfg (snd d))
                    (filter (found_available spawn cfg p) (dispatches i domains)).
Proof.
  induction domains as [|domain rest IH]; intros i st tr st' H.
  - simpl in H. injection H as _ <-. unfold dispatches. simpl.
    now rewrite app_nil_r, !Nat.add_0_r.
  - rewrite loop_cons in H. rewrite dispatches_cons. cbn [filter].
    assert (classified spawn cfg p (i, domain) =
            match whoisLookup (spawn i) (fqdn_of cfg domain) p with
            | Resolved _ => true | _ => false end) as -> by reflexivity.
    assert (found_taken spawn cfg p (i, domain) =
            match whoisLookup (spawn i) (fqdn_of cfg domain) p with
            | Resolved r => negb (available r) | _ => false end) as ->
        by reflexivity.
    assert (found_available spawn cfg p (i, domain) =
            match whoisLookup (spawn i) (fqdn_of cfg domain) p with
            | Resolved r => available r | _ => false end) as ->
        by reflexivity.
    destruct (whoisLookup (spawn i) (fqdn_of cfg domain) p) as [r|err|err].
    + destruct (available r); apply emit_exit in H;
        destruct H as [tr' H]; apply IH in H; cbn [checked taken availableDomains] in H;
        destruct H as (Hc & Ht & Ha); rewrite Hc, Ht, Ha;
        cbn [negb length List.map snd]; repeat split; try lia.
      now rewrite <- app_assoc.
    + apply emit_exit in H. destruct H as [tr' H]. now apply IH in H.
    + discriminate.
Qed.

(** [checked = taken + |available|] is kept by the loop. *)
Lemma loop_counts :
  forall domains i st tr st',
    checked st = (taken st + length (availableDomains st))%nat ->
    loop spawn cfg p i st domains = (tr, Summary st') ->
    checked st' = (taken st' + length (availableDomains st'))%nat.
Proof.
  induction domains as [|domain rest IH]; intros i st tr st' Hinv H.
  - simpl in H. now injection H as _ <-.
  - rewrite loop_cons in H.
    destruct (whoisLookup (spawn i) (fqdn_of cfg domain) p) as [r|err|err].
    + destruct (available r); apply emit_exit in H; destruct H as [tr' H];
        apply IH in H; try assumption; simpl; [rewrite length_app; simpl|]; lia.
    + apply emit_exit in H. destruct H as [tr' H]. now apply IH in H.
    + discriminate.
Qed.

(** With a classifier that does not throw the loop reaches the summary. *)
Lemma loop_completes :
  (forall text, exists verdict, isAvailable p text = Ok verdict) ->
  forall domains i st, exists tr st',
      loop spawn cfg p i st domains = (tr, Summary st').
Proof.
  intros Htotal. induction domains as [|domain rest IH]; intros i st.
  - now exists [], st.
  - rewrite loop_cons.
    destruct (whoisLookup (spawn i) (fqdn_of cfg domain) p) as [r|err|err] eqn:E.
    + destruct (available r);
        match goal with
        | |- context [loop spawn cfg p (S i) ?s rest] =>
            destruct (IH (S i) s) as (tr & st' & ->)
        end; unfold emit; simpl; eauto.
    + destruct (IH (S i) st) as (tr & st' & ->). unfold emit. simpl. eauto.
    + exfalso. unfold whoisLookup in E.
      destruct (spawn i _ _) as [e|code out errs]; [discriminate|].
      destruct (code_not_zero code && truthy errs); [discriminate|].
      destruct (Htotal out) as [v Hv]. rewrite Hv in E. discriminate.
Qed.

(** A rejected lookup leaves the state as it was and goes on. *)
Lemma loop_rejected (i : nat) (st : state) (domain : jsstring)
      (rest : list jsstring) (err : exn) :
  whoisLookup (spawn i) (fqdn_of cfg domain) p = Rejected err ->
  loop spawn cfg p i st (domain :: rest) =
  emit (asked cfg p st domain ++ [EError (fqdn_of cfg domain) (message err)])
       (loop spawn cfg p (S i) st rest).
Proof. intros H. now rewrite loop_cons, H. Qed.
End Loop.

(** The loop only asks for the child processes of its own candidates. *)
Lemma loop_spawn_ext (spawn1 spawn2 : nat -> spawner) (cfg : config) (p : provider) :
  forall domains i st,
    (forall k, (i <= k < i + length domains)%nat -> spawn1 k = spawn2 k) ->
    loop spawn1 cfg p i st domains = loop spawn2 cfg p i st domains.
Proof.
  induction domains as [|domain rest IH]; intros i st H; [reflexivity|].
  rewrite !loop_cons. rewrite <- (H i) by (simpl; lia).
  assert (forall st0, loop spawn1 cfg p (S i) st0 rest
                      = loop spawn2 cfg p (S i) st0 rest) as Hrest
    by (intros st0; apply IH; intros k Hk; apply H; simpl; lia).
  now rewrite !Hrest.
Qed.

Lemma loop_shift (spawn1 spawn2 : nat -> spawner) (cfg : config) (p : provider) :
  forall domains i st,
    (forall k, (i <= k)%nat -> spawn2 k = spawn1 (S k)) ->
    loop spawn1 cfg p (S i) st domains = loop spawn2 cfg p i st domains.
Proof.
  induction domains as [|domain rest IH]; intros i st H; [reflexivity|].
  rewrite !loop_cons. rewrite (H i) by lia.
  assert (forall st0, loop spawn1 cfg p (S (S i)) st0 rest
                      = loop spawn2 cfg p (S i) st0 rest) as Hrest
    by (intros st0; apply IH; intros k Hk; apply H; lia).
  now rewrite !Hrest.
Qed.

End RunnerProofs.

(* ================================================================== *)
(** * Properties of configuration reading *)
(* ================================================================== *)

Module ConfigProofs.
Import JS Config Whois Runs ClassifierProofs.

(** ** Integers among the numbers *)

Lemma integer_value (n : number) :
  isInteger n = true ->
  exists q, n = Fin q /\ (q == inject_Z (to_Z n))%Q.
Proof.
  destruct n as [| | |q]; try discriminate. unfold isInteger, to_Z. intros H.
  apply Pos.eqb_eq in H. exists q. split; [reflexivity|].
  rewrite <- (Qred_correct q) at 1.
  destruct (Qred q) as [a b]. simpl in *. subst b. reflexivity.
Qed.

Lemma Qle_bool_int_r (q : Q) (z k : Z) :
  (q == inject_Z z)%Q -> Qle_bool q (inject_Z k) = (z <=? k)%Z.
Proof.
  intros Hq. apply eq_true_iff_eq.
  rewrite Qle_bool_iff, Z.leb_le, Hq. now rewrite Zle_Qle.
Qed.

Lemma Qle_bool_int_l (q : Q) (z k : Z) :
  (q == inject_Z z)%Q -> Qle_bool (inject_Z k) q = (k <=? z)%Z.
Proof.
  intros Hq. apply eq_true_iff_eq.
  rewrite Qle_bool_iff, Z.leb_le, Hq. now rewrite Zle_Qle.
Qed.

Lemma has_In (set : list jsstring) (x : jsstring) :
  has set x = true <-> In x set.
Proof.
  unfold has. rewrite existsb_exists. split.
  - intros (y & Hy & E). apply str_eqb_eq in E. now subst.
  - intros H. exists x. split; [assumption|]. now apply str_eqb_eq.
Qed.

Lemma validateAffix_ok (v : value) (name s : jsstring) :
  validateAffix v name = Ok s -> v = VString s.
Proof.
  destruct v; try discriminate. simpl.
  destruct (negb (forallb is_lower_az s0)); [discriminate|].
  now intros [= ->].
Qed.

Section ReadConfig.
Variable ToNumber : value -> number.
Variable ToString : value -> jsstring.

(** What an accepted configuration was read from. *)
Lemma readConfig_ok (file : config_file) (cfg : config) :
  readConfig ToNumber ToString file = Ok cfg ->
  exists p s1 s2,
    file = Parsed p
    /\ isInteger (Number_ ToNumber (p_length p)) = true
    /\ num_ltb (Number_ ToNumber (p_length p)) MIN_LENGTH = false
    /\ num_ltb MAX_LENGTH (Number_ ToNumber (p_length p)) = false
    /\ validateAffix (nullish (p_prefix p) (VString [])) (js "prefix") = Ok s1
    /\ validateAffix (nullish (p_suffix p) (VString [])) (js "suffix") = Ok s2
    /\ num_geb (of_nat (length s1 + length s2)) (Number_ ToNumber (p_length p)) = false
    /\ bad_interval (nullish (p_intervalMs p) (VNumber DEFAULT_INTERVAL_MS)) = false
    /\ has SUPPORTED_TLDS (chosen_tld ToString p) = true
    /\ cfg = mkConfig (to_Z (Number_ ToNumber (p_length p))) s1 s2
                      (number_of (nullish (p_intervalMs p) (VNumber DEFAULT_INTERVAL_MS)))
                      (chosen_tld ToString p).
Proof.
  destruct file as [| | |p]; try discriminate.
  unfold readConfig. cbv zeta.
  change (toLowerCase (String_ ToString (nullish (p_topLevelDomain p) (VString (js "de")))))
    with (chosen_tld ToString p).
  destruct (negb (isInteger (Number_ ToNumber (p_length p)))
            || num_ltb (Number_ ToNumber (p_length p)) MIN_LENGTH
            || num_ltb MAX_LENGTH (Number_ ToNumber (p_length p))) eqn:Elen;
    [discriminate|].
  apply orb_false_iff in Elen. destruct Elen as [Elen Emax].
  apply orb_false_iff in Elen. destruct Elen as [Eint Emin].
  apply negb_false_iff in Eint.
  destruct (validateAffix (nullish (p_prefix p) (VString [])) (js "prefix"))
    as [s1|] eqn:E1; [|discriminate].
  destruct (validateAffix (nullish (p_suffix p) (VString [])) (js "suffix"))
    as [s2|] eqn:E2; [|discriminate].
  cbn [bind].
  destruct (num_geb _ _) eqn:Egeb; [discriminate|].
  destruct (bad_interval _) eqn:Ebad; [discriminate|].
  destruct (negb (has SUPPORTED_TLDS (chosen_tld ToString p))) eqn:Etld; [discriminate|].
  apply negb_false_iff in Etld.
  intros [= <-]. exists p, s1, s2. repeat split; assumption.
Qed.

(** The converse: a file that passes every check is accepted. *)
Lemma readConfig_accepts (p : parsed) (s1 s2 : jsstring) :
  isInteger (Number_ ToNumber (p_length p)) = true ->
  num_ltb (Number_ ToNumber (p_length p)) MIN_LENGTH = false ->
  num_ltb MAX_LENGTH (Number_ ToNumber (p_length p)) = false ->
  validateAffix (nullish (p_prefix p) (VString [])) (js "prefix") = Ok s1 ->
  validateAffix (nullish (p_suffix p) (VString [])) (js "suffix") = Ok s2 ->
  num_geb (of_nat (length s1 + length s2)) (Number_ ToNumber (p_length p)) = false ->
  bad_interval (nullish (p_intervalMs p) (VNumber DEFAULT_INTERVAL_MS)) = false ->
  has SUPPORTED_TLDS (chosen_tld ToString p) = true ->
  readConfig ToNumber ToString (Parsed p) =
  Ok (mkConfig (to_Z (Number_ ToNumber (p_length p))) s1 s2
               (number_of (nullish (p_intervalMs p) (VNumber DEFAULT_INTERVAL_MS)))
               (chosen_tld ToString p)).
Proof.
  intros Hint Hmin Hmax E1 E2 Hgeb Hbad Htld.
  unfold readConfig. cbv zeta.
  change (toLowerCase (String_ ToString (nullish (p_topLevelDomain p) (VString (js "de")))))
    with (chosen_tld ToString p).
  rewrite Hint, Hmin, Hmax. cbn [negb orb]. rewrite E1, E2. cbn [bind].
  now rewrite Hgeb, Hbad, Htld.
Qed.

(** An accepted configuration satisfies the invariant of the data
    model. *)
Lemma readConfig_valid (file : config_file) (cfg : config) :
  readConfig ToNumber ToString file = Ok cfg ->
  (2 <= domainLength cfg <= 63)%Z
  /\ (Z.of_nat (length (prefix cfg)) + Z.of_nat (length (suffix cfg))
      < domainLength cfg)%Z
  /\ In (topLevelDomain cfg) SUPPORTED_TLDS.
Proof.
  intros H. apply readConfig_ok in H.
  destruct H as (p & s1 & s2 & _ & Hint & Hmin & Hmax & _ & _ & Hgeb & _ & Htld & ->).
  cbn [domainLength prefix suffix topLevelDomain].
  destruct (integer_value _ Hint) as (q & Hn & Hq).
  rewrite Hn in Hmin, Hmax, Hgeb. rewrite Hn in Hq.
  unfold MIN_LENGTH, MAX_LENGTH, of_Z, of_nat in *. cbn [num_ltb num_geb] in *.
  rewrite (Qle_bool_int_l _ _ _ Hq) in Hmin.
  rewrite (Qle_bool_int_r _ _ _ Hq) in Hmax.
  rewrite (Qle_bool_int_r _ _ _ Hq) in Hgeb.
  rewrite Hn. apply negb_false_iff in Hmin, Hmax.
  apply Z.leb_le in Hmin, Hmax. apply Z.leb_gt in Hgeb.
  apply has_In in Htld. repeat split; try assumption; lia.
Qed.

(** Too many fixed letters: [readConfig] throws. *)
Lemma readConfig_no_room (p : parsed) (q : Q) (s1 s2 : jsstring) :
  Number_ ToNumber (p_length p) = Fin q ->
  nullish (p_prefix p) (VString []) = VString s1 ->
  nullish (p_suffix p) (VString []) = VString s2 ->
  (q <= inject_Z (Z.of_nat (length s1 + length s2)))%Q ->
  exists err, readConfig ToNumber ToString (Parsed p) = Throw err.
Proof.
  intros Hn H1 H2 Hle.
  destruct (readConfig ToNumber ToString (Parsed p)) as [cfg|err] eqn:E;
    [|now exists err].
  exfalso. apply readConfig_ok in E.
  destruct E as (p' & t1 & t2 & [= <-] & _ & _ & _ & E1 & E2 & Hgeb & _).
  apply validateAffix_ok in E1, E2. rewrite H1 in E1. rewrite H2 in E2.
  injection E1 as <-. injection E2 as <-.
  rewrite Hn in Hgeb. unfold of_nat in Hgeb. cbn [num_geb] in Hgeb.
  apply Qle_bool_iff in Hle. congruence.
Qed.

(** An identifier outside the supported set: [readConfig] throws. *)
Lemma readConfig_unsupported (p : parsed) :
  ~ In (chosen_tld ToString p) SUPPORTED_TLDS ->
  exists err, readConfig ToNumber ToString (Parsed p) = Throw err.
Proof.
  intros Hn.
  destruct (readConfig ToNumber ToString (Parsed p)) as [cfg|err] eqn:E;
    [|now exists err].
  exfalso. apply readConfig_ok in E.
  destruct E as (p' & t1 & t2 & [= <-] & _ & _ & _ & _ & _ & _ & _ & Htld & _).
  apply has_In in Htld. contradiction.
Qed.
End ReadConfig.

Lemma supported_provider (tld : jsstring) :
  In tld SUPPORTED_TLDS -> exists p, getWhoisProvider tld = Ok p.
Proof.
  intros [<- | [<- | [<- | [<- | []]]]]; eexists; vm_compute; reflexivity.
Qed.

Lemma unsupported_provider (tld : jsstring) :
  ~ In tld SUPPORTED_TLDS ->
  getWhoisProvider tld = Throw (Error (js "Unsupported TLD: " ++ tld)).
Proof.
  intros H. unfold getWhoisProvider.
  destruct (str_eqb tld (js "de")) eqn:E1;
    [apply str_eqb_eq in E1; subst; exfalso; apply H; simpl; tauto|].
  destruct (str_eqb tld (js "net")) eqn:E2;
    [apply str_eqb_eq in E2; subst; exfalso; apply H; simpl; tauto|].
  destruct (str_eqb tld (js "com")) eqn:E3;
    [apply str_eqb_eq in E3; subst; exfalso; apply H; simpl; tauto|].
  destruct (str_eqb tld (js "eu")) eqn:E4;
    [apply str_eqb_eq in E4; subst; exfalso; apply H; simpl; tauto|].
  reflexivity.
Qed.


End ConfigProofs.

(* ================================================================== *)
(** * Runs: summary, delays, failed lookups *)
(* ================================================================== *)

Module RunSpec.
Import JS Config Generator Whois Runner Runs.
Import GeneratorProofs ClassifierProofs RunnerProofs ConfigProofs.

(** Every run on an accepted configuration comes to its summary, given
    fuel for the longest label. *)
Lemma run_completes (ToNumber : value -> number) (ToString : value -> jsstring)
      (spawn : nat -> spawner) (file : config_file) (cfg : config) (fuel : nat) :
  readConfig ToNumber ToString file = Ok cfg ->
  (63 <= fuel)%nat ->
  exists tr st, run ToNumber ToString spawn file fuel = (tr, Summary st).
Proof.
  intros Hcfg Hfuel. unfold run. rewrite Hcfg.
  destruct (readConfig_valid _ _ _ _ Hcfg) as (Hlen & Hinv & Htld).
  destruct (supported_provider _ Htld) as [p Hp]. rewrite Hp.
  rewrite domainGenerator_words by lia.
  apply loop_completes. now apply (provider_total (topLevelDomain cfg)).
Qed.

(** C2.  At the end of every completed run [checked] is [taken] plus the
    number of available names, and the available names are the names of
    the candidates classified available, in the order the candidates were
    dispatched.  This holds for the loop over any candidates and any
    outcomes of the lookups, and so for [run]. *)
Theorem summary_invariant :
  (forall (spawn : nat -> spawner) (cfg : config) (p : provider)
          (domains : list jsstring) (tr : list event) (st : state),
      loop spawn cfg p 0 initial domains = (tr, Summary st) ->
      checked st = (taken st + length (availableDomains st))%nat
      /\ availableDomains st =
         List.map (fun d => fqdn_of cfg (snd d))
                  (filter (found_available spawn cfg p) (dispatches 0 domains)))
  /\ (forall (ToNumber : value -> number) (ToString : value -> jsstring)
             (spawn : nat -> spawner) (file : config_file) (fuel : nat)
             (tr : list event) (st : state),
         run ToNumber ToString spawn file fuel = (tr, Summary st) ->
         checked st = (taken st + length (availableDomains st))%nat
         /\ exists cfg p domains,
             readConfig ToNumber ToString file = Ok cfg
             /\ getWhoisProvider (topLevelDomain cfg) = Ok p
             /\ domainGenerator fuel (domainLength cfg) (prefix cfg) (suffix cfg)
                = Some domains
             /\ availableDomains st =
                List.map (fun d => fqdn_of cfg (snd d))
                         (filter (found_available spawn cfg p)
                                 (dispatches 0 domains))).
Proof.
  assert (forall spawn cfg p domains tr st,
             loop spawn cfg p 0 initial domains = (tr, Summary st) ->
             checked st = (taken st + length (availableDomains st))%nat
             /\ availableDomains st =
                List.map (fun d => fqdn_of cfg (snd d))
                         (filter (found_available spawn cfg p)
                                 (dispatches 0 domains))) as Hloop.
  { intros spawn cfg p domains tr st H. split.
    - now apply (loop_counts spawn cfg p domains 0 initial tr).
    - now destruct (loop_summary spawn cfg p domains 0 initial tr st H)
        as (_ & _ & ->). }
  split; [exact Hloop|].
  intros ToNumber ToString spawn file fuel tr st. unfold run.
  destruct (readConfig ToNumber ToString file) as [cfg|]; [|discriminate].
  destruct (getWhoisProvider (topLevelDomain cfg)) as [p|] eqn:Hp; [|discriminate].
  destruct (domainGenerator fuel _ _ _) as [domains|] eqn:Hgen; [|discriminate].
  intros H. apply Hloop in H. destruct H as [Hc Ha].
  split; [assumption|]. now exists cfg, p, domains.
Qed.

Lemma summary_invariant_witness :
  exists st,
    snd (run no_number no_string mixed_answers three_letters 1) = Summary st
    /\ checked st = (taken st + length (availableDomains st))%nat
    /\ availableDomains st = [js "abb.de"].
Proof.
  exists (mkState 25 24 [js "abb.de"]).
  split; [vm_compute; reflexivity|].
  split; [|reflexivity].
  apply (proj2 summary_invariant no_number no_string mixed_answers three_letters 1%nat
               (fst (run no_number no_string mixed_answers three_letters 1))).
  vm_compute. reflexivity.
Defined.

(** Without a classified candidate so far there is no delay: after a
    rejected first lookup the second candidate is looked up at once. *)
Lemma no_delay_after_rejected_first (spawn : nat -> spawner) (cfg : config)
      (p : provider) (d1 d2 : jsstring) (rest : list jsstring) (err : exn) :
  whoisLookup (spawn 0%nat) (fqdn_of cfg d1) p = Rejected err ->
  exists tr ex,
    loop spawn cfg p 0 initial (d1 :: d2 :: rest) =
    ([ELookup (host p) (fqdn_of cfg d1);
      EError (fqdn_of cfg d1) (message err);
      ELookup (host p) (fqdn_of cfg d2)] ++ tr, ex).
Proof.
  intros H. rewrite (loop_rejected _ _ _ _ _ _ _ _ H), loop_cons.
  unfold asked. cbn [initial checked Nat.ltb Nat.leb app].
  destruct (whoisLookup (spawn 1%nat) (fqdn_of cfg d2) p) as [r|e|e].
  - destruct (available r); unfold emit; cbn [fst snd app]; eauto.
  - unfold emit. cbn [fst snd app]. eauto.
  - unfold emit. cbn [fst snd app]. now exists [], (UncaughtException e).
Qed.

(** C5, where the code departs from it.  [whois] cannot be started for the
    first candidate [aba.de]; the second candidate [abb.de] is looked up
    with no delay before it, and the first delay of the run comes before
    the third candidate. *)
Theorem delay_skipped_after_failed_first_lookup :
  firstn 6 (fst (run no_number no_string first_spawn_fails three_letters 1)) =
  [ELookup (js "whois.denic.de") (js "aba.de");
   EError (js "aba.de") (js "spawn whois ENOENT");
   ELookup (js "whois.denic.de") (js "abb.de");
   ETaken (js "abb.de");
   EDelay (of_Z 500);
   ELookup (js "whois.denic.de") (js "abc.de")].
Proof. vm_compute. reflexivity. Qed.

(** C6.  A candidate whose lookup is rejected changes nothing in the
    state: the loop reports the error and goes on with the next candidate
    from the state it had.  The run ends as the run without that
    candidate and its child process ends: the candidate is in no count and
    not in the list, and the candidates after it are handled as if it had
    not been there. *)
Theorem rejected_lookup_not_counted
        (spawn : nat -> spawner) (cfg : config) (p : provider)
        (before : list jsstring) (domain : jsstring) (after : list jsstring)
        (i : nat) (st : state) (err : exn) :
  whoisLookup (spawn (i + length before)%nat) (fqdn_of cfg domain) p
  = Rejected err ->
  (forall st0,
      loop spawn cfg p (i + length before) st0 (domain :: after) =
      emit (asked cfg p st0 domain ++ [EError (fqdn_of cfg domain) (message err)])
           (loop spawn cfg p (S (i + length before)) st0 after))
  /\ snd (loop spawn cfg p i st (before ++ domain :: after)) =
     snd (loop (without_call (i + length before) spawn) cfg p i st
               (before ++ after)).
Proof.
  intros Hrej. split.
  - intros st0. now apply loop_rejected.
  - revert i st Hrej. induction before as [|b before IH]; intros i st Hrej.
    + simpl app. simpl length in *. rewrite Nat.add_0_r in *.
      rewrite (loop_rejected _ _ _ _ _ _ _ _ Hrej), snd_emit.
      f_equal. apply loop_shift. intros k Hk. unfold without_call.
      destruct (Nat.ltb_spec k i); [lia|reflexivity].
    + simpl app. rewrite !loop_cons.
      assert (without_call (i + length (b :: before)) spawn i = spawn i) as ->
        by (unfold without_call; destruct (Nat.ltb_spec i (i + length (b :: before)));
            [reflexivity|simpl in *; lia]).
      assert (forall st0,
                 snd (loop spawn cfg p (S i) st0 (before ++ domain :: after)) =
                 snd (loop (without_call (i + length (b :: before)) spawn) cfg p
                           (S i) st0 (before ++ after))) as Hrest.
      { intros st0.
        replace (i + length (b :: before))%nat with (S i + length before)%nat
          by (simpl; lia).
        apply IH. now replace (S i + length before)%nat
                    with (i + length (b :: before))%nat by (simpl; lia). }
      destruct (whoisLookup (spawn i) (fqdn_of cfg b) p) as [r|e|e].
      * destruct (available r); rewrite !snd_emit; apply Hrest.
      * rewrite !snd_emit. apply Hrest.
      * reflexivity.
Qed.

Lemma rejected_lookup_not_counted_witness :
  snd (loop mixed_answers
            (mkConfig 3 (js "ab") [] (of_Z 500) (js "de"))
            (mkProvider (js "whois.denic.de") de_isAvailable)
            0 initial [js "aba"; js "abb"; js "abc"; js "abd"])
  = snd (loop (without_call 2 mixed_answers)
              (mkConfig 3 (js "ab") [] (of_Z 500) (js "de"))
              (mkProvider (js "whois.denic.de") de_isAvailable)
              0 initial [js "aba"; js "abb"; js "abd"]).
Proof.
  apply (proj2 (rejected_lookup_not_counted mixed_answers
                  (mkConfig 3 (js "ab") [] (of_Z 500) (js "de"))
                  (mkProvider (js "whois.denic.de") de_isAvailable)
                  [js "aba"; js "abb"] (js "abc") [js "abd"] 0%nat initial
                  (Error (js "connect: Network is unreachable"))
                  eq_refl)).
Defined.

End RunSpec.

(* ================================================================== *)
(** * Configuration: what is refused, what is normalised *)
(* ================================================================== *)

Module ConfigSpec.
Import JS Config Generator Whois Runner Runs.
Import ClassifierProofs ConfigProofs.

(** C7.  A configuration whose prefix and suffix leave no letter to fill
    makes [readConfig] throw: the run ends with a configuration error
    before its loop, whatever the child processes would do, without a
    candidate and without a lookup.  Every configuration that is accepted
    satisfies the invariant, so the generator is only ever given such
    arguments.  An identifier outside [de], [net], [eu], [com] makes
    [getWhoisProvider] throw, and a run configured with one ends with a
    configuration error before any lookup. *)
Theorem configuration_errors_stop_the_run :
  (forall (ToNumber : value -> number) (ToString : value -> jsstring)
          (p : parsed) (q : Q) (s1 s2 : jsstring),
      Number_ ToNumber (p_length p) = Fin q ->
      nullish (p_prefix p) (VString []) = VString s1 ->
      nullish (p_suffix p) (VString []) = VString s2 ->
      (inject_Z (Z.of_nat (length s1 + length s2)) >= q)%Q ->
      exists msg, forall spawn fuel,
          run ToNumber ToString spawn (Parsed p) fuel
          = ([], ConfigurationError msg))
  /\ (forall (ToNumber : value -> number) (ToString : value -> jsstring)
             (file : config_file) (cfg : config),
         readConfig ToNumber ToString file = Ok cfg ->
         (Z.of_nat (length (prefix cfg)) + Z.of_nat (length (suffix cfg))
          < domainLength cfg)%Z)
  /\ (forall tld,
         ~ In tld SUPPORTED_TLDS ->
         getWhoisProvider tld = Throw (Error (js "Unsupported TLD: " ++ tld)))
  /\ (forall (ToNumber : value -> number) (ToString : value -> jsstring)
             (p : parsed),
         ~ In (chosen_tld ToString p) SUPPORTED_TLDS ->
         exists msg, forall spawn fuel,
             run ToNumber ToString spawn (Parsed p) fuel
             = ([], ConfigurationError msg)).
Proof.
  split; [|split; [|split]].
  - intros ToNumber ToString p q s1 s2 Hn H1 H2 Hle.
    destruct (readConfig_no_room ToNumber ToString p q s1 s2 Hn H1 H2 Hle)
      as [err Herr].
    exists (message err). intros spawn fuel. unfold run. now rewrite Herr.
  - intros ToNumber ToString file cfg H.
    now destruct (readConfig_valid _ _ _ _ H) as (_ & Hinv & _).
  - exact unsupported_provider.
  - intros ToNumber ToString p Hn.
    destruct (readConfig_unsupported ToNumber ToString p Hn) as [err Herr].
    exists (message err). intros spawn fuel. unfold run. now rewrite Herr.
Qed.

Lemma configuration_errors_stop_the_run_witness :
  exists msg,
    run no_number no_string first_spawn_fails
        (Parsed (mkParsed (VNumber (of_Z 4)) (VString (js "ab"))
                          (VString (js "cd")) VUndefined VUndefined))
        63
    = ([], ConfigurationError msg).
Proof.
  destruct (proj1 configuration_errors_stop_the_run no_number no_string
              (mkParsed (VNumber (of_Z 4)) (VString (js "ab"))
                        (VString (js "cd")) VUndefined VUndefined)
              (inject_Z 4) (js "ab") (js "cd") eq_refl eq_refl eq_refl)
    as [msg H].
  - vm_compute. discriminate.
  - exists msg. apply H.
Defined.



End ConfigSpec.

(* ================================================================== *)
(** * More on the generator *)
(* ================================================================== *)

Module GeneratorFacts.
Import JS Generator Traces GeneratorProofs.

Lemma flat_map_ext_in {A B} (f g : A -> list B) (l : list A) :
  (forall x, In x l -> f x = g x) -> flat_map f l = flat_map g l.
Proof.
  induction l as [|x l IH]; intros H; simpl; [reflexivity|].
  rewrite (H x (or_introl eq_refl)), IH; [reflexivity|].
  intros y Hy. apply H. now right.
Qed.

Lemma yield_all_some {A B} (f : A -> option (list B)) (l : list A) (r : list B) :
  yield_all (List.map f l) = Some r ->
  exists g, (forall x, In x l -> f x = Some (g x)) /\ r = flat_map g l.
Proof.
  revert r. induction l as [|x l IH]; intros r; simpl.
  - intros [= <-]. now exists (fun _ => []).
  - destruct (f x) as [rx|] eqn:Ex; [|discriminate].
    destruct (yield_all (List.map f l)) as [rl|] eqn:El; [|discriminate].
    intros [= <-]. destruct (IH rl eq_refl) as (g & Hg & ->).
    exists (fun y => match f y with Some ry => ry | None => [] end). split.
    + intros y [<- | Hy]; [now rewrite Ex|].
      now rewrite (Hg y Hy).
    + simpl. rewrite Ex. f_equal. apply flat_map_ext_in.
      intros y Hy. now rewrite (Hg y Hy).
Qed.

(** Whatever the fuel, a result of [build] is the list of all words of
    the missing length: the fuel decides whether there is a result, never
    which. *)
Lemma build_some (fillCount : Z) :
  forall (fuel : nat) (current : jsstring) (l : list jsstring),
    build fillCount fuel current = Some l ->
    exists k, fillCount = Z.of_nat (length current + k)
              /\ l = List.map (app current) (words ALPHABET k).
Proof.
  induction fuel as [|fuel IH]; intros current l; rewrite build_unfold;
    destruct (Z.of_nat (length current) =? fillCount)%Z eqn:E.
  - apply Z.eqb_eq in E. intros [= <-]. exists 0%nat.
    split; [lia|]. simpl. now rewrite app_nil_r.
  - discriminate.
  - apply Z.eqb_eq in E. intros [= <-]. exists 0%nat.
    split; [lia|]. simpl. now rewrite app_nil_r.
  - apply Z.eqb_neq in E. intros H. apply yield_all_some in H.
    destruct H as (g & Hg & ->).
    assert (In 97%N ALPHABET) as Ha by (unfold ALPHABET; simpl; tauto).
    destruct (IH _ _ (Hg _ Ha)) as (k & Hk & _).
    rewrite length_app in Hk. simpl in Hk.
    exists (S k). split; [lia|].
    change (words ALPHABET (S k))
      with (flat_map (fun c => List.map (cons c) (words ALPHABET k)) ALPHABET).
    rewrite <- flat_map_prepend. apply flat_map_ext_in.
    intros letter Hl. destruct (IH _ _ (Hg _ Hl)) as (k' & Hk' & ->).
    rewrite length_app in Hk'. simpl in Hk'.
    replace k' with k by lia. reflexivity.
Qed.

Lemma domainGenerator_some (fuel : nat) (len : Z) (prefix suffix : jsstring)
      (candidates : list jsstring) :
  domainGenerator fuel len prefix suffix = Some candidates ->
  exists k,
    len = Z.of_nat (length prefix + k + length suffix)
    /\ candidates = List.map (fun middle => prefix ++ middle ++ suffix)
                             (words ALPHABET k).
Proof.
  unfold domainGenerator.
  destruct (_ =? 0)%Z eqn:E.
  - apply Z.eqb_eq in E. intros [= <-]. exists 0%nat. split; [lia|reflexivity].
  - destruct (build _ fuel []) as [middles|] eqn:Hb; [|discriminate].
    intros [= <-]. apply build_some in Hb. destruct Hb as (k & Hk & ->).
    exists k. split; [simpl in Hk; lia|]. now rewrite map_map.
Qed.

Lemma lex_lt_irrefl (s : jsstring) : ~ lex_lt s s.
Proof.
  induction s as [|c s IH]; intros H; inversion H; subst.
  - lia.
  - contradiction.
Qed.

Lemma sorted_NoDup (l : list jsstring) :
  StronglySorted lex_lt l -> NoDup l.
Proof.
  induction 1 as [|x l Hs IH Hall]; constructor; [|assumption].
  intros Hin. rewrite Forall_forall in Hall.
  exact (lex_lt_irrefl x (Hall x Hin)).
Qed.

Lemma NoDup_wrap (prefix suffix : jsstring) (l : list jsstring) :
  NoDup l -> NoDup (List.map (fun middle => prefix ++ middle ++ suffix) l).
Proof.
  induction 1 as [|x l Hx Hnd IH]; simpl; constructor; [|assumption].
  intros Hin. apply in_map_iff in Hin. destruct Hin as (y & Hy & Hin).
  apply app_inv_head in Hy. apply app_inv_tail in Hy. now subst.
Qed.

Lemma generated_labels
      (fuel : nat) (len : Z) (prefix suffix : jsstring)
      (candidates : list jsstring) :
  domainGenerator fuel len prefix suffix = Some candidates ->
  NoDup candidates
  /\ Z.of_nat (length candidates)
     = (26 ^ (len - Z.of_nat (length prefix) - Z.of_nat (length suffix)))%Z
  /\ forall label,
      In label candidates ->
      Z.of_nat (length label) = len
      /\ (exists middle, label = prefix ++ middle ++ suffix)
      /\ (Forall (fun c => is_lower_az c = true) prefix ->
          Forall (fun c => is_lower_az c = true) suffix ->
          Forall (fun c => is_lower_az c = true) label).
Proof.
  intros H. apply domainGenerator_some in H. destruct H as (k & -> & ->).
  split; [|split].
  - apply NoDup_wrap, sorted_NoDup, words_sorted, ALPHABET_sorted.
  - rewrite length_map, words_length, ALPHABET_length.
    replace (Z.of_nat (length prefix + k + length suffix)
             - Z.of_nat (length prefix) - Z.of_nat (length suffix))%Z
      with (Z.of_nat k) by lia.
    rewrite Nat2Z.inj_pow. reflexivity.
  - intros label Hin. apply in_map_iff in Hin.
    destruct Hin as (middle & <- & Hm). apply words_in in Hm.
    destruct Hm as [Hlen Haz]. split; [|split].
    + rewrite !length_app. lia.
    + now exists middle.
    + intros Hp Hs. apply Forall_app. split; [assumption|].
      apply Forall_app. split; [|assumption].
      eapply Forall_impl; [|exact Haz]. intros c Hc. now apply ALPHABET_az.
Qed.

(** X1.  Whenever the generator comes to its end, it has yielded
    [26^fillCount] labels, no label twice; each label has the length asked
    for, starts with the prefix and ends with the suffix, and is made of a-z
    when the prefix and the suffix are. *)
Theorem candidates_distinct_and_well_formed
        (fuel : nat) (len : Z) (prefix suffix : jsstring)
        (candidates : list jsstring) :
  domainGenerator fuel len prefix suffix = Some candidates ->
  NoDup candidates
  /\ Z.of_nat (length candidates)
     = (26 ^ (len - Z.of_nat (length prefix) - Z.of_nat (length suffix)))%Z
  /\ forall label,
      In label candidates ->
      Z.of_nat (length label) = len
      /\ (exists middle, label = prefix ++ middle ++ suffix)
      /\ (Forall (fun c => is_lower_az c = true) prefix ->
          Forall (fun c => is_lower_az c = true) suffix ->
          Forall (fun c => is_lower_az c = true) label).
Proof. exact (generated_labels fuel len prefix suffix candidates). Qed.

Lemma candidates_distinct_and_well_formed_witness :
  exists candidates,
    domainGenerator 2 4 (js "gl") [] = Some candidates
    /\ NoDup candidates.
Proof.
  destruct (domainGenerator 2 4 (js "gl") []) as [candidates|] eqn:E.
  - exists candidates. split; [reflexivity|].
    exact (proj1 (candidates_distinct_and_well_formed
                    2 4%Z (js "gl") [] candidates E)).
  - vm_compute in E. discriminate.
Defined.

(** ** The generator on a call stack of bounded depth *)

Lemma stack_build_unfold (fillCount : Z) (depth : nat) (current : jsstring) :
  StackDepth.build fillCount depth current =
  if (Z.of_nat (length current) =? fillCount)%Z
  then ([current], StackDepth.Returned)
  else
    match depth with
    | O => ([], StackDepth.RangeError)
    | S depth' =>
        StackDepth.yield_each
          (List.map (fun letter =>
                       StackDepth.build fillCount depth' (current ++ [letter]))
                    ALPHABET)
    end.
Proof. destruct depth; reflexivity. Qed.

Lemma yield_each_all {A : Type} (gens : list (StackDepth.ran A))
      (gens' : list (option (list A))) :
  Forall2 (fun g g' => forall l, g = (l, StackDepth.Returned) <-> g' = Some l)
          gens gens' ->
  forall l,
    StackDepth.yield_each gens = (l, StackDepth.Returned)
    <-> yield_all gens' = Some l.
Proof.
  induction 1 as [|g g' gs gs' Hg _ IH]; intros l; simpl.
  - split; intros [= <-]; reflexivity.
  - destruct g as [lg [|]].
    + rewrite (proj1 (Hg lg) eq_refl).
      destruct (StackDepth.yield_each gs) as [r [|]].
      * rewrite (proj1 (IH r) eq_refl). split; intros [= <-]; reflexivity.
      * destruct (yield_all gs') as [r'|].
        -- pose proof (proj2 (IH r') eq_refl). discriminate.
        -- split; discriminate.
    + destruct g' as [l'|].
      * pose proof (proj2 (Hg l') eq_refl). discriminate.
      * split; discriminate.
Qed.

Lemma Forall2_map_same {A B C : Type} (P : B -> C -> Prop)
      (f : A -> B) (g : A -> C) (l : list A) :
  (forall x, P (f x) (g x)) -> Forall2 P (List.map f l) (List.map g l).
Proof. intros H. induction l; simpl; constructor; auto. Qed.

(** A generator that returns on the bounded stack is the generator of
    [Generator], with the same values. *)
Lemma stack_build_returns (fillCount : Z) :
  forall depth current l,
    StackDepth.build fillCount depth current = (l, StackDepth.Returned)
    <-> build fillCount depth current = Some l.
Proof.
  induction depth as [|depth IH]; intros current l;
    rewrite stack_build_unfold, build_unfold;
    destruct (_ =? _)%Z.
  - split; intros [= <-]; reflexivity.
  - split; discriminate.
  - split; intros [= <-]; reflexivity.
  - apply yield_each_all. apply Forall2_map_same. intros letter l'. apply IH.
Qed.

Lemma stack_domainGenerator_returns
      (depth : nat) (len : Z) (prefix suffix : jsstring) (l : list jsstring) :
  StackDepth.domainGenerator depth len prefix suffix = (l, StackDepth.Returned)
  <-> domainGenerator depth len prefix suffix = Some l.
Proof.
  unfold StackDepth.domainGenerator, domainGenerator.
  destruct (_ =? 0)%Z; [split; intros [= <-]; reflexivity|].
  destruct (StackDepth.build _ depth []) as [middles [|]] eqn:E.
  - apply stack_build_returns in E. rewrite E.
    split; intros [= <-]; reflexivity.
  - destruct (build _ depth []) as [middles'|] eqn:E'.
    + apply stack_build_returns in E'. congruence.
    + split; discriminate.
Qed.

(** With [current] longer than [fillCount] every call makes another one:
    nothing is yielded when the stack is exhausted. *)
Lemma stack_build_exhausts (fillCount : Z) :
  forall depth current,
    (fillCount < Z.of_nat (length current))%Z ->
    StackDepth.build fillCount depth current = ([], StackDepth.RangeError).
Proof.
  induction depth as [|depth IH]; intros current H;
    rewrite stack_build_unfold;
    replace (_ =? _)%Z with false by (symmetry; apply Z.eqb_neq; lia);
    [reflexivity|].
  change ALPHABET with (97%N :: js "bcdefghijklmnopqrstuvwxyz").
  cbn [List.map StackDepth.yield_each].
  rewrite IH by (rewrite length_app; simpl; lia).
  reflexivity.
Qed.

(** X2.  With more fixed letters than the label has room for, the generator
    yields no candidate at all: [build] calls itself with an ever longer
    [current] that never has the length [fillCount], until the call stack
    is exhausted, however deep it is, and the generator ends with that
    RangeError, not by returning.  It is [readConfig] that keeps such
    arguments away from it. *)
Theorem generator_without_room_never_yields
        (len : Z) (prefix suffix : jsstring) (depth : nat) :
  (len < Z.of_nat (length prefix) + Z.of_nat (length suffix))%Z ->
  StackDepth.domainGenerator depth len prefix suffix
  = ([], StackDepth.RangeError)
  /\ domainGenerator depth len prefix suffix = None.
Proof.
  intros H. split.
  - unfold StackDepth.domainGenerator.
    replace (_ =? 0)%Z with false by (symmetry; apply Z.eqb_neq; lia).
    rewrite stack_build_exhausts; [reflexivity|simpl; lia].
  - unfold domainGenerator.
    replace (_ =? 0)%Z with false by (symmetry; apply Z.eqb_neq; lia).
    rewrite build_diverges; [reflexivity|simpl; lia].
Qed.

Lemma generator_without_room_never_yields_witness :
  StackDepth.domainGenerator 1000 3 (js "gl") (js "hf")
  = ([], StackDepth.RangeError).
Proof.
  apply (proj1 (generator_without_room_never_yields
                  3 (js "gl") (js "hf") 1000 ltac:(vm_compute; reflexivity))).
Defined.

(** ** The place of a candidate in the sequence *)

Lemma nth_error_blocks (ws : list jsstring) (n : nat) :
  length ws = n -> (0 < n)%nat ->
  forall (sub : jsstring) (i : nat),
    nth_error (flat_map (fun c => List.map (cons c) ws) sub) i =
    match nth_error sub (i / n), nth_error ws (i mod n) with
    | Some c, Some w => Some (c :: w)
    | _, _ => None
    end.
Proof.
  unfold jsstring in *.
  intros Hlen Hn. induction sub as [|c sub IH]; intros i.
  - simpl. destruct (i / n)%nat; destruct i; reflexivity.
  - cbn [flat_map]. destruct (Nat.lt_ge_cases i n) as [Hi | Hi].
    + rewrite nth_error_app1 by (rewrite length_map; lia).
      rewrite Nat.div_small, Nat.mod_small by assumption. simpl.
      rewrite nth_error_map. now destruct (nth_error ws i).
    + rewrite nth_error_app2 by (rewrite length_map; lia).
      rewrite length_map, Hlen, IH.
      assert (i / n = S ((i - n) / n))%nat as Hq.
      { replace i with ((i - n) + 1 * n)%nat at 1 by lia.
        rewrite Nat.div_add by lia. now rewrite Nat.add_1_r. }
      assert (i mod n = (i - n) mod n)%nat as Hr.
      { replace i with ((i - n) + 1 * n)%nat at 1 by lia.
        now rewrite Nat.Div0.mod_add. }
      now rewrite Hq, Hr.
Qed.

Lemma nth_error_ALPHABET (j : nat) :
  (j < 26)%nat -> nth_error ALPHABET j = Some (N.of_nat (97 + j)).
Proof.
  intros Hj.
  assert (forallb (fun k => match nth_error ALPHABET k with
                            | Some c => (c =? N.of_nat (97 + k))%N
                            | None => false
                            end) (seq 0 26) = true) as Hall
      by (vm_compute; reflexivity).
  rewrite forallb_forall in Hall. specialize (Hall j).
  destruct (nth_error ALPHABET j) as [c|].
  - f_equal. apply N.eqb_eq, Hall, in_seq. lia.
  - assert (false = true) by (apply Hall, in_seq; lia). discriminate.
Qed.

Lemma nth_error_words (k : nat) :
  forall i, (i < 26 ^ k)%nat ->
            nth_error (words ALPHABET k) i = Some (numeral k i).
Proof.
  induction k as [|k IH]; intros i Hi.
  - simpl in Hi. now replace i with 0%nat by lia.
  - cbn [words numeral]. simpl Nat.pow in Hi.
    assert (0 < 26 ^ k)%nat as Hpos by (apply Nat.neq_0_lt_0, Nat.pow_nonzero; lia).
    rewrite (nth_error_blocks (words ALPHABET k) (26 ^ k))
      by (rewrite ?words_length, ?ALPHABET_length; lia).
    rewrite nth_error_ALPHABET
      by (apply Nat.Div0.div_lt_upper_bound; lia).
    rewrite IH by (apply Nat.mod_upper_bound; lia).
    reflexivity.
Qed.

(** X19.  The place of a candidate in the sequence is its middle read as
    a number in base 26 with the digits a to z: candidate number [i],
    counted from 0, is the prefix, [i] written with [fillCount] such
    digits, and the suffix. *)
Theorem candidate_at_index
        (fuel : nat) (len : Z) (prefix suffix : jsstring)
        (candidates : list jsstring) (i : nat) :
  domainGenerator fuel len prefix suffix = Some candidates ->
  (i < length candidates)%nat ->
  nth_error candidates i =
  Some (prefix
          ++ numeral (Z.to_nat (len - Z.of_nat (length prefix)
                                - Z.of_nat (length suffix))) i
          ++ suffix).
Proof.
  intros H Hi. apply domainGenerator_some in H. destruct H as (k & -> & ->).
  rewrite length_map, words_length, ALPHABET_length in Hi.
  replace (Z.to_nat _) with k by lia.
  rewrite nth_error_map, nth_error_words by assumption. reflexivity.
Qed.

Lemma candidate_at_index_witness :
  nth_error (List.map (fun middle => js "gl" ++ middle ++ [])
                      (words ALPHABET 2)) 675
  = Some (js "gl" ++ js "zz" ++ []).
Proof.
  apply (candidate_at_index 2 4%Z (js "gl") []
           (List.map (fun middle => js "gl" ++ middle ++ []) (words ALPHABET 2))
           675).
  - vm_compute. reflexivity.
  - vm_compute. lia.
Defined.

End GeneratorFacts.

(* ================================================================== *)
(** * More on configuration reading *)
(* ================================================================== *)

Module ConfigFacts.
Import JS Config Whois Runs Traces Affix ClassifierProofs ConfigProofs.

(** ** The pattern of [validateAffix] *)

Lemma class_star_to_end (lo hi : N) (s : jsstring) :
  class_star lo hi (match_terms [AssertEnd] false) s = forallb (between lo hi) s.
Proof.
  induction s as [|c s IH]; simpl; [reflexivity|].
  destruct (between lo hi c); [|reflexivity].
  simpl in IH. rewrite IH. now destruct (forallb (between lo hi) s).
Qed.

Lemma search_past_begin (s : jsstring) : search affix_pattern false s = false.
Proof. induction s as [|c s IH]; simpl; [reflexivity|exact IH]. Qed.

Lemma test_affix_pattern (s : jsstring) :
  test affix_pattern s = forallb is_lower_az s.
Proof.
  unfold test. destruct s as [|c s]; [reflexivity|].
  pose proof (class_star_to_end 97 122 s) as Hstar. simpl in Hstar.
  simpl. rewrite Hstar, orb_false_r, search_past_begin.
  unfold is_lower_az.
  destruct (between 97 122 c); [|reflexivity].
  now destruct (forallb (between 97 122) s).
Qed.

(** X3.  [validateAffix] and the pattern it tests. Run by the matcher of the
    language, [/^$|^[a-z]+$/] accepts exactly the strings of a-z, the empty
    one included, and no string that ends with a line break; and
    [validateAffix] returns its argument exactly when it is a string the
    pattern accepts, and throws otherwise. *)
Theorem validateAffix_accepts_az :
  (forall s, test affix_pattern s = true <->
             Forall (fun c => is_lower_az c = true) s)
  /\ (forall s, test affix_pattern (s ++ [10%N]) = false)
  /\ (forall v name s,
         validateAffix v name = Ok s <->
         v = VString s /\ test affix_pattern s = true)
  /\ (forall v name,
         (forall s, v = VString s -> test affix_pattern s = false) ->
         exists err, validateAffix v name = Throw err).
Proof.
  split; [|split; [|split]].
  - intros s. rewrite test_affix_pattern, forallb_forall, Forall_forall.
    reflexivity.
  - intros s. rewrite test_affix_pattern, forallb_app. simpl.
    apply andb_false_r.
  - intros v name s. destruct v; simpl;
      try (split; [discriminate|intros [H _]; discriminate]).
    rewrite test_affix_pattern.
    destruct (forallb is_lower_az s0) eqn:E; simpl.
    + split.
      * intros [= ->]. now split.
      * intros [[= ->] _]. reflexivity.
    + split; [discriminate|]. intros [[= ->] H]. congruence.
  - intros v name H. destruct v; simpl; eauto.
    specialize (H s eq_refl). rewrite test_affix_pattern in H. rewrite H.
    simpl. eauto.
Qed.

Lemma validateAffix_accepts_az_witness :
  validateAffix (VString (js "gl")) (js "prefix") = Ok (js "gl").
Proof.
  apply (proj1 (proj2 (proj2 validateAffix_accepts_az))).
  split; [reflexivity|vm_compute; reflexivity].
Defined.

(** ** What an accepted configuration holds *)

Lemma validateAffix_lower (v : value) (name s : jsstring) :
  validateAffix v name = Ok s -> Forall (fun c => is_lower_az c = true) s.
Proof.
  destruct v; try discriminate. simpl.
  destruct (forallb is_lower_az s0) eqn:E; [|discriminate].
  intros [= <-]. apply Forall_forall. now apply forallb_forall.
Qed.

Lemma bad_interval_false (v : value) :
  bad_interval v = false ->
  exists q, v = VNumber (Fin q) /\ (0 <= q)%Q.
Proof.
  destruct v as [| | |n| |]; try discriminate.
  destruct n as [| | |q]; try discriminate. simpl.
  intros H. apply negb_false_iff, Qle_bool_iff in H. now exists q.
Qed.

Lemma accepted_is_valid
      (ToNumber : value -> number) (ToString : value -> jsstring)
      (file : config_file) (cfg : config) :
  readConfig ToNumber ToString file = Ok cfg ->
  (2 <= domainLength cfg <= 63)%Z
  /\ Forall (fun c => is_lower_az c = true) (prefix cfg)
  /\ Forall (fun c => is_lower_az c = true) (suffix cfg)
  /\ (Z.of_nat (length (prefix cfg)) + Z.of_nat (length (suffix cfg))
      < domainLength cfg)%Z
  /\ (exists q, intervalMs cfg = Fin q /\ (0 <= q)%Q)
  /\ In (topLevelDomain cfg) SUPPORTED_TLDS.
Proof.
  intros H. destruct (readConfig_valid _ _ _ _ H) as (Hlen & Hinv & Htld).
  apply readConfig_ok in H.
  destruct H as (p & s1 & s2 & _ & _ & _ & _ & E1 & E2 & _ & Hbad & _ & ->).
  cbn [domainLength prefix suffix intervalMs topLevelDomain] in *.
  apply validateAffix_lower in E1, E2.
  apply bad_interval_false in Hbad. destruct Hbad as (q & -> & Hq).
  repeat split; try assumption; try lia. now exists q.
Qed.

(** X4.  Every configuration [readConfig] returns is valid: the length is
    between 2 and 63, prefix and suffix are made of a-z and leave at least
    one letter to fill, the interval is a finite number that is not
    negative, and the top-level domain is one of the supported ones. *)
Theorem readConfig_returns_valid
        (ToNumber : value -> number) (ToString : value -> jsstring)
        (file : config_file) (cfg : config) :
  readConfig ToNumber ToString file = Ok cfg ->
  (2 <= domainLength cfg <= 63)%Z
  /\ Forall (fun c => is_lower_az c = true) (prefix cfg)
  /\ Forall (fun c => is_lower_az c = true) (suffix cfg)
  /\ (Z.of_nat (length (prefix cfg)) + Z.of_nat (length (suffix cfg))
      < domainLength cfg)%Z
  /\ (exists q, intervalMs cfg = Fin q /\ (0 <= q)%Q)
  /\ In (topLevelDomain cfg) SUPPORTED_TLDS.
Proof. exact (accepted_is_valid ToNumber ToString file cfg). Qed.

Lemma readConfig_returns_valid_witness :
  In (topLevelDomain (mkConfig 3 (js "ab") [] (of_Z 500) (js "de")))
     SUPPORTED_TLDS.
Proof.
  exact (proj2 (proj2 (proj2 (proj2 (proj2
           (readConfig_returns_valid no_number no_string three_letters
              (mkConfig 3 (js "ab") [] (of_Z 500) (js "de")) eq_refl)))))).
Defined.

(** ** The length *)

Lemma Qred_inject_Z (z : Z) : Qred (inject_Z z) = inject_Z z.
Proof.
  unfold Qred, inject_Z.
  pose proof (Z.ggcd_gcd z 1) as Hg.
  pose proof (Z.ggcd_correct_divisors z 1) as Hd.
  destruct (Z.ggcd z 1) as [g [a b]]. simpl in *.
  rewrite Z.gcd_1_r in Hg. subst g. destruct Hd as [Ha Hb].
  rewrite Z.mul_1_l in Ha, Hb. now subst.
Qed.

Lemma isInteger_of_Z (z : Z) : isInteger (of_Z z) = true.
Proof. unfold isInteger, of_Z. now rewrite Qred_inject_Z. Qed.

Lemma to_Z_of_Z (z : Z) : to_Z (of_Z z) = z.
Proof. unfold to_Z, of_Z. now rewrite Qred_inject_Z. Qed.

Lemma is_integer_iff (n : number) (z : Z) :
  is_integer n z <-> isInteger n = true /\ to_Z n = z.
Proof.
  split.
  - intros (q & -> & Hq). unfold isInteger, to_Z.
    rewrite (Qred_complete _ _ Hq).
    fold (of_Z z). pose proof (isInteger_of_Z z) as Hi.
    pose proof (to_Z_of_Z z) as Ht. unfold isInteger, to_Z, of_Z in Hi, Ht.
    now split.
  - intros [Hi <-]. destruct (integer_value _ Hi) as (q & -> & Hq).
    now exists q.
Qed.

(** The length check accepts the integers from 2 to 63. *)
Lemma length_check (n : number) :
  negb (isInteger n) || num_ltb n MIN_LENGTH || num_ltb MAX_LENGTH n = false <->
  exists z, is_integer n z /\ (2 <= z <= 63)%Z.
Proof.
  rewrite !orb_false_iff, negb_false_iff. split.
  - intros [[Hi Hmin] Hmax]. exists (to_Z n).
    split; [now apply is_integer_iff|].
    destruct (integer_value _ Hi) as (q & -> & Hq).
    unfold MIN_LENGTH, MAX_LENGTH, of_Z in *. cbn [num_ltb] in *.
    rewrite (Qle_bool_int_l _ _ _ Hq) in Hmin.
    rewrite (Qle_bool_int_r _ _ _ Hq) in Hmax.
    apply negb_false_iff in Hmin, Hmax. apply Z.leb_le in Hmin, Hmax. lia.
  - intros (z & Hz & Hrange). pose proof Hz as (q & -> & Hq).
    apply is_integer_iff in Hz. destruct Hz as [Hi _].
    unfold MIN_LENGTH, MAX_LENGTH, of_Z. cbn [num_ltb].
    rewrite (Qle_bool_int_l _ _ _ Hq), (Qle_bool_int_r _ _ _ Hq).
    repeat split; [assumption| |]; apply negb_false_iff, Z.leb_le; lia.
Qed.

(** X5.  [readConfig] throws the message about the length exactly when
    [Number(parsed.length)] is not an integer from 2 to 63, whatever the
    other fields hold: the length is checked first. In particular a file
    without [length] is refused with that message. *)
Theorem readConfig_length_checked_first
        (ToNumber : value -> number) (ToString : value -> jsstring) (p : parsed) :
  (readConfig ToNumber ToString (Parsed p) = Throw (Error length_message) <->
   ~ exists z, is_integer (Number_ ToNumber (p_length p)) z /\ (2 <= z <= 63)%Z)
  /\ (absent (p_length p) ->
      readConfig ToNumber ToString (Parsed p) = Throw (Error length_message)).
Proof.
  assert ((~ exists z, is_integer (Number_ ToNumber (p_length p)) z
                       /\ (2 <= z <= 63)%Z) ->
          readConfig ToNumber ToString (Parsed p) = Throw (Error length_message))
    as Hbad.
  { intros Hn. unfold readConfig. cbv zeta.
    destruct (negb (isInteger (Number_ ToNumber (p_length p)))
              || num_ltb (Number_ ToNumber (p_length p)) MIN_LENGTH
              || num_ltb MAX_LENGTH (Number_ ToNumber (p_length p))) eqn:E;
      [reflexivity|].
    apply length_check in E. contradiction. }
  split; [split; [|exact Hbad]|].
  - intros H Hgood. apply length_check in Hgood.
    unfold readConfig in H. cbv zeta in H. rewrite Hgood in H.
    destruct (validateAffix (nullish (p_prefix p) (VString [])) (js "prefix"))
      as [s1|e1] eqn:E1.
    + destruct (validateAffix (nullish (p_suffix p) (VString [])) (js "suffix"))
        as [s2|e2] eqn:E2.
      * cbn [bind] in H.
        destruct (num_geb _ _); [vm_compute in H; discriminate|].
        destruct (bad_interval _); [vm_compute in H; discriminate|].
        destruct (negb _); [vm_compute in H; discriminate|discriminate].
      * cbn [bind] in H. injection H as ->.
        destruct (nullish (p_suffix p) (VString [])); simpl in E2;
          try (vm_compute in E2; discriminate).
        destruct (negb (forallb is_lower_az s)); vm_compute in E2; discriminate.
    + cbn [bind] in H. injection H as ->.
      destruct (nullish (p_prefix p) (VString [])); simpl in E1;
        try (vm_compute in E1; discriminate).
      destruct (negb (forallb is_lower_az s)); vm_compute in E1; discriminate.
  - intros Habs. apply Hbad. intros (z & (q & Hq & Hz) & Hrange).
    destruct Habs as [Ha | Ha]; rewrite Ha in Hq; simpl in Hq.
    + discriminate.
    + injection Hq as <-. unfold Qeq in Hz. simpl in Hz. lia.
Qed.

Lemma readConfig_length_checked_first_witness :
  readConfig no_number no_string
             (Parsed (mkParsed VUndefined (VString (js "ab")) VUndefined
                               VUndefined VUndefined))
  = Throw (Error length_message).
Proof.
  apply (proj2 (readConfig_length_checked_first no_number no_string
                  (mkParsed VUndefined (VString (js "ab")) VUndefined
                            VUndefined VUndefined))).
  left. reflexivity.
Defined.

(** ** Missing keys *)

Lemma nullish_absent (v d : value) : absent v -> nullish v d = d.
Proof. now intros [-> | ->]. Qed.

(** X6.  [prefix], [suffix], [intervalMs] and [topLevelDomain] may be left
    out or be [null]: the configuration then holds the empty string, the
    empty string, 500 and [de]. A file that only gives a length from 2 to 63
    is accepted, with these values. *)
Theorem readConfig_defaults :
  (forall (ToNumber : value -> number) (ToString : value -> jsstring)
          (p : parsed) (cfg : config),
      readConfig ToNumber ToString (Parsed p) = Ok cfg ->
      (absent (p_prefix p) -> prefix cfg = [])
      /\ (absent (p_suffix p) -> suffix cfg = [])
      /\ (absent (p_intervalMs p) -> intervalMs cfg = DEFAULT_INTERVAL_MS)
      /\ (absent (p_topLevelDomain p) -> topLevelDomain cfg = js "de"))
  /\ (forall (ToNumber : value -> number) (ToString : value -> jsstring)
             (p : parsed) (n : Z),
         p_length p = VNumber (of_Z n) ->
         (2 <= n <= 63)%Z ->
         absent (p_prefix p) -> absent (p_suffix p) ->
         absent (p_intervalMs p) -> absent (p_topLevelDomain p) ->
         readConfig ToNumber ToString (Parsed p)
         = Ok (mkConfig n [] [] DEFAULT_INTERVAL_MS (js "de"))).
Proof.
  split.
  - intros ToNumber ToString p cfg H. apply readConfig_ok in H.
    destruct H as (p' & s1 & s2 & [= <-] & _ & _ & _ & E1 & E2 & _ & _ & _ & ->).
    cbn [prefix suffix intervalMs topLevelDomain].
    split; [|split; [|split]]; intros Ha.
    + rewrite (nullish_absent _ _ Ha) in E1. simpl in E1. congruence.
    + rewrite (nullish_absent _ _ Ha) in E2. simpl in E2. congruence.
    + now rewrite (nullish_absent _ _ Ha).
    + unfold chosen_tld. now rewrite (nullish_absent _ _ Ha).
  - intros ToNumber ToString p n Hlen Hrange Hp Hs Hi Ht.
    assert (negb (isInteger (of_Z n)) || num_ltb (of_Z n) MIN_LENGTH
            || num_ltb MAX_LENGTH (of_Z n) = false) as Hcheck.
    { apply length_check. exists n. split; [|assumption].
      exists (inject_Z n). split; reflexivity. }
    apply orb_false_iff in Hcheck. destruct Hcheck as [Hcheck Hmax].
    apply orb_false_iff in Hcheck. destruct Hcheck as [Hint Hmin].
    apply negb_false_iff in Hint.
    rewrite (readConfig_accepts ToNumber ToString p [] []).
    + rewrite Hlen. cbn [Number_]. rewrite to_Z_of_Z.
      rewrite (nullish_absent _ _ Hi). cbn [number_of].
      unfold chosen_tld. now rewrite (nullish_absent _ _ Ht).
    + now rewrite Hlen.
    + now rewrite Hlen.
    + now rewrite Hlen.
    + now rewrite (nullish_absent _ _ Hp).
    + now rewrite (nullish_absent _ _ Hs).
    + rewrite Hlen. cbn [Number_ length Nat.add]. unfold of_nat, of_Z.
      cbn [num_geb]. rewrite (Qle_bool_int_r (inject_Z n) n); [|reflexivity].
      apply Z.leb_gt. simpl. lia.
    + now rewrite (nullish_absent _ _ Hi).
    + unfold chosen_tld. now rewrite (nullish_absent _ _ Ht).
Qed.

Lemma readConfig_defaults_witness :
  readConfig no_number no_string
             (Parsed (mkParsed (VNumber (of_Z 5)) VUndefined VNull
                               VNull VUndefined))
  = Ok (mkConfig 5 [] [] DEFAULT_INTERVAL_MS (js "de")).
Proof.
  apply (proj2 readConfig_defaults no_number no_string
               (mkParsed (VNumber (of_Z 5)) VUndefined VNull VNull VUndefined)
               5%Z eq_refl).
  - lia.
  - now left.
  - now right.
  - now right.
  - now left.
Defined.

(** ** The interval *)

(** X7.  [intervalMs] is not converted: an accepted configuration had either
    no [intervalMs] (and holds 500) or a finite number that is not negative
    (and holds that very number). A string, even one that reads as a number,
    is refused. *)
Theorem readConfig_interval_not_converted
        (ToNumber : value -> number) (ToString : value -> jsstring)
        (p : parsed) (cfg : config) :
  readConfig ToNumber ToString (Parsed p) = Ok cfg ->
  ((absent (p_intervalMs p) /\ intervalMs cfg = DEFAULT_INTERVAL_MS)
   \/ (exists q, p_intervalMs p = VNumber (Fin q) /\ (0 <= q)%Q
                  /\ intervalMs cfg = Fin q))
  /\ (forall s, p_intervalMs p <> VString s).
Proof.
  intros H. apply readConfig_ok in H.
  destruct H as (p' & s1 & s2 & [= <-] & _ & _ & _ & _ & _ & _ & Hbad & _ & ->).
  cbn [intervalMs].
  destruct (p_intervalMs p) as [| | |n| |] eqn:E; simpl in Hbad |- *;
    try discriminate.
  - split; [left; split; [now left|reflexivity]|discriminate].
  - split; [left; split; [now right|reflexivity]|discriminate].
  - destruct (bad_interval_false (VNumber n) Hbad) as (q & [= ->] & Hq).
    split; [right; now exists q|discriminate].
Qed.

Lemma readConfig_interval_not_converted_witness :
  exists q,
    (0 <= q)%Q
    /\ intervalMs (mkConfig 3 (js "ab") [] (Fin (1 # 2)) (js "de")) = Fin q.
Proof.
  destruct (proj1 (readConfig_interval_not_converted no_number no_string
                     (mkParsed (VNumber (of_Z 3)) (VString (js "ab"))
                               VUndefined (VNumber (Fin (1 # 2))) VUndefined)
                     (mkConfig 3 (js "ab") [] (Fin (1 # 2)) (js "de"))
                     eq_refl))
    as [[[Ha | Ha] _] | (q & _ & Hq & Hi)].
  - discriminate Ha.
  - discriminate Ha.
  - now exists q.
Defined.

(** ** The two tables of top-level domains *)

(** X8.  [getWhoisProvider] has a provider exactly for the members of
    [SUPPORTED_TLDS], so the top-level domain of an accepted configuration
    always has one. *)
Theorem provider_exactly_for_supported :
  (forall tld, (exists p, getWhoisProvider tld = Ok p) <-> In tld SUPPORTED_TLDS)
  /\ (forall (ToNumber : value -> number) (ToString : value -> jsstring)
             (file : config_file) (cfg : config),
         readConfig ToNumber ToString file = Ok cfg ->
         exists p, getWhoisProvider (topLevelDomain cfg) = Ok p).
Proof.
  assert (forall tld, (exists p, getWhoisProvider tld = Ok p)
                      <-> In tld SUPPORTED_TLDS) as Hiff.
  { intros tld. split; [|apply supported_provider].
    intros [p Hp].
    destruct (has SUPPORTED_TLDS tld) eqn:E; [now apply has_In|].
    assert (~ In tld SUPPORTED_TLDS) as Hn
      by (intros Hin; apply has_In in Hin; congruence).
    rewrite (unsupported_provider _ Hn) in Hp. discriminate. }
  split; [exact Hiff|].
  intros ToNumber ToString file cfg H. apply Hiff.
  now destruct (readConfig_valid _ _ _ _ H) as (_ & _ & Htld).
Qed.

Lemma provider_exactly_for_supported_witness :
  exists p, getWhoisProvider (js "de") = Ok p.
Proof.
  apply (proj2 provider_exactly_for_supported no_number no_string three_letters
               (mkConfig 3 (js "ab") [] (of_Z 500) (js "de")) eq_refl).
Defined.

End ConfigFacts.

(* ================================================================== *)
(** * More on the classifiers and the lookup *)
(* ================================================================== *)

Module LookupFacts.
Import JS Text Whois Traces GeneratorProofs ClassifierProofs.

(** ** The letter case of the response *)

Lemma lower_az_cases (c : N) (P : N -> Prop) :
  is_lower_az c = true ->
  (forall x, In x Generator.ALPHABET -> P x) -> P c.
Proof. intros Hc H. apply H. now apply ALPHABET_az. Qed.

Lemma canonicalize_facts (c : N) :
  canonicalize (canonicalize c) = canonicalize c
  /\ is_space (canonicalize c) = is_space c
  /\ is_word (canonicalize c) = is_word c
  /\ lower_unit (canonicalize c) = lower_unit c.
Proof.
  destruct (is_lower_az c) eqn:E.
  - assert (canonicalize c = (c - 32)%N) as Hcan
      by (unfold canonicalize; now rewrite E).
    rewrite !Hcan.
    apply (lower_az_cases c
             (fun c => canonicalize (c - 32) = (c - 32)%N
                       /\ is_space (c - 32) = is_space c
                       /\ is_word (c - 32) = is_word c
                       /\ lower_unit (c - 32) = lower_unit c) E).
    intros x Hx. unfold Generator.ALPHABET in Hx. simpl in Hx.
    repeat (destruct Hx as [<- | Hx]; [repeat split; reflexivity|]).
    contradiction.
  - assert (canonicalize c = c) as Hcan
      by (unfold canonicalize; now rewrite E).
    rewrite !Hcan. repeat split; reflexivity.
Qed.

Lemma strip_ci_fold (p : jsstring) :
  forall s, strip_ci p (fold_case s) = option_map fold_case (strip_ci p s).
Proof.
  induction p as [|x p IH]; intros s; [reflexivity|].
  destruct s as [|c s]; [reflexivity|]. simpl.
  rewrite (proj1 (canonicalize_facts c)).
  destruct (canonicalize x =? canonicalize c)%N; [apply IH|reflexivity].
Qed.

Lemma trimStart_fold (s : jsstring) :
  trimStart (fold_case s) = fold_case (trimStart s).
Proof.
  induction s as [|c s IH]; [reflexivity|]. simpl.
  rewrite (proj1 (proj2 (canonicalize_facts c))).
  destruct (is_space c); [exact IH|reflexivity].
Qed.

Lemma take_while_fold (s : jsstring) :
  take_while is_word (fold_case s) = fold_case (take_while is_word s).
Proof.
  induction s as [|c s IH]; [reflexivity|]. simpl.
  rewrite (proj1 (proj2 (proj2 (canonicalize_facts c)))).
  destruct (is_word c); [simpl; now rewrite IH|reflexivity].
Qed.

Lemma status_at_fold (s : jsstring) :
  status_at (fold_case s) = option_map fold_case (status_at s).
Proof.
  unfold status_at. rewrite strip_ci_fold.
  destruct (strip_ci (js "Status:") s) as [rest|]; [|reflexivity]. simpl.
  rewrite trimStart_fold, take_while_fold.
  now destruct (take_while is_word (trimStart rest)).
Qed.

Lemma first_status_fold (s : jsstring) :
  first_status (fold_case s) = option_map fold_case (first_status s).
Proof.
  induction s as [|c s IH].
  - reflexivity.
  - rewrite (first_status_unfold (fold_case (c :: s))),
      (first_status_unfold (c :: s)), status_at_fold.
    destruct (status_at (c :: s)); [reflexivity|exact IH].
Qed.

Lemma contains_ci_fold (p s : jsstring) :
  contains_ci p (fold_case s) = contains_ci p s.
Proof.
  induction s as [|c s IH].
  - reflexivity.
  - rewrite (contains_ci_unfold p (fold_case (c :: s))),
      (contains_ci_unfold p (c :: s)), strip_ci_fold.
    destruct (strip_ci p (c :: s)); [reflexivity|exact IH].
Qed.

Lemma toLowerCase_fold (s : jsstring) :
  toLowerCase (fold_case s) = toLowerCase s.
Proof.
  unfold toLowerCase, fold_case. rewrite map_map. apply map_ext.
  intros c. apply canonicalize_facts.
Qed.

Lemma isAvailable_fold (tld : jsstring) (p : provider) (text : jsstring) :
  getWhoisProvider tld = Ok p ->
  isAvailable p (fold_case text) = isAvailable p text.
Proof.
  intros Hp. destruct (provider_cases _ _ Hp) as [-> | [-> | ->]].
  - rewrite !de_isAvailable_eq, first_status_fold.
    destruct (first_status text); simpl; [now rewrite toLowerCase_fold|reflexivity].
  - now rewrite !verisign_isAvailable_eq, contains_ci_fold.
  - rewrite !eu_isAvailable_eq, first_status_fold.
    destruct (first_status text); simpl; [now rewrite toLowerCase_fold|reflexivity].
Qed.

(** X9.  The verdict of every classifier of the program does not depend on
    the case of the letters a-z in the response: two responses that differ
    in letter case only get the same verdict. *)
Theorem verdict_ignores_letter_case
        (tld : jsstring) (p : provider) (text1 text2 : jsstring) :
  getWhoisProvider tld = Ok p ->
  same_letters text1 text2 ->
  isAvailable p text1 = isAvailable p text2.
Proof.
  intros Hp Hsame.
  rewrite <- (isAvailable_fold tld p text1 Hp), <- (isAvailable_fold tld p text2 Hp).
  unfold fold_case. now rewrite Hsame.
Qed.

Lemma verdict_ignores_letter_case_witness :
  de_isAvailable (js "DOMAIN: x.de status: FREE")
  = de_isAvailable (js "Domain: X.DE Status: free").
Proof.
  apply (verdict_ignores_letter_case (js "de")
           (mkProvider (js "whois.denic.de") de_isAvailable)).
  - reflexivity.
  - reflexivity.
Defined.

(** ** The message of a rejected lookup *)

Lemma trimStart_head (s : jsstring) (c : N) (r : jsstring) :
  trimStart s = c :: r -> is_space c = false.
Proof.
  induction s as [|x s IH]; simpl; [discriminate|].
  destruct (is_space x) eqn:E; [exact IH|]. now intros [= <- _].
Qed.

Lemma trimStart_keeps_end (l : jsstring) (c : N) :
  is_space c = false -> trimStart (l ++ [c]) = trimStart l ++ [c].
Proof.
  intros Hc. induction l as [|x l IH]; simpl; [now rewrite Hc|].
  destruct (is_space x); [exact IH|reflexivity].
Qed.

Lemma trimEnd_split (t : jsstring) :
  exists ws, t = trimEnd t ++ ws /\ Forall (fun c => is_space c = true) ws.
Proof.
  unfold trimEnd. destruct (trimStart_split (rev t)) as (ws & H & Hws).
  exists (rev ws). split.
  - rewrite <- rev_app_distr, <- H. now rewrite rev_involutive.
  - now apply Forall_rev.
Qed.

Lemma trim_trimmed (s : jsstring) : trimmed (trim s).
Proof.
  unfold trim. destruct (trimStart s) as [|c t] eqn:E; [exact I|].
  pose proof (trimStart_head _ _ _ E) as Hc.
  unfold trimEnd. simpl rev. rewrite trimStart_keeps_end by assumption.
  rewrite rev_app_distr. simpl. split; [assumption|].
  destruct (trimStart (rev t)) as [|d u] eqn:Eu; [exact Hc|].
  simpl rev. rewrite last_last.
  destruct (rev u ++ [d]); [exact Hc|exact (trimStart_head _ _ _ Eu)].
Qed.

Lemma trim_split (s : jsstring) :
  exists ws1 ws2,
    s = ws1 ++ trim s ++ ws2
    /\ Forall (fun c => is_space c = true) ws1
    /\ Forall (fun c => is_space c = true) ws2.
Proof.
  destruct (trimStart_split s) as (ws1 & H1 & Hws1).
  destruct (trimEnd_split (trimStart s)) as (ws2 & H2 & Hws2).
  exists ws1, ws2. unfold trim. now rewrite <- H2, <- H1.
Qed.

(** X10.  When the child process closes with a code other than 0 and a
    non-empty error stream, the lookup is rejected with the error stream
    without the white space around it: the message has no white space at
    either end, and only white space was cut off. An error stream of white
    space only gives the empty message, and still a rejected lookup. This
    holds for every provider. *)
Theorem rejected_message_is_trimmed
        (spawn : spawner) (fqdn : jsstring) (p : provider)
        (code : option Z) (out errs : jsstring) :
  spawn (js "whois") [js "-h"; host p; fqdn] = Closed code out errs ->
  code <> Some 0%Z ->
  errs <> [] ->
  exists msg,
    whoisLookup spawn fqdn p = Rejected (Error msg)
    /\ trimmed msg
    /\ (exists ws1 ws2,
           errs = ws1 ++ msg ++ ws2
           /\ Forall (fun c => is_space c = true) ws1
           /\ Forall (fun c => is_space c = true) ws2)
    /\ (Forall (fun c => is_space c = true) errs -> msg = []).
Proof.
  intros Hspawn Hcode Herrs. exists (trim errs).
  split; [|split; [|split]].
  - unfold whoisLookup. rewrite Hspawn.
    assert (code_not_zero code = true) as ->.
    { destruct code as [z|]; [|reflexivity]. simpl.
      apply negb_true_iff, Z.eqb_neq. congruence. }
    destruct errs; [contradiction|reflexivity].
  - apply trim_trimmed.
  - apply trim_split.
  - intros Hall. pose proof (trim_trimmed errs) as Ht.
    destruct (trim_split errs) as (ws1 & ws2 & Hs & _ & _).
    destruct (trim errs) as [|c m]; [reflexivity|].
    destruct Ht as [Hc _]. rewrite Hs in Hall.
    apply Forall_app in Hall. destruct Hall as [_ Hall].
    inversion Hall; subst. congruence.
Qed.

Lemma rejected_message_is_trimmed_witness :
  exists msg,
    whoisLookup (fun _ _ => Closed (Some 2%Z) [] (js "  timeout" ++ LF))
                (js "aba.de") (mkProvider (js "whois.denic.de") de_isAvailable)
    = Rejected (Error msg)
    /\ trimmed msg.
Proof.
  destruct (rejected_message_is_trimmed
              (fun _ _ => Closed (Some 2%Z) [] (js "  timeout" ++ LF))
              (js "aba.de") (mkProvider (js "whois.denic.de") de_isAvailable)
              (Some 2%Z) [] (js "  timeout" ++ LF) eq_refl)
    as (msg & H & Ht & _).
  - discriminate.
  - discriminate.
  - now exists msg.
Defined.

End LookupFacts.

(* ================================================================== *)
(** * More on runs *)
(* ================================================================== *)

Module RunFacts.
Import JS Config Generator Whois Runner Runs Traces.
Import GeneratorProofs ClassifierProofs RunnerProofs ConfigProofs.
Import GeneratorFacts ConfigFacts.

Lemma lookups_app (a b : list event) : lookups (a ++ b) = lookups a ++ lookups b.
Proof. apply flat_map_app. Qed.

Lemma delays_app (a b : list event) : delays (a ++ b) = delays a ++ delays b.
Proof. apply flat_map_app. Qed.

Lemma reported_available_app (a b : list event) :
  reported_available (a ++ b) = reported_available a ++ reported_available b.
Proof. apply flat_map_app. Qed.

Lemma reported_taken_app (a b : list event) :
  reported_taken (a ++ b) = reported_taken a ++ reported_taken b.
Proof. apply flat_map_app. Qed.

Lemma reported_errors_app (a b : list event) :
  reported_errors (a ++ b) = reported_errors a ++ reported_errors b.
Proof. apply flat_map_app. Qed.

Lemma emit_inv (evs tr : list event) (r : list event * exit) (ex : exit) :
  emit evs r = (tr, ex) -> exists tr', r = (tr', ex) /\ tr = evs ++ tr'.
Proof.
  destruct r as [tr' ex']. unfold emit. simpl. intros [= <- ->]. now exists tr'.
Qed.

Section Loop.
Variable spawn : nat -> spawner.
Variable cfg : config.
Variable p : provider.

Lemma asked_lookups (st : state) (domain : jsstring) :
  lookups (asked cfg p st domain) = [(host p, fqdn_of cfg domain)].
Proof. unfold asked. now destruct (0 <? checked st)%nat. Qed.

Lemma asked_delays (st : state) (domain : jsstring) :
  delays (asked cfg p st domain)
  = if (0 <? checked st)%nat then [intervalMs cfg] else [].
Proof. unfold asked. now destruct (0 <? checked st)%nat. Qed.

Lemma asked_reports (st : state) (domain : jsstring) :
  reported_available (asked cfg p st domain) = []
  /\ reported_taken (asked cfg p st domain) = []
  /\ reported_errors (asked cfg p st domain) = [].
Proof. unfold asked. now destruct (0 <? checked st)%nat. Qed.

(** The loop, candidate by candidate, when it reaches the summary. *)
Lemma loop_step (i : nat) (st : state) (domain : jsstring)
      (rest : list jsstring) (tr : list event) (st' : state) :
  loop spawn cfg p i st (domain :: rest) = (tr, Summary st') ->
  exists verdict st1 tr',
    loop spawn cfg p (S i) st1 rest = (tr', Summary st')
    /\ tr = asked cfg p st domain ++ [verdict] ++ tr'
    /\ ((verdict = EAvailable (fqdn_of cfg domain)
         /\ classified spawn cfg p (i, domain) = true
         /\ st1 = mkState (S (checked st)) (taken st)
                          (availableDomains st ++ [fqdn_of cfg domain]))
        \/ (verdict = ETaken (fqdn_of cfg domain)
            /\ classified spawn cfg p (i, domain) = true
            /\ st1 = mkState (S (checked st)) (S (taken st))
                             (availableDomains st))
        \/ (exists msg, verdict = EError (fqdn_of cfg domain) msg
                        /\ classified spawn cfg p (i, domain) = false
                        /\ st1 = st)).
Proof.
  rewrite loop_cons. unfold classified, outcome. simpl fst. simpl snd.
  destruct (whoisLookup (spawn i) (fqdn_of cfg domain) p) as [r|err|err].
  - destruct (available r); intros H; apply emit_inv in H;
      destruct H as (tr' & H & ->); eexists _, _, tr';
      (split; [exact H|]); (split; [now rewrite <- app_assoc|]).
    + left. repeat split.
    + right. left. repeat split.
  - intros H. apply emit_inv in H. destruct H as (tr' & H & ->).
    eexists _, _, tr'. split; [exact H|]. split; [now rewrite <- app_assoc|].
    right. right. now exists (message err).
  - discriminate.
Qed.

Lemma lookups_of_loop :
  forall domains i st tr st',
    loop spawn cfg p i st domains = (tr, Summary st') ->
    lookups tr = List.map (fun d => (host p, fqdn_of cfg d)) domains.
Proof.
  induction domains as [|domain rest IH]; intros i st tr st' H.
  - simpl in H. now injection H as <- _.
  - apply loop_step in H.
    destruct H as (verdict & st1 & tr' & Hrest & -> & Hv).
    rewrite !lookups_app, asked_lookups. simpl List.map.
    rewrite (IH _ _ _ _ Hrest).
    now destruct Hv as [(-> & _) | [(-> & _) | (msg & -> & _)]].
Qed.

Lemma reports_of_loop :
  forall domains i st tr st',
    loop spawn cfg p i st domains = (tr, Summary st') ->
    availableDomains st' = availableDomains st ++ reported_available tr
    /\ taken st' = (taken st + length (reported_taken tr))%nat
    /\ checked st' = (checked st + length (reported_available tr)
                      + length (reported_taken tr))%nat
    /\ (length (reported_available tr) + length (reported_taken tr)
        + length (reported_errors tr))%nat = length domains.
Proof.
  induction domains as [|domain rest IH]; intros i st tr st' H.
  - simpl in H. injection H as <- <-. simpl. rewrite app_nil_r.
    repeat split; lia.
  - apply loop_step in H.
    destruct H as (verdict & st1 & tr' & Hrest & -> & Hv).
    destruct (asked_reports st domain) as (Ha & Ht & He).
    rewrite !reported_available_app, !reported_taken_app, !reported_errors_app.
    rewrite Ha, Ht, He.
    destruct (IH _ _ _ _ Hrest) as (IHa & IHt & IHc & IHn).
    destruct Hv as [(-> & _ & ->) | [(-> & _ & ->) | (msg & -> & _ & ->)]];
      simpl in *; rewrite IHa, IHt, IHc; repeat split; try lia.
    now rewrite <- app_assoc.
Qed.

(** Once a candidate has been classified every candidate is delayed. *)
Lemma delays_after_classified :
  forall domains i st tr st',
    (0 < checked st)%nat ->
    loop spawn cfg p i st domains = (tr, Summary st') ->
    delays tr = repeat (intervalMs cfg) (length domains).
Proof.
  induction domains as [|domain rest IH]; intros i st tr st' Hpos H.
  - simpl in H. now injection H as <- _.
  - apply loop_step in H.
    destruct H as (verdict & st1 & tr' & Hrest & -> & Hv).
    rewrite !delays_app, asked_delays.
    replace (0 <? checked st)%nat with true
      by (symmetry; now apply Nat.ltb_lt).
    assert (0 < checked st1)%nat as Hpos1
      by (destruct Hv as [(_ & _ & ->) | [(_ & _ & ->) | (msg & _ & _ & ->)]];
          simpl; lia).
    rewrite (IH _ _ _ _ Hpos1 Hrest).
    now destruct Hv as [(-> & _) | [(-> & _) | (msg & -> & _)]].
Qed.

Lemma delays_of_loop :
  forall domains i st tr st',
    checked st = 0%nat ->
    loop spawn cfg p i st domains = (tr, Summary st') ->
    delays tr =
    repeat (intervalMs cfg)
           (length (after_first (classified spawn cfg p) (dispatches i domains))).
Proof.
  induction domains as [|domain rest IH]; intros i st tr st' Hzero H.
  - simpl in H. now injection H as <- _.
  - apply loop_step in H.
    destruct H as (verdict & st1 & tr' & Hrest & -> & Hv).
    rewrite !delays_app, asked_delays, Hzero. rewrite dispatches_cons.
    cbn [Nat.ltb Nat.leb app after_first].
    destruct Hv as [(-> & -> & ->) | [(-> & -> & ->) | (msg & -> & -> & ->)]];
      cbn [delays flat_map app].
    + pose proof (fun Hp => delays_after_classified rest (S i) _ tr' st' Hp Hrest) as Hd.
      rewrite Hd by (simpl; lia).
      unfold dispatches. now rewrite length_combine, length_seq, Nat.min_id.
    + pose proof (fun Hp => delays_after_classified rest (S i) _ tr' st' Hp Hrest) as Hd.
      rewrite Hd by (simpl; lia).
      unfold dispatches. now rewrite length_combine, length_seq, Nat.min_id.
    + exact (IH _ _ _ _ Hzero Hrest).
Qed.

(** The trace of the loop, candidate by candidate. *)
Lemma loop_step_report (i : nat) (st : state) (domain : jsstring)
      (rest : list jsstring) (tr : list event) (st' : state) :
  loop spawn cfg p i st (domain :: rest) = (tr, Summary st') ->
  exists st1 tr',
    loop spawn cfg p (S i) st1 rest = (tr', Summary st')
    /\ tr = asked cfg p st domain
            ++ report (fqdn_of cfg domain) (outcome spawn cfg p (i, domain))
            ++ tr'
    /\ (0 <? checked st1)%nat
       = (0 <? checked st)%nat || classified spawn cfg p (i, domain).
Proof.
  rewrite loop_cons. unfold classified, outcome. simpl fst. simpl snd.
  destruct (whoisLookup (spawn i) (fqdn_of cfg domain) p) as [r|err|err];
    cbn [report].
  - destruct (available r); intros H; apply emit_inv in H;
      destruct H as (tr' & H & ->); eexists _, tr';
      (split; [exact H|]); (split; [now rewrite <- app_assoc|]);
      simpl; now rewrite orb_true_r.
  - intros H. apply emit_inv in H. destruct H as (tr' & H & ->).
    eexists _, tr'. split; [exact H|]. split; [now rewrite <- app_assoc|].
    now rewrite orb_false_r.
  - discriminate.
Qed.

Lemma existsb_snoc {A : Type} (f : A -> bool) (l : list A) (x : A) :
  existsb f (l ++ [x]) = existsb f l || f x.
Proof. rewrite existsb_app. simpl. now rewrite orb_false_r. Qed.

Lemma trace_of_loop :
  forall domains i st tr st' earlier,
    (0 <? checked st)%nat = existsb (classified spawn cfg p) earlier ->
    loop spawn cfg p i st domains = (tr, Summary st') ->
    tr = paced spawn cfg p earlier (dispatches i domains).
Proof.
  induction domains as [|domain rest IH]; intros i st tr st' earlier Hpos H.
  - simpl in H. now injection H as <- _.
  - apply loop_step_report in H.
    destruct H as (st1 & tr' & Hrest & -> & Hpos1).
    rewrite dispatches_cons. cbn [paced fst snd]. unfold asked.
    rewrite Hpos, <- !app_assoc. do 3 f_equal.
    apply (fun Hearlier => IH _ _ _ _ (earlier ++ [(i, domain)]) Hearlier Hrest).
    now rewrite Hpos1, Hpos, existsb_snoc.
Qed.
End Loop.

Lemma filter_after_first {A} (ok : A -> bool) (l : list A) :
  (length (filter ok l) <= S (length (after_first ok l)))%nat.
Proof.
  induction l as [|x l IH]; simpl; [lia|].
  destruct (ok x); simpl; [|exact IH].
  pose proof (filter_length_le ok l). lia.
Qed.

(** X11.  Every candidate is looked up once, in the order of the generator,
    at the host of the provider, when the loop reaches the summary. *)
Theorem every_candidate_looked_up_once
        (spawn : nat -> spawner) (cfg : config) (p : provider)
        (domains : list jsstring) (i : nat) (st : state)
        (tr : list event) (st' : state) :
  loop spawn cfg p i st domains = (tr, Summary st') ->
  lookups tr = List.map (fun d => (host p, fqdn_of cfg d)) domains.
Proof. apply lookups_of_loop. Qed.

Lemma every_candidate_looked_up_once_witness :
  lookups (fst (loop mixed_answers
                     (mkConfig 3 (js "ab") [] (of_Z 500) (js "de"))
                     (mkProvider (js "whois.denic.de") de_isAvailable)
                     0 initial [js "aba"; js "abb"; js "abc"]))
  = [(js "whois.denic.de", js "aba.de"); (js "whois.denic.de", js "abb.de");
     (js "whois.denic.de", js "abc.de")].
Proof.
  apply (every_candidate_looked_up_once mixed_answers
           (mkConfig 3 (js "ab") [] (of_Z 500) (js "de"))
           (mkProvider (js "whois.denic.de") de_isAvailable)
           [js "aba"; js "abb"; js "abc"] 0%nat initial _
           (mkState 2 1 [js "abb.de"])).
  vm_compute. reflexivity.
Defined.

(** X12.  What the loop prints for the candidates agrees with its summary:
    the available names are the names printed AVAILABLE, in that order,
    [taken] counts the names printed TAKEN, [checked] counts both, and every
    candidate is printed exactly once, as AVAILABLE, TAKEN or with an error. *)
Theorem reports_agree_with_summary
        (spawn : nat -> spawner) (cfg : config) (p : provider)
        (domains : list jsstring) (tr : list event) (st : state) :
  loop spawn cfg p 0 initial domains = (tr, Summary st) ->
  availableDomains st = reported_available tr
  /\ taken st = length (reported_taken tr)
  /\ checked st = (length (reported_available tr) + length (reported_taken tr))%nat
  /\ (checked st + length (reported_errors tr))%nat = length domains.
Proof.
  intros H. apply reports_of_loop in H. simpl in H.
  destruct H as (Ha & Ht & Hc & Hn). repeat split; try assumption; lia.
Qed.

Lemma reports_agree_with_summary_witness :
  checked (mkState 2 1 [js "abb.de"])
  = (length (reported_available
               (fst (loop mixed_answers
                          (mkConfig 3 (js "ab") [] (of_Z 500) (js "de"))
                          (mkProvider (js "whois.denic.de") de_isAvailable)
                          0 initial [js "aba"; js "abb"; js "abc"])))
     + length (reported_taken
                 (fst (loop mixed_answers
                            (mkConfig 3 (js "ab") [] (of_Z 500) (js "de"))
                            (mkProvider (js "whois.denic.de") de_isAvailable)
                            0 initial [js "aba"; js "abb"; js "abc"]))))%nat.
Proof.
  pose proof (reports_agree_with_summary mixed_answers
                (mkConfig 3 (js "ab") [] (of_Z 500) (js "de"))
                (mkProvider (js "whois.denic.de") de_isAvailable)
                [js "aba"; js "abb"; js "abc"]
                (fst (loop mixed_answers
                           (mkConfig 3 (js "ab") [] (of_Z 500) (js "de"))
                           (mkProvider (js "whois.denic.de") de_isAvailable)
                           0 initial [js "aba"; js "abb"; js "abc"]))
                (mkState 2 1 [js "abb.de"])
                ltac:(vm_compute; reflexivity)) as (_ & _ & H & _).
  exact H.
Defined.

(** X13.  The delays of a run.  [delay] is called with the configured
    [intervalMs] and with nothing else, and it is called exactly before the
    lookup of each candidate that has a classified candidate before it:
    the trace of the loop is, candidate by candidate, that call when an
    earlier candidate was classified, the lookup, and the report.  So
    between two classified candidates the loop always calls [delay], and a
    run that has classified [checked] candidates has called it at least
    [checked - 1] times and at most once less than there are candidates.
    (How long the timer then waits is its own matter and not part of the
    statement.) *)
Theorem delays_follow_first_classified
        (spawn : nat -> spawner) (cfg : config) (p : provider)
        (domains : list jsstring) (tr : list event) (st : state) :
  loop spawn cfg p 0 initial domains = (tr, Summary st) ->
  tr = paced spawn cfg p [] (dispatches 0 domains)
  /\ delays tr =
     repeat (intervalMs cfg)
            (length (after_first (classified spawn cfg p) (dispatches 0 domains)))
  /\ (checked st <= S (length (delays tr)))%nat
  /\ (length (delays tr) <= length domains - 1)%nat.
Proof.
  intros H.
  pose proof (delays_of_loop spawn cfg p domains 0%nat initial tr st eq_refl H)
    as Hd.
  split; [exact (trace_of_loop spawn cfg p domains 0%nat initial tr st [] eq_refl H)|].
  split; [exact Hd|]. rewrite Hd, repeat_length. split.
  - destruct (loop_summary _ _ _ _ _ _ _ _ H) as (-> & _). simpl.
    apply filter_after_first.
  - assert (forall A (ok : A -> bool) l,
               (length (after_first ok l) <= length l - 1)%nat) as Hle.
    { intros A ok l. induction l as [|x l IH]; simpl; [lia|].
      destruct (ok x); lia. }
    specialize (Hle _ (classified spawn cfg p) (dispatches 0 domains)).
    unfold dispatches in Hle at 2.
    now rewrite length_combine, length_seq, Nat.min_id in Hle.
Qed.

Lemma delays_follow_first_classified_witness :
  fst (loop first_spawn_fails
            (mkConfig 3 (js "ab") [] (of_Z 500) (js "de"))
            (mkProvider (js "whois.denic.de") de_isAvailable)
            0 initial [js "aba"; js "abb"; js "abc"; js "abd"])
  = paced first_spawn_fails
          (mkConfig 3 (js "ab") [] (of_Z 500) (js "de"))
          (mkProvider (js "whois.denic.de") de_isAvailable)
          [] (dispatches 0 [js "aba"; js "abb"; js "abc"; js "abd"]).
Proof.
  apply (proj1 (delays_follow_first_classified first_spawn_fails
           (mkConfig 3 (js "ab") [] (of_Z 500) (js "de"))
           (mkProvider (js "whois.denic.de") de_isAvailable)
           [js "aba"; js "abb"; js "abc"; js "abd"] _
           (mkState 3 3 [])
           ltac:(vm_compute; reflexivity))).
Defined.

(** ** Whole runs *)

(** X14.  The ends a run can have.  With fuel for the longest label, a run
    that has ended has done so in one of two ways: with a configuration
    error, before anything else has happened, and exactly when [readConfig]
    throws; or with the summary.  The throw of [getWhoisProvider], an
    exception of a classifier and a generator that fails are not reached
    from [run], and more fuel changes nothing.  (Every child process of
    the model comes to an end, by closing or by failing to start.  The
    source sets no time limit for a child that does neither: such a run
    waits for ever, has no end, and is none of the runs spoken of here.) *)
Theorem run_ends_in_error_or_summary
        (ToNumber : value -> number) (ToString : value -> jsstring)
        (spawn : nat -> spawner) (file : config_file) (fuel : nat)
        (tr : list event) (ex : exit) :
  (63 <= fuel)%nat ->
  run ToNumber ToString spawn file fuel = (tr, ex) ->
  ((exists err,
       readConfig ToNumber ToString file = Throw err
       /\ tr = [] /\ ex = ConfigurationError (message err))
   \/ (exists cfg st,
          readConfig ToNumber ToString file = Ok cfg /\ ex = Summary st))
  /\ (forall msg, ex <> UnexpectedError msg)
  /\ (forall err, ex <> UncaughtException err)
  /\ ex <> OutOfFuel
  /\ (forall fuel', (63 <= fuel')%nat ->
                    run ToNumber ToString spawn file fuel' = (tr, ex)).
Proof.
  intros Hfuel Hrun.
  assert ((exists err,
              readConfig ToNumber ToString file = Throw err
              /\ tr = [] /\ ex = ConfigurationError (message err))
          \/ (exists cfg st,
                 readConfig ToNumber ToString file = Ok cfg /\ ex = Summary st))
    as Hends.
  { destruct (readConfig ToNumber ToString file) as [cfg|err] eqn:E.
    - right. destruct (RunSpec.run_completes ToNumber ToString spawn file cfg
                         fuel E Hfuel) as (tr0 & st & H).
      rewrite H in Hrun. injection Hrun as <- <-. now exists cfg, st.
    - left. exists err. unfold run in Hrun. rewrite E in Hrun.
      injection Hrun as <- <-. repeat split. }
  split; [exact Hends|].
  split; [|split; [|split]].
  - intros msg ->. destruct Hends as [(err & _ & _ & H) | (cfg & st & _ & H)];
      discriminate.
  - intros err ->. destruct Hends as [(err' & _ & _ & H) | (cfg & st & _ & H)];
      discriminate.
  - intros ->. destruct Hends as [(err & _ & _ & H) | (cfg & st & _ & H)];
      discriminate.
  - intros fuel' Hfuel'. rewrite <- Hrun. unfold run.
    destruct (readConfig ToNumber ToString file) as [cfg|err] eqn:E;
      [|reflexivity].
    destruct (readConfig_valid _ _ _ _ E) as (Hlen & Hinv & _).
    destruct (getWhoisProvider (topLevelDomain cfg)); [|reflexivity].
    now rewrite !domainGenerator_words by lia.
Qed.

Lemma run_ends_in_error_or_summary_witness :
  exists cfg st,
    readConfig no_number no_string three_letters = Ok cfg
    /\ Summary (mkState 25 24 [js "abb.de"]) = Summary st.
Proof.
  destruct (proj1 (run_ends_in_error_or_summary no_number no_string
                     mixed_answers three_letters 63
                     (fst (run no_number no_string mixed_answers three_letters 63))
                     (Summary (mkState 25 24 [js "abb.de"]))
                     ltac:(lia)
                     ltac:(vm_compute; reflexivity)))
    as [(err & Herr & _) | H].
  - vm_compute in Herr. discriminate.
  - exact H.
Defined.

Lemma NoDup_lookups (h tld : jsstring) (domains : list jsstring) :
  NoDup domains ->
  NoDup (List.map (fun d => (h, d ++ js "." ++ tld)) domains).
Proof.
  induction 1 as [|x l Hx Hnd IH]; simpl; constructor; [|assumption].
  intros Hin. apply in_map_iff in Hin. destruct Hin as (y & Hy & Hin).
  injection Hy as Hy. apply app_inv_tail in Hy. now subst.
Qed.

(** X15.  A run that reaches the summary has looked up [26^fillCount] names,
    each once, all at the host of the provider of the configured top-level
    domain; every name is a label of [domainLength] letters a-z that starts
    with the prefix and ends with the suffix, followed by a dot and the
    top-level domain. *)
Theorem run_looks_up_well_formed_names
        (ToNumber : value -> number) (ToString : value -> jsstring)
        (spawn : nat -> spawner) (file : config_file) (fuel : nat)
        (tr : list event) (st : state) :
  run ToNumber ToString spawn file fuel = (tr, Summary st) ->
  exists cfg p,
    readConfig ToNumber ToString file = Ok cfg
    /\ getWhoisProvider (topLevelDomain cfg) = Ok p
    /\ NoDup (lookups tr)
    /\ Z.of_nat (length (lookups tr))
       = (26 ^ (domainLength cfg - Z.of_nat (length (prefix cfg))
                - Z.of_nat (length (suffix cfg))))%Z
    /\ forall h f,
        In (h, f) (lookups tr) ->
        h = host p
        /\ exists label,
            f = label ++ js "." ++ topLevelDomain cfg /\ label_of cfg label.
Proof.
  unfold run.
  destruct (readConfig ToNumber ToString file) as [cfg|] eqn:Hcfg; [|discriminate].
  destruct (getWhoisProvider (topLevelDomain cfg)) as [p|] eqn:Hp; [|discriminate].
  destruct (domainGenerator fuel _ _ _) as [domains|] eqn:Hgen; [|discriminate].
  intros H. apply lookups_of_loop in H.
  destruct (generated_labels _ _ _ _ _ Hgen) as (Hnd & Hlen & Hlabels).
  destruct (accepted_is_valid _ _ _ _ Hcfg) as (_ & Hpre & Hsuf & _).
  exists cfg, p. split; [reflexivity|]. split; [exact Hp|].
  rewrite H. split; [|split].
  - now apply NoDup_lookups.
  - now rewrite length_map.
  - intros h f Hin. apply in_map_iff in Hin.
    destruct Hin as (label & [= <- <-] & Hin). split; [reflexivity|].
    exists label. split; [reflexivity|].
    destruct (Hlabels label Hin) as (Hl & Hm & Haz).
    repeat split; [assumption|now apply Haz|assumption].
Qed.

Lemma run_looks_up_well_formed_names_witness :
  exists cfg p,
    readConfig no_number no_string three_letters = Ok cfg
    /\ getWhoisProvider (topLevelDomain cfg) = Ok p
    /\ NoDup (lookups (fst (run no_number no_string mixed_answers three_letters 1))).
Proof.
  destruct (run_looks_up_well_formed_names no_number no_string mixed_answers
              three_letters 1
              (fst (run no_number no_string mixed_answers three_letters 1))
              (mkState 25 24 [js "abb.de"])
              ltac:(vm_compute; reflexivity))
    as (cfg & p & Hcfg & Hp & Hnd & _).
  exists cfg, p. split; [exact Hcfg|]. split; [exact Hp|exact Hnd].
Defined.

End RunFacts.

(* ================================================================== *)
(** * The report *)
(* ================================================================== *)

Module ReportFacts.
Import JS Config Generator Whois Runner Runs Report Traces.
Import GeneratorProofs RunnerProofs ConfigProofs GeneratorFacts ConfigFacts.

(** ** Decimal numbers as strings *)

Lemma unjs_js (s : String.string) : unjs (js s) = s.
Proof.
  unfold unjs, js. rewrite map_map.
  rewrite (map_ext _ (fun a => a)) by apply ascii_N_embedding.
  rewrite map_id. apply string_of_list_ascii_of_string.
Qed.

Lemma to_int_nonneg (z : Z) :
  (0 <= z)%Z -> Z.to_int z = Decimal.Pos (N.to_uint (Z.to_N z)).
Proof. destruct z; [reflexivity|reflexivity|lia]. Qed.

Lemma to_uint_nonnil (n : N) : N.to_uint n <> Decimal.Nil.
Proof.
  destruct n; [discriminate|]. apply DecimalPos.Unsigned.to_uint_nonnil.
Qed.

Lemma toString_nonneg (z : Z) :
  (0 <= z)%Z ->
  toString z = js (DecimalString.NilEmpty.string_of_uint (N.to_uint (Z.to_N z))).
Proof.
  intros Hz. unfold toString. rewrite (to_int_nonneg z Hz). simpl.
  pose proof (to_uint_nonnil (Z.to_N z)) as Hn.
  now destruct (N.to_uint (Z.to_N z)).
Qed.

Lemma string_of_uint_digits (d : Decimal.uint) :
  Forall (fun c => is_digit c = true)
         (js (DecimalString.NilEmpty.string_of_uint d)).
Proof. induction d; simpl; constructor; (reflexivity || assumption). Qed.

Lemma string_of_uint_nonempty (d : Decimal.uint) :
  d <> Decimal.Nil -> js (DecimalString.NilEmpty.string_of_uint d) <> [].
Proof. destruct d; [contradiction| | | | | | | | | |]; discriminate. Qed.

Lemma toString_digits (z : Z) :
  (0 <= z)%Z -> Forall (fun c => is_digit c = true) (toString z).
Proof. intros Hz. rewrite toString_nonneg by assumption. apply string_of_uint_digits. Qed.

Lemma toString_nonempty (z : Z) : (0 <= z)%Z -> toString z <> [].
Proof.
  intros Hz. rewrite toString_nonneg by assumption.
  apply string_of_uint_nonempty, to_uint_nonnil.
Qed.

Lemma read_number_toString (z : Z) :
  (0 <= z)%Z -> read_number (toString z) = Some (Z.to_N z).
Proof.
  intros Hz. unfold read_number, toString. rewrite unjs_js, (to_int_nonneg z Hz).
  cbn [DecimalString.NilZero.string_of_int].
  rewrite DecimalString.NilZero.usu by apply to_uint_nonnil.
  simpl. now rewrite DecimalN.Unsigned.of_to.
Qed.

Lemma read_number_zero (s : jsstring) :
  s <> [] -> read_number (48%N :: s) = read_number s.
Proof.
  intros Hs. unfold read_number, unjs. destruct s as [|c s]; [contradiction|].
  cbn [List.map string_of_list_ascii DecimalString.NilZero.uint_of_string].
  change (ascii_of_N 48) with "0"%char.
  cbn [DecimalString.NilEmpty.uint_of_string DecimalString.uint_of_char].
  destruct (DecimalString.uint_of_char (ascii_of_N c) _); reflexivity.
Qed.

(** ** [padStart] to two characters with zeros *)

Lemma padStart2 (s : jsstring) :
  padStart 2 (js "0") s =
  match s with
  | [] => js "00"
  | [c] => 48%N :: s
  | _ => s
  end.
Proof. destruct s as [|a [|b s]]; reflexivity. Qed.

Lemma padStart2_digits (s : jsstring) :
  Forall (fun c => is_digit c = true) s ->
  Forall (fun c => is_digit c = true) (padStart 2 (js "0") s).
Proof.
  intros H. rewrite padStart2. destruct s as [|a [|b s]]; [|now constructor|assumption].
  repeat constructor.
Qed.

Lemma read_number_padStart2 (z : Z) :
  (0 <= z)%Z -> read_number (padStart 2 (js "0") (toString z)) = Some (Z.to_N z).
Proof.
  intros Hz. rewrite padStart2.
  pose proof (toString_nonempty z Hz) as Hne.
  pose proof (read_number_toString z Hz) as Hr.
  destruct (toString z) as [|a [|b s]]; [contradiction| |assumption].
  rewrite read_number_zero; [assumption|discriminate].
Qed.

Lemma padStart2_length (s : jsstring) :
  (2 <= length (padStart 2 (js "0") s))%nat
  /\ ((length s <= 2)%nat -> length (padStart 2 (js "0") s) = 2%nat).
Proof.
  rewrite padStart2. destruct s as [|a [|b [|c s]]]; simpl; split; lia.
Qed.

(** The numbers below 100, by evaluation. *)
Lemma padStart2_below_100 (n : Z) :
  (0 <= n < 100)%Z -> padStart 2 (js "0") (toString n) = two_digits n.
Proof.
  intros Hn.
  assert (forallb (fun k => str_eqb (padStart 2 (js "0") (toString (Z.of_nat k)))
                                    (two_digits (Z.of_nat k)))
                  (seq 0 100) = true) as Hall by (vm_compute; reflexivity).
  rewrite forallb_forall in Hall.
  specialize (Hall (Z.to_nat n)). rewrite Z2Nat.id in Hall by lia.
  apply ClassifierProofs.str_eqb_eq, Hall, in_seq. lia.
Qed.

(** ** Cutting a text at a letter *)

Lemma split_at_first (c : N) (a b : jsstring) :
  ~ In c a -> split_at c (a ++ c :: b) = Some (a, b).
Proof.
  induction a as [|x a IH]; intros Hn; simpl.
  - now rewrite N.eqb_refl.
  - destruct (N.eqb_spec x c) as [->|Hx]; [exfalso; apply Hn; now left|].
    rewrite IH; [reflexivity|]. intros Hin. apply Hn. now right.
Qed.

Lemma digits_without (c : N) (s : jsstring) :
  is_digit c = false ->
  Forall (fun x => is_digit x = true) s -> ~ In c s.
Proof.
  intros Hc Hs Hin. rewrite Forall_forall in Hs. apply Hs in Hin. congruence.
Qed.

(** ** [formatDuration] *)

Lemma mod_3600_60 (ts : Z) : ((ts mod 3600) mod 60 = ts mod 60)%Z.
Proof.
  pose proof (Z.div_mod ts 3600 ltac:(lia)).
  pose proof (Z.div_mod (ts mod 3600) 60 ltac:(lia)).
  pose proof (Z.div_mod ts 60 ltac:(lia)).
  pose proof (Z.mod_pos_bound (ts mod 3600) 60 ltac:(lia)).
  pose proof (Z.mod_pos_bound ts 60 ltac:(lia)).
  lia.
Qed.

Lemma formatDuration_read (ms : Z) :
  (0 <= ms)%Z -> read_duration (formatDuration ms) = Some (Z.to_N (ms / 1000)).
Proof.
  intros Hms. unfold formatDuration. cbv zeta. cbn [fst snd].
  set (ts := (ms / 1000)%Z).
  assert (0 <= ts)%Z as Hts by (unfold ts; apply Z.div_pos; lia).
  assert (0 <= ts / 3600)%Z as Hh by (apply Z.div_pos; lia).
  assert (0 <= Z.rem ts 3600 / 60)%Z as Hm
    by (apply Z.div_pos; [apply Z.rem_nonneg; lia|lia]).
  assert (0 <= Z.rem ts 60)%Z as Hs by (apply Z.rem_nonneg; lia).
  pose proof (padStart2_digits _ (toString_digits _ Hh)) as Dh.
  pose proof (padStart2_digits _ (toString_digits _ Hm)) as Dm.
  pose proof (padStart2_digits _ (toString_digits _ Hs)) as Ds.
  unfold read_duration.
  change (js "h ") with (104%N :: [32%N]).
  change (js "m ") with (109%N :: [32%N]).
  change (js "s") with (115%N :: []).
  cbn [app].
  rewrite split_at_first by (apply digits_without; [reflexivity|assumption]).
  rewrite split_at_first by (apply digits_without; [reflexivity|assumption]).
  cbn [app].
  rewrite split_at_first by (apply digits_without; [reflexivity|assumption]).
  rewrite !read_number_padStart2 by assumption.
  f_equal. apply N2Z.inj.
  rewrite !N2Z.inj_add, !N2Z.inj_mul, !Z2N.id by assumption.
  rewrite !Z.rem_mod_nonneg by lia. simpl Z.of_N.
  pose proof (Z.div_mod ts 3600 ltac:(lia)) as H1.
  pose proof (Z.div_mod (ts mod 3600) 60 ltac:(lia)) as H2.
  assert ((ts mod 3600) mod 60 = ts mod 60)%Z as H3.
  { apply mod_3600_60. }
  lia.
Qed.

(** X16.  A duration that is not negative, in whole milliseconds within
    the safe integers, can be read back from its text, to the second: the
    text splits at [h], [m] and [s] into three decimal numbers, and hours,
    minutes and seconds add up to the whole seconds of the duration.  So
    two such durations are printed alike exactly when they have the same
    number of whole seconds. *)
Theorem formatDuration_reads_back (ms : Z) :
  (0 <= ms <= MAX_SAFE_INTEGER)%Z ->
  read_duration (formatDuration ms) = Some (Z.to_N (ms / 1000))
  /\ forall ms', (0 <= ms' <= MAX_SAFE_INTEGER)%Z ->
                 (formatDuration ms = formatDuration ms'
                  <-> (ms / 1000 = ms' / 1000)%Z).
Proof.
  intros [Hms _]. split; [now apply formatDuration_read|].
  intros ms' [Hms' _]. split.
  - intros H. pose proof (formatDuration_read ms Hms) as H1.
    rewrite H, (formatDuration_read ms' Hms') in H1. injection H1 as H1.
    apply Z2N.inj in H1; [now symmetry| |]; apply Z.div_pos; lia.
  - intros H. unfold formatDuration. cbv zeta. now rewrite H.
Qed.

Lemma formatDuration_reads_back_witness :
  read_duration (formatDuration 3723004) = Some 3723%N.
Proof.
  apply (proj1 (formatDuration_reads_back
                  3723004 ltac:(unfold MAX_SAFE_INTEGER; lia))).
Defined.

(** X17.  The text of a duration that is not negative, in whole
    milliseconds within the safe integers: the hours in at least two
    decimal digits, then minutes and seconds in two digits each, both
    below 60.  The hours stay below 10^10, far from where [String] turns
    to an exponent.  Under 100 hours the text is 11 characters long. *)
Theorem formatDuration_fields (ms : Z) :
  (0 <= ms <= MAX_SAFE_INTEGER)%Z ->
  exists hours minutes seconds,
    formatDuration ms
    = hours ++ js "h " ++ two_digits minutes ++ js "m "
            ++ two_digits seconds ++ js "s"
    /\ Forall (fun c => is_digit c = true) hours
    /\ (2 <= length hours)%nat
    /\ read_number hours = Some (Z.to_N (ms / 3600000))
    /\ (ms / 3600000 < 10 ^ 10)%Z
    /\ (0 <= minutes < 60)%Z /\ (0 <= seconds < 60)%Z
    /\ (ms / 1000 = (ms / 3600000) * 3600 + minutes * 60 + seconds)%Z
    /\ ((ms < 360000000)%Z -> length (formatDuration ms) = 11%nat).
Proof.
  intros [Hms Hsafe]. set (ts := (ms / 1000)%Z).
  assert (0 <= ts)%Z as Hts by (unfold ts; apply Z.div_pos; lia).
  assert (ts / 3600 = ms / 3600000)%Z as Hhours
    by (unfold ts; rewrite Z.div_div by lia; reflexivity).
  assert (0 <= ts / 3600)%Z as Hh by (apply Z.div_pos; lia).
  assert (Z.rem ts 3600 = ts mod 3600)%Z as Hr1 by (apply Z.rem_mod_nonneg; lia).
  assert (Z.rem ts 60 = ts mod 60)%Z as Hr2 by (apply Z.rem_mod_nonneg; lia).
  pose proof (Z.mod_pos_bound ts 3600 ltac:(lia)) as Hb1.
  pose proof (Z.mod_pos_bound ts 60 ltac:(lia)) as Hb2.
  pose proof (Z.div_mod ts 3600 ltac:(lia)) as H1.
  pose proof (Z.div_mod (ts mod 3600) 60 ltac:(lia)) as H2.
  assert ((ts mod 3600) mod 60 = ts mod 60)%Z as H3.
  { apply mod_3600_60. }
  assert (0 <= (ts mod 3600) / 60 < 60)%Z as Hm
    by (split; [apply Z.div_pos; lia|apply Z.div_lt_upper_bound; lia]).
  assert (formatDuration ms
          = padStart 2 (js "0") (toString (ts / 3600)) ++ js "h "
            ++ two_digits ((ts mod 3600) / 60) ++ js "m "
            ++ two_digits (ts mod 60) ++ js "s") as Hshape.
  { unfold formatDuration. cbv zeta. cbn [fst snd]. fold ts.
    rewrite Hr1, Hr2.
    rewrite (padStart2_below_100 ((ts mod 3600) / 60)) by lia.
    now rewrite (padStart2_below_100 (ts mod 60)) by lia. }
  exists (padStart 2 (js "0") (toString (ts / 3600))),
         ((ts mod 3600) / 60)%Z, (ts mod 60)%Z.
  split; [exact Hshape|].
  split; [apply padStart2_digits, toString_digits; assumption|].
  split; [apply padStart2_length|].
  split; [rewrite <- Hhours; now apply read_number_padStart2|].
  split; [apply Z.div_lt_upper_bound; unfold MAX_SAFE_INTEGER in Hsafe; lia|].
  split; [assumption|]. split; [assumption|].
  split; [rewrite <- Hhours; lia|].
  intros Hshort. rewrite Hshape.
  assert (0 <= ts / 3600 < 100)%Z as Hsmall
    by (rewrite Hhours; split; [apply Z.div_pos; lia|
                                apply Z.div_lt_upper_bound; lia]).
  rewrite padStart2_below_100 by assumption. reflexivity.
Qed.

Lemma formatDuration_fields_witness :
  length (formatDuration 3723004) = 11%nat.
Proof.
  destruct (formatDuration_fields
              3723004 ltac:(unfold MAX_SAFE_INTEGER; lia))
    as (hours & minutes & seconds & _ & _ & _ & _ & _ & _ & _ & _ & H).
  apply H. lia.
Defined.

(** ** The list of available names *)

Lemma join_cons (sep x y : jsstring) (rest : list jsstring) :
  join sep (x :: y :: rest) = x ++ sep ++ join sep (y :: rest).
Proof. reflexivity. Qed.

Lemma in_join_head (sep x : jsstring) (rest : list jsstring) (c : N) :
  In c x -> In c (join sep (x :: rest)).
Proof.
  intros H. destruct rest as [|y rest]; [exact H|].
  rewrite join_cons. apply in_or_app. now left.
Qed.

Lemma cut_unique (c : N) (x y a b : jsstring) :
  ~ In c x -> ~ In c y -> x ++ c :: a = y ++ c :: b -> x = y /\ a = b.
Proof.
  revert y. induction x as [|u x IH]; intros y Hx Hy H.
  - destruct y as [|v y]; simpl in H.
    + now injection H as ->.
    + injection H as -> _. exfalso. apply Hy. now left.
  - destruct y as [|v y]; simpl in H.
    + injection H as -> _. exfalso. apply Hx. now left.
    + injection H as -> H. destruct (IH y) as [-> ->]; try assumption.
      * intros Hin. apply Hx. now right.
      * intros Hin. apply Hy. now right.
      * now split.
Qed.

Lemma join_comma_injective :
  forall l1 l2 : list jsstring,
    Forall comma_free l1 -> Forall comma_free l2 ->
    l1 <> [] -> l2 <> [] ->
    join (js ", ") l1 = join (js ", ") l2 -> l1 = l2.
Proof.
  induction l1 as [|x l1 IH]; intros l2 H1 H2 N1 N2 H; [contradiction|].
  destruct l2 as [|y l2]; [contradiction|].
  inversion H1 as [|? ? Hx H1']; subst. inversion H2 as [|? ? Hy H2']; subst.
  destruct l1 as [|x' l1], l2 as [|y' l2].
  - simpl in H. now subst.
  - exfalso. apply Hx. rewrite join_cons in H. simpl in H. rewrite H.
    apply in_or_app. right. now left.
  - exfalso. apply Hy. rewrite join_cons in H. simpl in H. rewrite <- H.
    apply in_or_app. right. now left.
  - rewrite !join_cons in H. change (js ", ") with (44%N :: [32%N]) in H.
    cbn [app] in H. apply cut_unique in H; [|assumption|assumption].
    destruct H as [-> H]. injection H as H. f_equal.
    apply IH; try assumption; discriminate.
Qed.

(** The available names of a run are names of candidates. *)
Lemma available_names_of_run
      (ToNumber : value -> number) (ToString : value -> jsstring)
      (spawn : nat -> spawner) (file : config_file) (fuel : nat)
      (tr : list event) (st : state) :
  run ToNumber ToString spawn file fuel = (tr, Summary st) ->
  Forall (fun name => In 46%N name /\ comma_free name) (availableDomains st).
Proof.
  unfold run.
  destruct (readConfig ToNumber ToString file) as [cfg|] eqn:Hcfg; [|discriminate].
  destruct (getWhoisProvider (topLevelDomain cfg)) as [p|] eqn:Hp; [|discriminate].
  destruct (domainGenerator fuel _ _ _) as [domains|] eqn:Hgen; [|discriminate].
  intros H. destruct (loop_summary _ _ _ _ _ _ _ _ H) as (_ & _ & ->).
  simpl app. apply Forall_forall. intros name Hin. apply in_map_iff in Hin.
  destruct Hin as ([i d] & <- & Hin). apply filter_In in Hin.
  destruct Hin as [Hin _]. apply in_combine_r in Hin. simpl snd.
  destruct (generated_labels _ _ _ _ _ Hgen) as (_ & _ & Hlabels).
  destruct (accepted_is_valid _ _ _ _ Hcfg) as (_ & Hpre & Hsuf & _ & _ & Htld).
  destruct (Hlabels d Hin) as (_ & _ & Haz). specialize (Haz Hpre Hsuf).
  unfold fqdn_of. split.
  - apply in_or_app. right. now left.
  - intros Hc. apply in_app_or in Hc. destruct Hc as [Hc | Hc].
    + rewrite Forall_forall in Haz. apply Haz in Hc. discriminate.
    + change (js ".") with [46%N] in Hc. simpl in Hc.
      destruct Hc as [Hc | Hc]; [discriminate|].
      destruct Htld as [Ht | [Ht | [Ht | [Ht | []]]]]; rewrite <- Ht in Hc;
        simpl in Hc;
        repeat (destruct Hc as [Hc | Hc]; [discriminate|]); contradiction.
Qed.

(** X18.  The line of available names at the end of a run reads [None]
    exactly when no name is available; otherwise it is the names joined by a
    comma and a space, and it determines them: no other list of comma-free
    names is printed the same. *)
Theorem available_line_of_run
        (ToNumber : value -> number) (ToString : value -> jsstring)
        (spawn : nat -> spawner) (file : config_file) (fuel : nat)
        (tr : list event) (st : state) :
  run ToNumber ToString spawn file fuel = (tr, Summary st) ->
  (availableList st = js "None" <-> availableDomains st = [])
  /\ (availableDomains st <> [] ->
      availableList st = join (js ", ") (availableDomains st)
      /\ forall names,
          names <> [] -> Forall comma_free names ->
          join (js ", ") names = availableList st ->
          names = availableDomains st).
Proof.
  intros H. pose proof (available_names_of_run _ _ _ _ _ _ _ H) as Hnames.
  unfold availableList. destruct (availableDomains st) as [|name rest] eqn:E.
  - split; [split; reflexivity|]. intros Hn. contradiction.
  - cbn [length]. inversion Hnames as [|? ? [Hdot Hcomma] Hrest]; subst.
    split.
    + split; [|discriminate]. intros Hnone. exfalso.
      pose proof (in_join_head (js ", ") name rest 46%N Hdot) as Hin.
      rewrite Hnone in Hin. simpl in Hin.
      repeat (destruct Hin as [Hin | Hin]; [discriminate|]). contradiction.
    + intros _. split; [reflexivity|]. intros names Hne Hfree Hjoin.
      apply join_comma_injective; try assumption; [|discriminate].
      eapply Forall_impl; [|exact Hnames]. now intros a [_ Ha].
Qed.

Lemma available_line_of_run_witness :
  availableList (mkState 25 24 [js "abb.de"]) = js "None"
  <-> availableDomains (mkState 25 24 [js "abb.de"]) = [].
Proof.
  apply (proj1 (available_line_of_run no_number no_string mixed_answers
                  three_letters 1
                  (fst (run no_number no_string mixed_answers three_letters 1))
                  (mkState 25 24 [js "abb.de"])
                  ltac:(vm_compute; reflexivity))).
Defined.

End ReportFacts.
